(** * alm.lm_autoprompt: the [Prompter] sentence-mining loop

    A shallow embedding of [alm/lm_autoprompt.py].  The tokenizer, the
    language model and the tensor library are external collaborators of the
    module: they appear here as records of functions ([Tokenizer], [Numeric],
    [Model]) and every function of the module is written over them, so the
    theorems hold for every tokenizer and every model.  Python exceptions are
    values of [PyError]; a function that can raise returns a [Result].

    Strings are ASCII text ([string]); Python integers are [Z]; Python floats
    are an abstract type [num] with the operations the module uses.

    A batch of the [DataLoader] is the list of its rows; [default_collate]
    says when stacking the rows into tensors fails.

    The methods are written over the loaded model [lm] ([self.model]);
    [on_use] is the lazy call of [load_model] that precedes the first of
    them.

    Outside the embedding: logging and printing; and the branches that wrap
    a bare string argument into a list (the arguments are lists). *)

From Stdlib Require Import String Ascii List ZArith Lia Bool Arith Permutation Setoid.
From Stdlib Require Import DecimalString.
Import ListNotations.
Local Open Scope string_scope.
Local Open Scope list_scope.

Set Implicit Arguments.

(* ------------------------------------------------------------------ *)
(** ** Python exceptions and the error monad *)

(** The assertions of the module, one constructor per [assert]. *)
Inductive Assertion : Type :=
| A_not_causal            (* __init__:  assert not self.is_causal *)
| A_model_max_length      (* __init__:  tokenizer.model_max_length >= max_length *)
| A_label_length          (* input_ids_to_labels: len(label_position) == len(label_id) *)
| A_n_gpu                 (* load_model: n_gpu <= 1 *)
| A_word_pair_length      (* pair_to_seed: len(word_pair) == 2 *)
| A_mask_in_sentence      (* encode_plus: mask_token in sentence *)
| A_exceed_max_length     (* encode_plus: len(input_ids) < max_length, 'exceed max_length' *)
| A_seed_pairs_length     (* replace_single_mask: len(seed_sentences) == len(word_pairs) *)
| A_partition_length.     (* replace_single_mask: len(word_pairs) == len(partition) *)

Inductive PyError : Type :=
| AssertionError (a : Assertion)
| ValueError (msg : string)
| IndexError
| KeyError
| TypeError
| ZeroDivisionError
| NotImplementedError
| OSError
| RuntimeError
| OverflowError.

Inductive Result (A : Type) : Type :=
| Ok (a : A)
| Err (e : PyError).
Arguments Ok {A} a.
Arguments Err {A} e.

Definition bind {A B : Type} (c : Result A) (k : A -> Result B) : Result B :=
  match c with
  | Ok a => k a
  | Err e => Err e
  end.

Declare Scope py_scope.
Delimit Scope py_scope with py.
Notation "x <- c ;; k" := (bind c (fun x => k))
  (at level 100, c at next level, right associativity) : py_scope.
Notation "' p <- c ;; k" := (bind c (fun x => let p := x in k))
  (at level 100, p pattern, c at next level, right associativity) : py_scope.
Local Open Scope py_scope.

Definition is_ok {A : Type} (r : Result A) : bool :=
  match r with Ok _ => true | Err _ => false end.

(** [list(map(f, xs))] where [f] may raise: the first failure aborts. *)
Fixpoint mapM {A B : Type} (f : A -> Result B) (xs : list A) : Result (list B) :=
  match xs with
  | [] => Ok []
  | x :: xs' =>
      y <- f x ;;
      ys <- mapM f xs' ;;
      Ok (y :: ys)
  end.

(** [list(filter(p, xs))] where the predicate may raise. *)
Fixpoint filterM {A : Type} (p : A -> Result bool) (xs : list A) : Result (list A) :=
  match xs with
  | [] => Ok []
  | x :: xs' =>
      b <- p x ;;
      ys <- filterM p xs' ;;
      Ok (if b then x :: ys else ys)
  end.

(** [filter(None, xs)] on a list of optional values. *)
Fixpoint filter_None {A : Type} (xs : list (option A)) : list A :=
  match xs with
  | [] => []
  | Some x :: xs' => x :: filter_None xs'
  | None :: xs' => filter_None xs'
  end.

(* ------------------------------------------------------------------ *)
(** ** Python list and string primitives *)

(** [range(a, b)] *)
Definition py_range (a b : Z) : list Z :=
  map (fun i => (a + Z.of_nat i)%Z) (seq 0 (Z.to_nat (b - a))).

(** [[x] * n]; a negative count gives the empty list. *)
Definition py_repeat {A : Type} (x : A) (n : Z) : list A :=
  repeat x (Z.to_nat n).

(** [l[i]] for a non-negative index. *)
Definition py_nth {A : Type} (l : list A) (i : nat) : Result A :=
  match nth_error l i with
  | Some x => Ok x
  | None => Err IndexError
  end.

(** [l[i]] for an integer index (negative indices count from the end). *)
Definition py_getitem {A : Type} (l : list A) (i : Z) : Result A :=
  let n := Z.of_nat (length l) in
  let j := if (i <? 0)%Z then (i + n)%Z else i in
  if ((0 <=? j) && (j <? n))%Z then py_nth l (Z.to_nat j) else Err IndexError.

Fixpoint list_update {A : Type} (l : list A) (i : nat) (v : A) : list A :=
  match l, i with
  | [], _ => []
  | _ :: l', O => v :: l'
  | x :: l', S i' => x :: list_update l' i' v
  end.

(** [l[i] = v] *)
Definition py_setitem {A : Type} (l : list A) (i : Z) (v : A) : Result (list A) :=
  let n := Z.of_nat (length l) in
  let j := if (i <? 0)%Z then (i + n)%Z else i in
  if ((0 <=? j) && (j <? n))%Z then Ok (list_update l (Z.to_nat j) v) else Err IndexError.

(** [l[s:e]] for [0 <= s], [0 <= e]. *)
Definition slice {A : Type} (l : list A) (s e : nat) : list A :=
  firstn (e - s) (skipn s l).

(** [l[:n]]; a negative [n] drops the last [-n] elements. *)
Definition py_take {A : Type} (l : list A) (n : Z) : list A :=
  if (n <? 0)%Z then firstn (Z.to_nat (Z.of_nat (length l) + n)) l
  else firstn (Z.to_nat n) l.

(** [list(zip( *rows))]: the transpose, cut at the shortest row. *)
Definition is_nil {A : Type} (l : list A) : bool :=
  match l with [] => true | _ => false end.

Fixpoint zip_star_aux {A : Type} (n : nat) (rows : list (list A)) : list (list A) :=
  match n with
  | O => []
  | S n' =>
      if existsb (@is_nil A) rows then []
      else filter_None (map (@hd_error A) rows) :: zip_star_aux n' (map (@tl A) rows)
  end.

Definition zip_star {A : Type} (rows : list (list A)) : list (list A) :=
  match rows with
  | [] => []
  | r :: _ => zip_star_aux (length r) rows
  end.

(** [sep.join(l)] is [String.concat sep l]. *)
Definition join (sep : string) (l : list string) : string := String.concat sep l.

(** [pat in s] on strings. *)
Fixpoint contains (pat s : string) : bool :=
  String.prefix pat s ||
  match s with
  | EmptyString => false
  | String _ s' => contains pat s'
  end.

(** Number of positions of [s] at which [pat] starts. *)
Fixpoint occurrences (pat s : string) : nat :=
  (if String.prefix pat s then 1 else 0) +
  match s with
  | EmptyString => 0
  | String _ s' => occurrences pat s'
  end.

(** ASCII characters matched by the regular expression [\s]. *)
Definition is_space (c : ascii) : bool :=
  let n := nat_of_ascii c in
  (((9 <=? n) && (n <=? 13)) || ((28 <=? n) && (n <=? 32)))%nat.

(** [re.sub(alt_1|...|alt_n, rep, s)] for literal alternatives: scanning
    from the left, the first alternative (in list order) that starts at the
    current position is replaced by [rep] and the scan resumes after it.
    [skip] counts the characters of the last match still to be consumed.
    An empty match leaves the text as it is when [rep] is only used for
    non-empty matches, which is how the module uses it. *)
Fixpoint sub_literals (alts : list string) (rep : string -> string)
    (skip : nat) (s : string) : string :=
  match s with
  | EmptyString => EmptyString
  | String c s' =>
      match skip with
      | S k => sub_literals alts rep k s'
      | O =>
          match find (fun t => String.prefix t s) alts with
          | Some t =>
              match String.length t with
              | O => String c (sub_literals alts rep 0 s')
              | S k => String.append (rep t) (sub_literals alts rep k s')
              end
          | None => String c (sub_literals alts rep 0 s')
          end
      end
  end.

(** [re.sub(r'\s+', ' ', s)] *)
Fixpoint collapse_spaces (in_run : bool) (s : string) : string :=
  match s with
  | EmptyString => EmptyString
  | String c s' =>
      if is_space c then
        if in_run then collapse_spaces true s'
        else String " " (collapse_spaces true s')
      else String c (collapse_spaces false s')
  end.

(** [re.sub(r'\A\s*', '', s)] *)
Fixpoint lstrip (s : string) : string :=
  match s with
  | EmptyString => EmptyString
  | String c s' => if is_space c then lstrip s' else s
  end.

(** [min(l)]: keeps the first element no later element is smaller than. *)
Definition py_min {A : Type} (ltb : A -> A -> bool) (l : list A) : Result A :=
  match l with
  | [] => Err (ValueError "min() arg is an empty sequence")
  | x :: l' => Ok (fold_left (fun best y => if ltb y best then y else best) l' x)
  end.

(** [l.index(v)] *)
Fixpoint py_index {A : Type} (eqb : A -> A -> bool) (l : list A) (v : A) : Result nat :=
  match l with
  | [] => Err (ValueError "x is not in list")
  | x :: l' =>
      if eqb x v then Ok O
      else i <- py_index eqb l' v ;; Ok (S i)
  end.

(** [sorted(l, key=lambda x: x[1], reverse=True)]: descending by key and
    stable, written as an insertion sort. *)
Fixpoint insert_desc {A K : Type} (ltb : K -> K -> bool) (key : A -> K)
    (x : A) (l : list A) : list A :=
  match l with
  | [] => [x]
  | y :: l' =>
      if ltb (key x) (key y) then y :: insert_desc ltb key x l'
      else x :: y :: l'
  end.

Fixpoint sorted_desc {A K : Type} (ltb : K -> K -> bool) (key : A -> K)
    (l : list A) : list A :=
  match l with
  | [] => []
  | x :: l' => insert_desc ltb key x (sorted_desc ltb key l')
  end.

(** [get_partition]: the start and end offset of every sub-list in the
    concatenation. *)
Definition get_partition {A : Type} (_list : list (list A)) : list (nat * nat) :=
  let length_ := map (@length A) _list in
  map (fun x => (list_sum (firstn x length_), list_sum (firstn (x + 1) length_)))
      (seq 0 (length length_)).

(** [str(z)] for an integer. *)
Definition repr_Z (z : Z) : string := NilZero.string_of_int (Z.to_int z).

(** The exception of [DataLoader(batch_size=bs)] for a batch size that is
    not positive. *)
Definition batch_size_error (bs : Z) : PyError :=
  ValueError (String.append
    "batch_size should be a positive integer value, but got batch_size="
    (repr_Z bs)).

(** The rows a [DataLoader(batch_size=bs, shuffle=False, drop_last=False)]
    puts in each batch: consecutive chunks of [bs] items, the last one
    possibly shorter.  A non-positive batch size is refused when the loader
    is built.  The rows of a batch are stacked when the loop reaches the
    batch ([default_collate] below). *)
Fixpoint batches_fuel {A : Type} (fuel bs : nat) (l : list A) : list (list A) :=
  match fuel with
  | O => []
  | S fuel' =>
      match l with
      | [] => []
      | _ => firstn bs l :: batches_fuel fuel' bs (skipn bs l)
      end
  end.

Definition data_loader {A : Type} (bs : nat) (l : list A) : Result (list (list A)) :=
  match bs with
  | O => Err (batch_size_error 0)
  | _ => Ok (batches_fuel (length l) bs l)
  end.

(* ------------------------------------------------------------------ *)
(** ** The external collaborators *)

(** What [tokenizer.encode_plus] returns, with the [labels] entry that
    [Prompter.encode_plus] adds for token-wise masking. *)
Record BatchEncoding : Type := {
  input_ids : list Z;
  attention_mask : list Z;
  labels : option (list Z)
}.

(** The tokenizer of the [transformers] library, as far as the module uses it.
    [tk_encode_plus max_length text] stands for
    [tokenizer.encode_plus(text, max_length=max_length, truncation=True,
    padding='max_length')], and [decode] for
    [tokenizer.decode(ids, skip_special_tokens=False)]. *)
Record Tokenizer : Type := {
  mask_token : string;
  mask_token_id : Z;
  pad_token_id : Z;
  all_special_tokens : list string;
  model_max_length : Z;
  tokenize : string -> list string;
  convert_tokens_to_ids : string -> Z;
  convert_ids_to_tokens : list Z -> list string;
  convert_tokens_to_string : list string -> string;
  encode : string -> list Z;
  tk_encode_plus : Z -> string -> BatchEncoding;
  decode : list Z -> string
}.

(** Python floats, as far as the module computes with them.  [num_exp x] is
    [math.exp(x)]: [None] where it raises [OverflowError]. *)
Record Numeric : Type := {
  num : Type;
  num_of_Z : Z -> num;
  num_add : num -> num -> num;
  num_div : num -> num -> num;
  num_exp : num -> option num;
  num_ltb : num -> num -> bool;
  num_eqb : num -> num -> bool
}.

(** The language model and the tensor operations applied to its output.
    [forward batch i] is row [i] of [model( **batch)['logits']] (the tensor has
    one row per item of the batch); [topk k row] is
    [row.topk(k, dim=-1)] as a pair of lists, one entry per position;
    [token_loss row p c] is the cross entropy of position [p] of the row
    against class [c]. *)
Record Model (N : Numeric) : Type := {
  logits : Type;
  forward : list BatchEncoding -> nat -> logits;
  topk : Z -> logits -> list (list (num N)) * list (list Z);
  token_loss : logits -> nat -> Z -> num N
}.

(** [PAD_TOKEN_LABEL_ID = nn.CrossEntropyLoss().ignore_index] *)
Definition PAD_TOKEN_LABEL_ID : Z := (-100)%Z.

(** The attributes of a [Prompter] that its methods read. *)
Record Prompter : Type := {
  num_worker : Z;
  model_name : string;
  cache_dir : string;
  is_causal : bool;
  tokenizer : Tokenizer;
  max_length : Z;
  sp_token_prefix : list string;
  sp_token_suffix : list string
}.

(* ------------------------------------------------------------------ *)
(** ** Construction: [Prompter.__init__] and [load_model] *)

(** Calls that reach outside the process, in the order they happen. *)
Inductive Event : Type :=
| SetEnv (key value : string)
| LoadTokenizer (model cache : string)
| LoadConfig (model cache : string)
| LoadCausalLM (model cache : string)
| LoadMaskedLM (model cache : string).

(** The events that load a tokenizer, a configuration or a model. *)
Definition is_load (e : Event) : bool :=
  match e with
  | SetEnv _ _ => false
  | _ => true
  end.

(** The model hub: [AutoTokenizer.from_pretrained] by name. *)
Definition Hub : Type := string -> option Tokenizer.

Definition the_probe : string := "get tokenizer specific prefix".

(** The special tokens the tokenizer puts before and after a sentence:
    [sp_token_prefix] and [sp_token_suffix]. *)
Definition sp_tokens (tk : Tokenizer) : Result (list string * list string) :=
  let tokens := tokenize tk the_probe in
  let tokens_encode := convert_ids_to_tokens tk (encode tk the_probe) in
  first <- py_getitem tokens 0 ;;
  i <- py_index String.eqb tokens_encode first ;;
  last_ <- py_getitem tokens (-1) ;;
  j <- py_index String.eqb tokens_encode last_ ;;
  Ok (firstn i tokens_encode, skipn (j + 1) tokens_encode).

(** [Prompter.__init__(model, max_length, cache_dir, num_worker)]: the trace
    of external calls and the object, or the exception. *)
Definition Prompter_init (hub : Hub) (model : string) (max_length_ : option Z)
    (cache_dir_ : string) (num_worker_ : Z) : list Event * Result Prompter :=
  let tr0 := if (num_worker_ =? 1)%Z then [SetEnv "OMP_NUM_THREADS" "1"] else [] in
  let is_causal_ := contains "gpt" model in
  if is_causal_ then (tr0, Err (AssertionError A_not_causal))
  else
    let tr1 := tr0 ++ [LoadTokenizer model cache_dir_] in
    match hub model with
    | None => (tr1, Err OSError)
    | Some tk =>
        let tr2 := tr1 ++ [LoadConfig model cache_dir_] in
        let ml :=
          match max_length_ with
          | Some m =>
              if (m =? 0)%Z then Ok (model_max_length tk)
              else if (model_max_length tk >=? m)%Z then Ok m
                   else Err (AssertionError A_model_max_length)
          | None => Ok (model_max_length tk)
          end in
        (tr2,
         m <- ml ;;
         ps <- sp_tokens tk ;;
         Ok {| num_worker := num_worker_; model_name := model;
               cache_dir := cache_dir_; is_causal := is_causal_;
               tokenizer := tk; max_length := m;
               sp_token_prefix := fst ps; sp_token_suffix := snd ps |})
    end.

Inductive ModelType : Type := causal_lm | masked_lm.

(** [load_model]: which model class is loaded, the resulting [model_type]
    and [device]; [n_gpu] is [torch.cuda.device_count()]. *)
Definition load_model (self : Prompter) (n_gpu : nat)
  : list Event * Result (ModelType * string) :=
  let ev_ty :=
    if is_causal self
    then (LoadCausalLM (model_name self) (cache_dir self), causal_lm)
    else (LoadMaskedLM (model_name self) (cache_dir self), masked_lm) in
  ([fst ev_ty],
   if (n_gpu <=? 1)%nat
   then Ok (snd ev_ty, if (0 <? n_gpu)%nat then "cuda" else "cpu")
   else Err (AssertionError A_n_gpu)).

(* ------------------------------------------------------------------ *)
(** ** The methods of a constructed [Prompter]

    [lm] is [self.model], the model [load_model] has loaded: the bodies
    below are what the methods do from there ([on_use] is the step
    before). *)
Section Methods.

Variable N : Numeric.
Variable lm : Model N.
Variable self : Prompter.

Local Abbreviation tk := (tokenizer self).

Definition input_ids_to_labels (input_ids_ : list Z)
    (label_position label_id : option (list Z)) : Result (list Z) :=
  label <-
    match label_position, label_id with
    | None, None =>
        Ok (map (fun x => if (x =? pad_token_id tk)%Z then PAD_TOKEN_LABEL_ID else x)
                input_ids_)
    | Some lp, Some li =>
        if negb (length lp =? length li)%nat
        then Err (AssertionError A_label_length)
        else fold_left (fun acc pi => l <- acc ;; py_setitem l (fst pi) (snd pi))
                       (combine lp li)
                       (Ok (repeat PAD_TOKEN_LABEL_ID (length input_ids_)))
    | _, _ => Err TypeError
    end ;;
  Ok (if is_causal self then tl label ++ [PAD_TOKEN_LABEL_ID] else label).

(** [cleanup_decode]; the special tokens are literal text for the regular
    expressions (the source escapes the brackets of [[MASK]]-style tokens). *)
Definition cleanup_decode (sentence : string) : string :=
  let cleaned_sent :=
    sub_literals [mask_token tk]
      (fun t => String.append " " (String.append t " ")) 0 sentence in
  let cleaned_sent := collapse_spaces false cleaned_sent in
  let to_remove :=
    filter (fun x => negb (String.eqb x (mask_token tk))) (all_special_tokens tk) in
  let cleaned_sent := sub_literals to_remove (fun _ => EmptyString) 0 cleaned_sent in
  lstrip cleaned_sent.

Definition with_labels (e : BatchEncoding) (l : option (list Z)) : BatchEncoding :=
  {| input_ids := input_ids e; attention_mask := attention_mask e; labels := l |}.

(** The inner function of [encode_plus]. *)
Definition encode_with_single_mask_id (token_list : list string)
    (mask_position : Z) : Result (option BatchEncoding) :=
  tok <- py_getitem token_list mask_position ;;
  let masked_token_id := convert_tokens_to_ids tk tok in
  if (masked_token_id =? mask_token_id tk)%Z then Ok None
  else
    _token_list <- py_setitem token_list mask_position (mask_token tk) ;;
    let tmp_string := convert_tokens_to_string tk _token_list in
    let _encode := tk_encode_plus tk (max_length self) tmp_string in
    if negb (Z.of_nat (length (input_ids _encode)) <? max_length self)%Z
    then Err (AssertionError A_exceed_max_length)
    else
      l <- input_ids_to_labels (input_ids _encode)
             (Some [(mask_position + Z.of_nat (length (sp_token_prefix self)))%Z])
             (Some [masked_token_id]) ;;
      Ok (Some (with_labels _encode (Some l))).

Definition encode_plus (sentence : string) (token_wise_mask : bool)
  : Result (list BatchEncoding) :=
  if is_causal self then Err NotImplementedError
  else if negb token_wise_mask then
    if negb (contains (mask_token tk) sentence)
    then Err (AssertionError A_mask_in_sentence)
    else
      let encode_ := tk_encode_plus tk (max_length self) sentence in
      if negb (Z.of_nat (length (input_ids encode_)) <? max_length self)%Z
      then Err (AssertionError A_exceed_max_length)
      else Ok [encode_]
  else
    let token_list := tokenize tk sentence in
    let length_ :=
      Z.min (max_length self - Z.of_nat (length (sp_token_prefix self)))
            (Z.of_nat (length token_list)) in
    r <- mapM (encode_with_single_mask_id token_list) (py_range 0 length_) ;;
    Ok (filter_None r).

(** [torch.sum(loss_fct(logits, labels), -1)] for one row: positions whose
    label is the ignore index contribute zero. *)
Definition row_loss (row : logits lm) (labels_ : list Z) : num N :=
  fold_left (num_add N)
    (map (fun py => if (snd py =? PAD_TOKEN_LABEL_ID)%Z then num_of_Z N 0
                    else token_loss lm row (fst py) (snd py))
         (combine (seq 0 (length labels_)) labels_))
    (num_of_Z N 0).

Definition count_labels (labels_ : list Z) : nat :=
  length (filter (fun y => negb (y =? PAD_TOKEN_LABEL_ID)%Z) labels_).

Definition pop_labels (e : BatchEncoding) : Result (list Z) :=
  match labels e with
  | Some l => Ok l
  | None => Err KeyError
  end.

(** All lists have the length of the first one: the tensors of the rows can
    be stacked. *)
Definition same_length {A : Type} (ls : list (list A)) : bool :=
  match ls with
  | [] => true
  | l :: ls' => forallb (fun l' => (length l' =? length l)%nat) ls'
  end.

(** [default_collate] on the rows of one batch ([Dataset.__getitem__] turns
    the lists of a row into tensors).  The keys are those of the first row,
    in order: [input_ids], [attention_mask] and, when the first row has
    them, [labels].  For each key the values of all rows are fetched
    ([KeyError] if a row has no [labels]) and stacked ([RuntimeError] if
    they differ in length).  The [labels] of later rows are dropped when the
    first row has none. *)
Definition default_collate (batch : list BatchEncoding)
  : Result (list BatchEncoding) :=
  match batch with
  | [] => Ok []
  | elem :: _ =>
      if negb (same_length (map input_ids batch)) then Err RuntimeError
      else if negb (same_length (map attention_mask batch)) then Err RuntimeError
      else
        match labels elem with
        | None => Ok (map (fun e => with_labels e None) batch)
        | Some _ =>
            labels_ <- mapM pop_labels batch ;;
            if negb (same_length labels_) then Err RuntimeError
            else Ok batch
        end
  end.

(** The body of the inference loop of [get_perplexity] for one batch. *)
Definition nll_of_batch (encode_ : list BatchEncoding) : Result (list (num N)) :=
  labels_ <- mapM pop_labels encode_ ;;
  let inputs := map (fun e => with_labels e None) encode_ in
  mapM (fun x =>
          let loss := row_loss (forward lm inputs (fst x)) (snd x) in
          match count_labels (snd x) with
          | O => Err ZeroDivisionError
          | n => Ok (num_div N loss (num_of_Z N (Z.of_nat n)))
          end)
       (combine (seq 0 (length encode_)) labels_).

(** [sum(l)] of Python: from the integer zero, left to right. *)
Definition py_sum (l : list (num N)) : num N :=
  fold_left (num_add N) l (num_of_Z N 0).

Definition perplexity_of_slice (nll : list (num N)) (x : nat * nat)
  : Result (num N) :=
  let total := py_sum (slice nll (fst x) (snd x)) in
  match snd x - fst x with
  | O => Err ZeroDivisionError
  | n =>
      match num_exp N (num_div N total (num_of_Z N (Z.of_nat n))) with
      | Some y => Ok y
      | None => Err OverflowError
      end
  end.

Definition data_loader_Z {A : Type} (batch_size : Z) (l : list A)
  : Result (list (list A)) :=
  if (batch_size <=? 0)%Z
  then Err (batch_size_error batch_size)
  else data_loader (Z.to_nat batch_size) l.

Definition get_perplexity (sentences : list string) (batch_size : Z)
  : Result (list (num N)) :=
  data <- mapM (fun x => encode_plus x true) sentences ;;
  let partition := get_partition data in
  loader <- data_loader_Z batch_size (concat data) ;;
  nlls <- mapM (fun rows => encode_ <- default_collate rows ;; nll_of_batch encode_)
               loader ;;
  let nll := concat nlls in
  mapM (perplexity_of_slice nll) partition.

(** The candidate templates of [seed_type='best'], in the order built. *)
Definition best_candidates (h t : string) : list string :=
  flat_map
    (fun pre_n =>
       let prefix := py_repeat (mask_token tk) pre_n ++ [h] in
       map (fun mid_n =>
              let middle := py_repeat (mask_token tk) mid_n ++ [t] in
              join " " (prefix ++ middle))
           (py_range 1 (max_length self - 1 - pre_n)))
    (py_range 0 (max_length self - 2)).

(** [candidates[ppl.index(min(ppl))]] *)
Definition pick_min_perplexity (candidates : list string) (ppl : list (num N))
  : Result string :=
  m <- py_min (num_ltb N) ppl ;;
  i <- py_index (num_eqb N) ppl m ;;
  py_nth candidates i.

Definition pair_to_seed (word_pair : list string)
    (n_blank n_blank_prefix n_blank_suffix batch_size : Z) (seed_type : string)
  : Result string :=
  match word_pair with
  | [h; t] =>
      if String.eqb seed_type "middle" then
        Ok (join " " ([h] ++ py_repeat (mask_token tk) n_blank ++ [t]))
      else if String.eqb seed_type "whole" then
        Ok (join " " (py_repeat (mask_token tk) n_blank_prefix ++ [h]
                      ++ py_repeat (mask_token tk) n_blank
                      ++ [t] ++ py_repeat (mask_token tk) n_blank_suffix))
      else if String.eqb seed_type "best" then
        let candidates := best_candidates h t in
        ppl <- get_perplexity candidates batch_size ;;
        pick_min_perplexity candidates ppl
      else Err (ValueError (String.append "unknown seed type: " seed_type))
  | _ => Err (AssertionError A_word_pair_length)
  end.

(** [decode_topk], the inner function of [process_single_sentence]. *)
Definition decode_topk (head tail : string) (inp : list Z)
    (k : Z) (replace_pos : nat) (ind_ : list Z) (likelihood : list (num N))
  : Result (option (string * num N)) :=
  v <- py_getitem ind_ k ;;
  inp_ <- py_setitem inp (Z.of_nat replace_pos) v ;;
  let decoded := decode tk inp_ in
  let decoded := cleanup_decode decoded in
  if contains head decoded && contains tail decoded then
    l <- py_getitem likelihood k ;;
    Ok (Some (decoded, l))
  else Ok None.

(** The candidates one row [i] of the inference output contributes. *)
Definition row_candidates (head tail : string) (topk_per_position : Z)
    (inp : list Z) (val : list (list (num N))) (ind : list (list Z))
  : Result (list (string * num N)) :=
  let positions := combine (seq 0 (length (combine val ind))) (combine val ind) in
  filtered <-
    filterM (fun x => v <- py_nth inp (fst x) ;; Ok (v =? mask_token_id tk)%Z)
            positions ;;
  r <- mapM (fun x =>
               d <- mapM (fun k => decode_topk head tail inp k (fst x)
                                     (snd (snd x)) (fst (snd x)))
                         (py_range 0 topk_per_position) ;;
               Ok (filter_None d))
            filtered ;;
  Ok (concat r).

Definition process_single_sentence (word_pairs : list (list string))
    (partition : list (nat * nat)) (total_input : list (list Z))
    (total_val : list (list (list (num N)))) (total_ind : list (list (list Z)))
    (topk_ topk_per_position : Z) (partition_n : nat) : Result (list string) :=
  wp <- py_nth word_pairs partition_n ;;
  ht <- match wp with
        | [h; t] => Ok (h, t)
        | _ => Err (ValueError "wrong number of values to unpack")
        end ;;
  se <- py_nth partition partition_n ;;
  r <- mapM (fun i =>
               inp <- py_nth total_input i ;;
               val <- py_nth total_val i ;;
               ind <- py_nth total_ind i ;;
               row_candidates (fst ht) (snd ht) topk_per_position inp val ind)
            (seq (fst se) (snd se - fst se)) ;;
  let topk_decoded := concat r in
  let topk_decoded := sorted_desc (num_ltb N) (@snd string (num N)) topk_decoded in
  Ok (py_take (map (@fst string (num N)) topk_decoded)
              (Z.min topk_ (Z.of_nat (length topk_decoded)))).

(** [replace_single_mask] up to [greedy_filling]: the ranked candidate
    sentences of every seed sentence. *)
Definition greedy_filling (seed_sentences : list string)
    (word_pairs : list (list string)) (batch_size topk_ topk_per_position : Z)
  : Result (list (list string)) :=
  if negb (length seed_sentences =? length word_pairs)%nat
  then Err (AssertionError A_seed_pairs_length)
  else
    data <- mapM (fun x => encode_plus x (negb (contains (mask_token tk) x)))
                 seed_sentences ;;
    let partition := get_partition data in
    loader <- data_loader_Z batch_size (concat data) ;;
    if negb (length word_pairs =? length partition)%nat
    then Err (AssertionError A_partition_length)
    else
      batches <- mapM default_collate loader ;;
      let outputs :=
        map (fun encode_ =>
               map (fun i => topk lm topk_per_position (forward lm encode_ i))
                   (seq 0 (length encode_)))
            batches in
      let total_input := concat (map (map input_ids) batches) in
      let total_val := concat (map (map fst) outputs) in
      let total_ind := concat (map (map snd) outputs) in
      mapM (process_single_sentence word_pairs partition total_input
              total_val total_ind topk_ topk_per_position)
           (seq 0 (length partition)).

(** The selection that ends [replace_single_mask]; the perplexity of the
    candidates is computed with the default batch size of [get_perplexity]. *)
Definition best_edit (perplexity_filter : bool) (filling : list (list string))
  : Result (list string) :=
  if perplexity_filter then
    mapM (fun sent =>
            ppl <- get_perplexity sent 4 ;;
            pick_min_perplexity sent ppl)
         filling
  else mapM (fun x => py_nth x 0) filling.

Definition replace_single_mask (seed_sentences : list string)
    (word_pairs : list (list string)) (batch_size topk_ topk_per_position : Z)
    (perplexity_filter : bool) : Result (list string) :=
  filling <- greedy_filling seed_sentences word_pairs batch_size topk_
               topk_per_position ;;
  best_edit perplexity_filter filling.

(** The argument [word_pairs] of [replace_mask]: one pair, or a list of
    pairs. *)
Inductive WordPairs : Type :=
| OnePair (p : list string)
| ManyPairs (ps : list (list string)).

(** [if type(word_pairs[0]) is not list: word_pairs = [word_pairs]] *)
Definition as_pair_list (word_pairs : WordPairs) : Result (list (list string)) :=
  match word_pairs with
  | OnePair [] => Err IndexError
  | OnePair p => Ok [p]
  | ManyPairs [] => Err IndexError
  | ManyPairs ps => Ok ps
  end.

Definition mask_free (sentences : list string) : bool :=
  forallb (fun i => negb (contains (mask_token tk) i)) sentences.

(** The [while True] loop of [replace_mask].  [None]: the loop is still
    running when the fuel is spent. *)
Fixpoint fill_loop (fuel : nat) (step : list string -> Result (list string))
    (seed_sentences : list string) (edit : list (list string))
  : option (Result (list string * list (list string))) :=
  match fuel with
  | O => None
  | S fuel' =>
      match step seed_sentences with
      | Err e => Some (Err e)
      | Ok seed_sentences' =>
          if mask_free seed_sentences' then Some (Ok (seed_sentences', edit))
          else fill_loop fuel' step seed_sentences' (edit ++ [seed_sentences'])
      end
  end.

(** The [for i in range(n_revision)] loop of [replace_mask]. *)
Fixpoint revision_loop (n : nat) (step : list string -> Result (list string))
    (seed_sentences : list string) (edit : list (list string))
  : Result (list string * list (list string)) :=
  match n with
  | O => Ok (seed_sentences, edit)
  | S n' =>
      seed_sentences' <- step seed_sentences ;;
      revision_loop n' step seed_sentences' (edit ++ [seed_sentences'])
  end.

Definition replace_mask (fuel : nat) (word_pairs : WordPairs)
    (n_blank n_revision topk_ topk_per_position : Z) (seed_type : string)
    (batch_size : Z) (perplexity_filter : bool) (n_blank_prefix n_blank_suffix : Z)
  : option (Result (list string * list (list string))) :=
  match as_pair_list word_pairs with
  | Err e => Some (Err e)
  | Ok word_pairs_ =>
      match mapM (fun x => pair_to_seed x n_blank n_blank_prefix n_blank_suffix
                             batch_size seed_type) word_pairs_ with
      | Err e => Some (Err e)
      | Ok seed_sentences =>
          let step := fun s => replace_single_mask s word_pairs_ batch_size topk_
                                 topk_per_position perplexity_filter in
          match fill_loop fuel step seed_sentences [seed_sentences] with
          | None => None
          | Some (Err e) => Some (Err e)
          | Some (Ok filled) =>
              Some (out <- revision_loop (Z.to_nat n_revision) step
                             (fst filled) (snd filled) ;;
                    Ok (fst out, zip_star (snd out)))
          end
      end
  end.

End Methods.

Arguments input_ids_to_labels self input_ids_ label_position label_id : clear implicits.
Arguments cleanup_decode self sentence : clear implicits.
Arguments encode_plus self sentence token_wise_mask : clear implicits.
Arguments best_candidates self h t : clear implicits.
Arguments mask_free self sentences : clear implicits.
Arguments decode_topk {N} self head tail inp k replace_pos ind_ likelihood.
Arguments row_candidates {N} self head tail topk_per_position inp val ind.
Arguments process_single_sentence {N} self word_pairs partition total_input
  total_val total_ind topk_ topk_per_position partition_n.
Arguments pick_min_perplexity {N} candidates ppl.
Arguments perplexity_of_slice {N} nll x.
Arguments py_sum {N} l.

(** [if self.model is None: self.load_model()], with which
    [get_perplexity] and [replace_single_mask] start, followed by the body
    of the method.  [model] is [self.model] ([None] before the first use),
    [hub_lm] the model [from_pretrained] gives for [model_name], and
    [n_gpu] is [torch.cuda.device_count()]. *)
Definition on_use {N : Numeric} {A : Type} (self : Prompter)
    (model : option (Model N)) (hub_lm : Model N) (n_gpu : nat)
    (body : Model N -> Result A) : Result A :=
  match model with
  | Some lm => body lm
  | None => _ <- snd (load_model self n_gpu) ;; body hub_lm
  end.

(* ------------------------------------------------------------------ *)
(** ** Perplexity, sentence by sentence

    [get_perplexity] scores a whole list at once; the definitions below say
    what it computes for one sentence, first as the code does it and then in
    the words of the documentation. *)
Section PerSentence.

Variable N : Numeric.
Variable lm : Model N.
Variable self : Prompter.

Local Abbreviation tk := (tokenizer self).

(** The share of one masked variant in [nll]: the model sees the variant
    alone. *)
Definition nll_of_item (e : BatchEncoding) : Result (num N) :=
  lab <- pop_labels e ;;
  match count_labels lab with
  | O => Err ZeroDivisionError
  | n => Ok (num_div N (row_loss lm (forward lm [with_labels e None] 0) lab)
                     (num_of_Z N (Z.of_nat n)))
  end.

(** The perplexity of one sentence, from its own variants only. *)
Definition sentence_perplexity (sentence : string) : Result (num N) :=
  vs <- encode_plus self sentence true ;;
  ns <- mapM nll_of_item vs ;;
  perplexity_of_slice ns (0, length ns).

Definition perplexity_value (sentence : string) : num N :=
  match sentence_perplexity sentence with
  | Ok x => x
  | Err _ => num_of_Z N 0
  end.

(** In the words of the documentation: the positions of the sentence's
    tokens that are not the mask token, ... *)
Definition spec_positions (token_list : list string) : list nat :=
  filter (fun p => negb (convert_tokens_to_ids tk (nth p token_list EmptyString)
                         =? mask_token_id tk)%Z)
         (seq 0 (length token_list)).

(** ... the variant of the sentence with the token at one position masked,
    as the model sees it, ... *)
Definition spec_variant (token_list : list string) (p : nat) : BatchEncoding :=
  with_labels
    (tk_encode_plus tk (max_length self)
       (convert_tokens_to_string tk (list_update token_list p (mask_token tk))))
    None.

(** ... the masked position of the variant: where its encoding holds the
    mask token that replaced token [p], that is occurrence number [k] of the
    mask token id when [k] tokens before [p] are mask tokens already, ... *)
Fixpoint nth_occurrence (v : Z) (k : nat) (l : list Z) : option nat :=
  match l with
  | [] => None
  | x :: l' =>
      if (x =? v)%Z then
        match k with
        | O => Some 0
        | S k' => option_map S (nth_occurrence v k' l')
        end
      else option_map S (nth_occurrence v k l')
  end.

Definition masks_before (token_list : list string) (p : nat) : nat :=
  length (filter (fun t => (convert_tokens_to_ids tk t =? mask_token_id tk)%Z)
                 (firstn p token_list)).

Definition spec_masked_position (token_list : list string) (p : nat)
  : option nat :=
  nth_occurrence (mask_token_id tk) (masks_before token_list p)
                 (input_ids (spec_variant token_list p)).

(** ... the cross-entropy loss of the prediction at the masked position
    against the true token, ... *)
Definition spec_loss (token_list : list string) (p : nat) : num N :=
  token_loss lm (forward lm [spec_variant token_list p] 0)
             (match spec_masked_position token_list p with
              | Some q => q
              | None => 0
              end)
             (convert_tokens_to_ids tk (nth p token_list EmptyString)).

(** ... and the exponential ([math.exp]) of the sum of the losses divided
    by the number of variants. *)
Definition spec_perplexity (sentence : string) : Result (num N) :=
  let token_list := tokenize tk sentence in
  let positions := spec_positions token_list in
  match num_exp N
          (num_div N (py_sum (map (spec_loss token_list) positions))
                     (num_of_Z N (Z.of_nat (length positions)))) with
  | Some y => Ok y
  | None => Err OverflowError
  end.

(** A sentence [get_perplexity] can score: every token position is within
    reach, at least one token is not the mask token, no token id is the
    ignore index, every variant is shorter than [max_length], and its
    encoding holds the mask that replaced token [p] at index
    [p + len(sp_token_prefix)] (one id per token after the special-token
    prefix). *)
Definition scorable (sentence : string) : bool :=
  let token_list := tokenize tk sentence in
  let positions := spec_positions token_list in
  (Z.of_nat (length token_list)
   <=? max_length self - Z.of_nat (length (sp_token_prefix self)))%Z
  && negb (is_nil positions)
  && forallb
       (fun p =>
          negb (convert_tokens_to_ids tk (nth p token_list EmptyString)
                =? PAD_TOKEN_LABEL_ID)%Z
          && (Z.of_nat (length (input_ids (spec_variant token_list p)))
              <? max_length self)%Z
          && match spec_masked_position token_list p with
             | Some q => (q =? p + length (sp_token_prefix self))%nat
             | None => false
             end)
       positions.

(** Two rows can be stacked: as many ids, as many attention-mask entries. *)
Definition same_shape (e1 e2 : BatchEncoding) : Prop :=
  length (input_ids e1) = length (input_ids e2)
  /\ length (attention_mask e1) = length (attention_mask e2).

(** The single-position-masked variants of all sentences of a list. *)
Definition all_variants (sentences : list string) : list BatchEncoding :=
  flat_map (fun s => map (spec_variant (tokenize tk s))
                         (spec_positions (tokenize tk s)))
           sentences.

(** No batch mixes rows of different lengths: the batch size is 1, or all
    variants have the same shape (as padding to [max_length] makes them). *)
Definition stackable (batch_size : Z) (rows : list BatchEncoding) : Prop :=
  batch_size = 1%Z
  \/ forall e1 e2, In e1 rows -> In e2 rows -> same_shape e1 e2.

(** The encoding [encode_plus] builds for the variant masked at [p]. *)
Definition code_variant (token_list : list string) (p : nat) : BatchEncoding :=
  let enc := tk_encode_plus tk (max_length self)
               (convert_tokens_to_string tk
                  (list_update token_list p (mask_token tk))) in
  with_labels enc
    (Some (list_update (repeat PAD_TOKEN_LABEL_ID (length (input_ids enc)))
                       (p + length (sp_token_prefix self))
                       (convert_tokens_to_ids tk (nth p token_list EmptyString)))).

End PerSentence.

Arguments code_variant self token_list p : clear implicits.

(** Inference is row-wise: the logits of a row depend on that row only, not
    on the rest of its batch (deterministic inference without cross-row
    effects). *)
Definition rowwise {N : Numeric} (lm : Model N) : Prop :=
  forall (batch : list BatchEncoding) (i : nat) (e : BatchEncoding),
    nth_error batch i = Some e -> forward lm batch i = forward lm [e] 0.

(** A row of token-wise masking: it carries labels, one per id. *)
Definition labelled (e : BatchEncoding) : Prop :=
  exists lab, labels e = Some lab /\ length lab = length (input_ids e).

(** The rows [get_perplexity] builds for a sentence (none where
    [encode_plus] raises). *)
Definition variants_of (self : Prompter) (sentence : string)
  : list BatchEncoding :=
  match encode_plus self sentence true with
  | Ok vs => vs
  | Err _ => []
  end.

(** The logits do not depend on the [labels] entry the rows may carry. *)
Definition labels_blind {N : Numeric} (lm : Model N) : Prop :=
  forall (batch : list BatchEncoding) (i : nat),
    forward lm (map (fun e => with_labels e None) batch) i = forward lm batch i.

(* ------------------------------------------------------------------ *)
(** ** The course of the fill loop

    [step] is one call of [replace_single_mask] on the working list. *)
Section FillLoopCourse.

Variable step : list string -> Result (list string).
Variable mask : string.

(** The working list after [k] calls of [step]. *)
Fixpoint iterate_step (k : nat) (seeds : list string) : Result (list string) :=
  match k with
  | O => Ok seeds
  | S k' => s <- iterate_step k' seeds ;; step s
  end.

Definition trace_at (seeds : list string) (k : nat) : list string :=
  match iterate_step k seeds with
  | Ok s => s
  | Err _ => []
  end.

(** [after] has, sentence by sentence, one mask token fewer than [before]
    (and none where [before] had none). *)
Definition fills_one_mask (before after : list string) : bool :=
  (length before =? length after)%nat
  && forallb (fun p => (occurrences mask (snd p)
                        =? pred (occurrences mask (fst p)))%nat)
             (combine before after).

(** Call number [k + 1] returns, and fills one mask token per sentence. *)
Definition progress_at (seeds : list string) (k : nat) : bool :=
  match iterate_step k seeds with
  | Ok s =>
      match step s with
      | Ok s' => fills_one_mask s s'
      | Err _ => false
      end
  | Err _ => false
  end.

End FillLoopCourse.

(** The largest number of mask tokens in a sentence of the list. *)
Definition max_masks (mask : string) (sentences : list string) : nat :=
  list_max (map (occurrences mask) sentences).

(** Every sentence of the list holds the head and the tail of the word pair
    at its position. *)
Definition keeps_pairs (pairs : list (list string)) (sentences : list string)
  : Prop :=
  forall i s,
    nth_error sentences i = Some s ->
    exists h t,
      nth_error pairs i = Some [h; t]
      /\ contains h s = true /\ contains t s = true.

(** The exceptions [encode_plus] raises on its own account. *)
Definition encode_error (e : PyError) : bool :=
  match e with
  | NotImplementedError => true
  | AssertionError A_exceed_max_length => true
  | IndexError => true
  | _ => false
  end.

(** The number of positions of a row that hold the mask token id. *)
Definition mask_positions (self : Prompter) (inp : list Z) : nat :=
  length (filter (fun v => (v =? mask_token_id (tokenizer self))%Z) inp).

(** The tokenizer honours [padding='max_length'] and [truncation=True]:
    every encoding has exactly [max_length] ids. *)
Definition pads_to_max_length (self : Prompter) : Prop :=
  forall sentence,
    Z.of_nat (length (input_ids
      (tk_encode_plus (tokenizer self) (max_length self) sentence)))
    = max_length self.

(** The offsets [get_partition] computes, by recursion on the lengths. *)
Fixpoint offsets (off : nat) (lens : list nat) : list (nat * nat) :=
  match lens with
  | [] => []
  | n :: lens' => (off, off + n) :: offsets (off + n) lens'
  end.

(* ------------------------------------------------------------------ *)
(** ** A small concrete tokenizer and model

    A word-level tokenizer with the special tokens of RoBERTa, over a
    vocabulary of a few words, and a model that predicts a fixed ranking of
    tokens at every position.  They are used to run the methods on concrete
    inputs. *)
Module Toy.

Definition vocab : list (string * Z) :=
  [("<s>", 0); ("<pad>", 1); ("</s>", 2); ("<unk>", 3); ("<mask>", 4);
   ("a", 5); ("b", 6); ("x", 7); ("y", 8);
   ("get", 9); ("tokenizer", 10); ("specific", 11); ("prefix", 12)]%Z.

Definition id_of (t : string) : Z :=
  match find (fun p => String.eqb (fst p) t) vocab with
  | Some p => snd p
  | None => 3%Z
  end.

Definition token_of (i : Z) : string :=
  match find (fun p => (snd p =? i)%Z) vocab with
  | Some p => fst p
  | None => "<unk>"
  end.

Definition known (w : string) : string :=
  if existsb (fun p => String.eqb (fst p) w) vocab then w else "<unk>".

(** The words of a sentence: maximal runs of non-space characters. *)
Fixpoint words (acc : string) (s : string) : list string :=
  match s with
  | EmptyString => if String.eqb acc EmptyString then [] else [acc]
  | String c s' =>
      if is_space c then
        if String.eqb acc EmptyString then words EmptyString s'
        else acc :: words EmptyString s'
      else words (String.append acc (String c EmptyString)) s'
  end.

Definition with_special (s : string) : list Z :=
  [0%Z] ++ map id_of (words EmptyString s) ++ [2%Z].

(** [encode_plus]: truncated to [max_length]; padded with [<pad>] up to
    [max_length] when [pad] is set. *)
Definition toy_encode_plus (pad : bool) (max_length_ : Z) (s : string) : BatchEncoding :=
  let ids := firstn (Z.to_nat max_length_) (with_special s) in
  let fill := if pad then Z.to_nat max_length_ - length ids else 0 in
  {| input_ids := ids ++ repeat 1%Z fill;
     attention_mask := repeat 1%Z (length ids) ++ repeat 0%Z fill;
     labels := None |}.

Definition toy_tokenizer (pad : bool) : Tokenizer :=
  {| mask_token := "<mask>";
     mask_token_id := 4;
     pad_token_id := 1;
     all_special_tokens := ["<s>"; "</s>"; "<unk>"; "<pad>"; "<mask>"];
     model_max_length := 512;
     tokenize := fun s => map known (words EmptyString s);
     convert_tokens_to_ids := id_of;
     convert_ids_to_tokens := map token_of;
     convert_tokens_to_string := join " ";
     encode := with_special;
     tk_encode_plus := toy_encode_plus pad;
     decode := fun ids => join " " (map token_of ids) |}.

(** Integers standing for floats; [exp] overflows above 709, as
    [math.exp] does. *)
Definition numeric : Numeric :=
  {| num := Z;
     num_of_Z := fun z => z;
     num_add := Z.add;
     num_div := Z.div;
     num_exp := fun z => if (z <=? 709)%Z then Some z else None;
     num_ltb := Z.ltb;
     num_eqb := Z.eqb |}.

(** A model whose top predictions at every position are the token ids of
    [ranking], best first, with scores [100, 99, ...] ([topk k] is meant
    for [k] up to the length of [ranking]); the loss of a class is its token
    id. *)
Definition toy_topk (ranking : list Z) (k : Z) (row : list Z)
  : list (list (num numeric)) * list (list Z) :=
  (map (fun _ => firstn (Z.to_nat k)
                   (map (fun j => (100 - Z.of_nat j)%Z) (seq 0 (length ranking))))
       row,
   map (fun _ => firstn (Z.to_nat k) ranking) row).

Definition toy_loss (row : list Z) (p : nat) (c : Z) : num numeric := c.

Definition toy_model (ranking : list Z) : Model numeric :=
  {| logits := list Z;
     forward := fun batch i => nth i (map input_ids batch) [];
     topk := toy_topk ranking;
     token_loss := toy_loss |}.

Definition hub (pad : bool) : Hub :=
  fun name => if String.eqb name "toy-base" then Some (toy_tokenizer pad) else None.

(** [Prompter('toy-base', max_length=m)] *)
Definition prompter (pad : bool) (m : Z) : Prompter :=
  {| num_worker := 0; model_name := "toy-base"; cache_dir := "./cache";
     is_causal := false; tokenizer := toy_tokenizer pad; max_length := m;
     sp_token_prefix := ["<s>"]; sp_token_suffix := ["</s>"] |}.

End Toy.

(* ------------------------------------------------------------------ *)
(** ** The error monad and the list primitives *)

Lemma bind_ok {A B : Type} (c : Result A) (k : A -> Result B) (b : B) :
  bind c k = Ok b -> exists a, c = Ok a /\ k a = Ok b.
Proof.
  destruct c as [a|e]; simpl; intros H; [exists a; auto | discriminate].
Qed.

(** Splits a hypothesis [x <- c ;; k = Ok b] into its two steps. *)
Ltac inv_bind H :=
  let a := fresh "a" in
  let H1 := fresh "E" in
  apply bind_ok in H; destruct H as (a & H1 & H).

Lemma Ok_inj {A : Type} (a b : A) : Ok a = Ok b -> a = b.
Proof. intros H. injection H as ->. reflexivity. Qed.

Lemma mapM_ok_Forall2 {A B : Type} (f : A -> Result B) (xs : list A) (ys : list B) :
  mapM f xs = Ok ys <-> Forall2 (fun x y => f x = Ok y) xs ys.
Proof.
  revert ys; induction xs as [|x xs IH]; intros ys; simpl.
  - split; intros H.
    + injection H as <-. constructor.
    + inversion H; reflexivity.
  - split; intros H.
    + inv_bind H. inv_bind H. injection H as <-.
      constructor; [assumption | apply IH; assumption].
    + inversion H as [|? y ? ys' Hy Hys]; subst.
      rewrite Hy; simpl. apply IH in Hys. rewrite Hys. reflexivity.
Qed.

Lemma mapM_ok_length {A B : Type} (f : A -> Result B) xs ys :
  mapM f xs = Ok ys -> length ys = length xs.
Proof.
  intros H. apply mapM_ok_Forall2 in H. symmetry. eapply Forall2_length; eauto.
Qed.

Lemma mapM_ok_In {A B : Type} (f : A -> Result B) xs ys y :
  mapM f xs = Ok ys -> In y ys -> exists x, In x xs /\ f x = Ok y.
Proof.
  intros H. apply mapM_ok_Forall2 in H.
  induction H as [|x y' xs ys Hxy _ IH]; simpl; intros Hin; [contradiction|].
  destruct Hin as [<-|Hin].
  - exists x; auto.
  - destruct (IH Hin) as (x' & Hx' & Hf). exists x'; auto.
Qed.

Lemma mapM_ok_nth {A B : Type} (f : A -> Result B) xs ys i y :
  mapM f xs = Ok ys -> nth_error ys i = Some y ->
  exists x, nth_error xs i = Some x /\ f x = Ok y.
Proof.
  intros H. apply mapM_ok_Forall2 in H. revert i.
  induction H as [|x y' xs ys Hxy _ IH]; intros [|i]; simpl; intros Hn;
    try discriminate.
  - injection Hn as <-. exists x; auto.
  - apply IH; assumption.
Qed.

Lemma mapM_app {A B : Type} (f : A -> Result B) xs1 xs2 :
  mapM f (xs1 ++ xs2) =
  (ys1 <- mapM f xs1 ;; ys2 <- mapM f xs2 ;; Ok (ys1 ++ ys2)).
Proof.
  induction xs1 as [|x xs1 IH]; simpl.
  - destruct (mapM f xs2); reflexivity.
  - destruct (f x); simpl; [|reflexivity].
    rewrite IH. destruct (mapM f xs1); simpl; [|reflexivity].
    destruct (mapM f xs2); reflexivity.
Qed.

Lemma mapM_ext_in {A B : Type} (f g : A -> Result B) xs :
  (forall x, In x xs -> f x = g x) -> mapM f xs = mapM g xs.
Proof.
  induction xs as [|x xs IH]; simpl; intros H; [reflexivity|].
  rewrite (H x (or_introl eq_refl)), IH; auto.
Qed.

Lemma mapM_total {A B : Type} (f : A -> B) xs :
  mapM (fun x => Ok (f x)) xs = Ok (map f xs).
Proof.
  induction xs as [|x xs IH]; simpl; [reflexivity|]. rewrite IH. reflexivity.
Qed.

Lemma filter_None_In {A : Type} (xs : list (option A)) (x : A) :
  In x (filter_None xs) <-> In (Some x) xs.
Proof.
  induction xs as [|[y|] xs IH]; simpl.
  - tauto.
  - rewrite IH. split; intros [H|H]; auto; left; congruence.
  - rewrite IH. split; [auto | intros [H|H]; [discriminate | auto]].
Qed.

Lemma py_nth_ok_In {A : Type} (l : list A) i x : py_nth l i = Ok x -> In x l.
Proof.
  unfold py_nth. destruct (nth_error l i) eqn:E; intros H; [|discriminate].
  injection H as <-. eapply nth_error_In; eauto.
Qed.

Lemma firstn_In {A : Type} (n : nat) (l : list A) x : In x (firstn n l) -> In x l.
Proof.
  revert l; induction n as [|n IH]; intros [|y l]; simpl; try tauto.
  intros [H|H]; auto.
Qed.

Lemma py_take_In {A : Type} (l : list A) n x : In x (py_take l n) -> In x l.
Proof.
  unfold py_take. destruct (n <? 0)%Z; apply firstn_In.
Qed.

Lemma insert_desc_In {A K : Type} (ltb : K -> K -> bool) (key : A -> K) x l y :
  In y (insert_desc ltb key x l) <-> y = x \/ In y l.
Proof.
  induction l as [|z l IH]; simpl.
  - split; intros [H|H]; auto.
  - destruct (ltb (key x) (key z)); simpl.
    + rewrite IH. split; intros H; intuition auto.
    + split; intros H; intuition auto.
Qed.

Lemma sorted_desc_In {A K : Type} (ltb : K -> K -> bool) (key : A -> K) l y :
  In y (sorted_desc ltb key l) <-> In y l.
Proof.
  induction l as [|x l IH]; simpl; [tauto|].
  rewrite insert_desc_In, IH. split; intros [H|H]; auto.
Qed.

(** [contains] and [occurrences] agree on the presence of a pattern. *)
Lemma contains_occurrences (pat s : string) :
  contains pat s = true <-> 0 < occurrences pat s.
Proof.
  induction s as [|c s IH]; cbn [contains occurrences].
  - destruct (String.prefix pat EmptyString); simpl; split; intros H.
    + lia.
    + reflexivity.
    + discriminate.
    + inversion H.
  - destruct (String.prefix pat (String c s)); simpl.
    + split; intros _; [lia | reflexivity].
    + exact IH.
Qed.

Lemma contains_false_occurrences (pat s : string) :
  contains pat s = false <-> occurrences pat s = 0.
Proof.
  destruct (contains pat s) eqn:E.
  - apply contains_occurrences in E. split; [discriminate | lia].
  - split; [intros _ | reflexivity].
    destruct (occurrences pat s) eqn:E'; [reflexivity|].
    assert (H : contains pat s = true) by (apply contains_occurrences; lia).
    congruence.
Qed.

(* ------------------------------------------------------------------ *)
(** ** Seed construction: [pair_to_seed] *)

Section SeedTheorems.

Variable N : Numeric.
Variable lm : Model N.
Variable self : Prompter.

Local Abbreviation mask := (mask_token (tokenizer self)).

(** C7. With [seed_type='middle'], [pair_to_seed] returns the head, then
    [n_blank] mask tokens, then the tail, joined by single spaces; for the
    pair ['a', 'b'] and [n_blank=3] this is "a M M M b", [M] being the mask
    token of the tokenizer. *)
Theorem pair_to_seed_middle :
  forall (h t : string) (n_blank n_blank_prefix n_blank_suffix batch_size : Z),
    pair_to_seed lm self [h; t] n_blank n_blank_prefix n_blank_suffix batch_size
                 "middle"
    = Ok (join " " ([h] ++ repeat mask (Z.to_nat n_blank) ++ [t]))
    /\
    pair_to_seed lm self ["a"; "b"] 3 n_blank_prefix n_blank_suffix batch_size
                 "middle"
    = Ok (String.append "a "
            (String.append mask
               (String.append " "
                  (String.append mask
                     (String.append " " (String.append mask " b")))))).
Proof.
  intros h t n_blank n_blank_prefix n_blank_suffix batch_size. split.
  - reflexivity.
  - reflexivity.
Qed.

(** C8 (as amended). A seed type other than 'middle', 'whole' and 'best' makes
    [pair_to_seed] raise [ValueError]; 'middle' and 'whole' return a string
    without error. *)
Theorem pair_to_seed_seed_type :
  forall (h t : string) (n_blank n_blank_prefix n_blank_suffix batch_size : Z)
         (seed_type : string),
    (seed_type <> "middle" -> seed_type <> "whole" -> seed_type <> "best" ->
     pair_to_seed lm self [h; t] n_blank n_blank_prefix n_blank_suffix batch_size
                  seed_type
     = Err (ValueError (String.append "unknown seed type: " seed_type)))
    /\
    (seed_type = "middle" \/ seed_type = "whole" ->
     exists s,
       pair_to_seed lm self [h; t] n_blank n_blank_prefix n_blank_suffix
                    batch_size seed_type = Ok s).
Proof.
  intros h t n_blank n_blank_prefix n_blank_suffix batch_size seed_type. split.
  - intros Hm Hw Hb. unfold pair_to_seed.
    apply String.eqb_neq in Hm, Hw, Hb. rewrite Hm, Hw, Hb. reflexivity.
  - intros [-> | ->]; unfold pair_to_seed; simpl; eexists; reflexivity.
Qed.

(** With a maximum length of at most two there is no candidate template and
    'best' raises the [ValueError] of [min] on an empty list. *)
Lemma pair_to_seed_best_no_candidate :
  forall (h t : string) (n_blank n_blank_prefix n_blank_suffix batch_size : Z),
    (max_length self <= 2)%Z -> (0 < batch_size)%Z ->
    pair_to_seed lm self [h; t] n_blank n_blank_prefix n_blank_suffix batch_size
                 "best"
    = Err (ValueError "min() arg is an empty sequence").
Proof.
  intros h t nb np ns bs Hm Hbs. unfold pair_to_seed; simpl.
  assert (Hc : best_candidates self h t = []).
  { unfold best_candidates, py_range.
    replace (Z.to_nat (max_length self - 2 - 0)) with 0%nat by lia. reflexivity. }
  rewrite Hc. unfold get_perplexity; simpl.
  unfold data_loader_Z. destruct (bs <=? 0)%Z eqn:E; [lia|].
  unfold data_loader. destruct (Z.to_nat bs) eqn:E'; [lia|]. reflexivity.
Qed.

End SeedTheorems.

(* ------------------------------------------------------------------ *)
(** ** Construction *)

(** C10. For a model name that contains 'gpt' the constructor fails on its
    assertion, before the tokenizer or the configuration is loaded: the trace
    holds no load event and no [Prompter] is returned. *)
Theorem causal_model_name_rejected :
  forall (hub : Hub) (model : string) (max_length_ : option Z)
         (cache_dir_ : string) (num_worker_ : Z),
    contains "gpt" model = true ->
    snd (Prompter_init hub model max_length_ cache_dir_ num_worker_)
    = Err (AssertionError A_not_causal)
    /\ existsb is_load
         (fst (Prompter_init hub model max_length_ cache_dir_ num_worker_))
       = false.
Proof.
  intros hub model ml cd nw Hgpt. unfold Prompter_init. rewrite Hgpt. simpl.
  split; [reflexivity|]. destruct (nw =? 1)%Z; reflexivity.
Qed.

(** Every constructed [Prompter] is a masked language model: [is_causal] is
    false, [load_model] loads the masked model class, [encode_plus] does not
    raise [NotImplementedError] and the labels are not shifted. *)
Lemma constructed_prompter_is_masked :
  forall (hub : Hub) (model : string) (max_length_ : option Z)
         (cache_dir_ : string) (num_worker_ : Z) (tr : list Event) (p : Prompter),
    Prompter_init hub model max_length_ cache_dir_ num_worker_ = (tr, Ok p) ->
    is_causal p = false
    /\ contains "gpt" (model_name p) = false
    /\ (forall n_gpu,
           fst (load_model p n_gpu) = [LoadMaskedLM (model_name p) (cache_dir p)])
    /\ (forall n_gpu ty dev,
           snd (load_model p n_gpu) = Ok (ty, dev) -> ty = masked_lm)
    /\ (forall ids pos id,
           input_ids_to_labels p ids (Some [pos]) (Some [id])
           = py_setitem (repeat PAD_TOKEN_LABEL_ID (length ids)) pos id).
Proof.
  intros hub model ml cd nw tr p. unfold Prompter_init.
  destruct (contains "gpt" model) eqn:Hgpt; [intros H; inversion H|].
  destruct (hub model) as [tk|]; [|intros H; inversion H].
  intros H. injection H as _ H.
  inv_bind H. inv_bind H. injection H as <-. simpl.
  repeat split; auto.
  - intros n_gpu ty dev. unfold load_model; simpl.
    destruct (n_gpu <=? 1)%nat; intros H; inversion H; reflexivity.
  - intros ids pos id. unfold input_ids_to_labels; simpl.
    destruct (py_setitem (repeat PAD_TOKEN_LABEL_ID (length ids)) pos id);
      reflexivity.
Qed.

(* ------------------------------------------------------------------ *)
(** ** Encoding: [encode_plus] *)

(** On a sentence that holds a mask token, the length assertion of
    [encode_plus] fails exactly when the encoding has at least [max_length]
    ids. *)
Lemma encode_plus_length_assertion :
  forall (self : Prompter) (sentence : string),
    is_causal self = false ->
    contains (mask_token (tokenizer self)) sentence = true ->
    (encode_plus self sentence false = Err (AssertionError A_exceed_max_length)
     <-> (max_length self
          <= Z.of_nat (length (input_ids
               (tk_encode_plus (tokenizer self) (max_length self) sentence))))%Z)
    /\
    (encode_plus self sentence false
     = Ok [tk_encode_plus (tokenizer self) (max_length self) sentence]
     <-> (Z.of_nat (length (input_ids
               (tk_encode_plus (tokenizer self) (max_length self) sentence)))
          < max_length self)%Z).
Proof.
  intros self sentence Hc Hm. unfold encode_plus. rewrite Hc, Hm. simpl.
  destruct (Z.ltb_spec
              (Z.of_nat (length (input_ids
                 (tk_encode_plus (tokenizer self) (max_length self) sentence))))
              (max_length self)) as [Hlt|Hge]; simpl.
  - split; split; intros H; try reflexivity; try lia; discriminate.
  - split; split; intros H; try reflexivity; try lia; discriminate.
Qed.

(** C3. A sentence whose encoding has exactly [max_length] ids fits the
    maximum length, yet [encode_plus] fails on its 'exceed max_length'
    assertion. *)
Theorem encode_plus_rejects_exact_fit :
  forall (self : Prompter) (sentence : string),
    is_causal self = false ->
    contains (mask_token (tokenizer self)) sentence = true ->
    Z.of_nat (length (input_ids
      (tk_encode_plus (tokenizer self) (max_length self) sentence)))
    = max_length self ->
    encode_plus self sentence false = Err (AssertionError A_exceed_max_length).
Proof.
  intros self sentence Hc Hm Hlen.
  apply (proj1 (encode_plus_length_assertion self sentence Hc Hm)). lia.
Qed.

(* ------------------------------------------------------------------ *)
(** ** One replacement step: [replace_single_mask] *)

Lemma mapM_first_item_empty {A : Type} (filling : list (list A)) :
  In [] filling -> mapM (fun x => py_nth x 0) filling = Err IndexError.
Proof.
  induction filling as [|x filling IH]; simpl; [contradiction|].
  destruct x as [|a x]; [reflexivity|]. simpl.
  intros [H|H]; [discriminate|]. rewrite (IH H). reflexivity.
Qed.

Lemma mapM_fails {A B : Type} (f : A -> Result B) (xs : list A) (x : A) (e : PyError) :
  In x xs -> f x = Err e -> exists e', mapM f xs = Err e'.
Proof.
  induction xs as [|y xs IH]; simpl; [contradiction|].
  intros [->|Hin] Hf.
  - rewrite Hf. eexists; reflexivity.
  - destruct (f y); [|eexists; reflexivity]. simpl.
    destruct (IH Hin Hf) as (e' & ->). eexists; reflexivity.
Qed.

Section StepTheorems.

Variable N : Numeric.
Variable lm : Model N.
Variable self : Prompter.

Lemma get_perplexity_nil : get_perplexity lm self [] 4 = Ok [].
Proof. reflexivity. Qed.

Lemma pick_min_perplexity_nil :
  pick_min_perplexity (N:=N) [] [] = Err (ValueError "min() arg is an empty sequence").
Proof. reflexivity. Qed.

(** C9. When the substring filter leaves some sentence without a candidate,
    [replace_single_mask] raises: without the perplexity filter it is the
    [IndexError] of element 0 of an empty list; with it, [get_perplexity]
    returns the empty list for that sentence and [min] of it raises
    [ValueError].  No sentence is handed back unchanged. *)
Theorem empty_candidates_abort :
  forall (seed_sentences : list string) (word_pairs : list (list string))
         (batch_size topk_ topk_per_position : Z) (filling : list (list string)),
    greedy_filling lm self seed_sentences word_pairs batch_size topk_
                   topk_per_position = Ok filling ->
    In [] filling ->
    replace_single_mask lm self seed_sentences word_pairs batch_size topk_
                        topk_per_position false = Err IndexError
    /\ (exists e,
           replace_single_mask lm self seed_sentences word_pairs batch_size topk_
                               topk_per_position true = Err e)
    /\ (forall pre post done,
           filling = pre ++ [] :: post ->
           best_edit lm self true pre = Ok done ->
           replace_single_mask lm self seed_sentences word_pairs batch_size topk_
                               topk_per_position true
           = Err (ValueError "min() arg is an empty sequence"))
    /\ get_perplexity lm self [] 4 = Ok [].
Proof.
  intros seeds wps bs k kp filling Hfill Hin.
  unfold replace_single_mask. rewrite Hfill. simpl.
  split; [|split; [|split]].
  - apply mapM_first_item_empty; assumption.
  - eapply mapM_fails; [exact Hin|]. reflexivity.
  - intros pre post done -> Hpre. simpl in Hpre |- *.
    rewrite mapM_app, Hpre. reflexivity.
  - reflexivity.
Qed.

(** The filter of [decode_topk] admits a decoded sentence only if the head
    and the tail both occur in it. *)
Lemma decode_topk_filter :
  forall head tail inp k replace_pos ind_ likelihood decoded score,
    decode_topk (N:=N) self head tail inp k replace_pos ind_ likelihood
    = Ok (Some (decoded, score)) ->
    contains head decoded = true /\ contains tail decoded = true.
Proof.
  intros head tail inp k pos ind lik decoded score H. unfold decode_topk in H.
  inv_bind H. inv_bind H.
  destruct (contains head _ && contains tail _) eqn:Ef; [|discriminate].
  inv_bind H. injection H as <- _.
  apply andb_true_iff in Ef. exact Ef.
Qed.

Lemma row_candidates_filter :
  forall head tail kp inp val ind cands decoded score,
    row_candidates (N:=N) self head tail kp inp val ind = Ok cands ->
    In (decoded, score) cands ->
    contains head decoded = true /\ contains tail decoded = true.
Proof.
  intros head tail kp inp val ind cands decoded score H Hin.
  unfold row_candidates in H. inv_bind H. inv_bind H. injection H as <-.
  apply in_concat in Hin. destruct Hin as (l & Hl & Hin).
  destruct (mapM_ok_In _ _ _ E0 Hl) as (x & _ & Hx).
  inv_bind Hx. injection Hx as <-.
  apply filter_None_In in Hin.
  destruct (mapM_ok_In _ _ _ E1 Hin) as (k & _ & Hk).
  eapply decode_topk_filter; eauto.
Qed.

Lemma process_single_sentence_filter :
  forall word_pairs partition total_input total_val total_ind k kp n cands,
    process_single_sentence (N:=N) self word_pairs partition total_input total_val
                            total_ind k kp n = Ok cands ->
    exists h t,
      nth_error word_pairs n = Some [h; t]
      /\ forall s, In s cands -> contains h s = true /\ contains t s = true.
Proof.
  intros wps part ti tv tind k kp n cands H. unfold process_single_sentence in H.
  inv_bind H. inv_bind H. inv_bind H. inv_bind H. injection H as <-.
  unfold py_nth in E. destruct (nth_error wps n) as [wp|] eqn:Ewp; [|discriminate].
  injection E as ->.
  destruct a as [|h [|t [|? ?]]]; try discriminate. injection E0 as <-.
  exists h, t. split; [reflexivity|].
  intros s Hs. apply py_take_In in Hs. apply in_map_iff in Hs.
  destruct Hs as ((d & score) & <- & Hs). simpl.
  apply sorted_desc_In in Hs. apply in_concat in Hs.
  destruct Hs as (l & Hl & Hs).
  destruct (mapM_ok_In _ _ _ E2 Hl) as (i & _ & Hi).
  inv_bind Hi. inv_bind Hi. inv_bind Hi.
  eapply row_candidates_filter; eauto.
Qed.

Lemma greedy_filling_filter :
  forall seed_sentences word_pairs batch_size k kp filling,
    greedy_filling lm self seed_sentences word_pairs batch_size k kp = Ok filling ->
    length filling = length word_pairs
    /\ length seed_sentences = length word_pairs
    /\ forall i cands,
         nth_error filling i = Some cands ->
         exists h t,
           nth_error word_pairs i = Some [h; t]
           /\ forall s, In s cands -> contains h s = true /\ contains t s = true.
Proof.
  intros seeds wps bs k kp filling H. unfold greedy_filling in H.
  destruct (length seeds =? length wps)%nat eqn:El; [|discriminate]. simpl in H.
  apply Nat.eqb_eq in El.
  inv_bind H. inv_bind H.
  destruct (length wps =? length (get_partition a))%nat eqn:Ep; [|discriminate].
  simpl in H. apply Nat.eqb_eq in Ep.
  apply bind_ok in H. destruct H as (batches & Hcol & H).
  split; [|split; [assumption|]].
  - apply mapM_ok_length in H. rewrite H, length_seq. symmetry; assumption.
  - intros i cands Hi.
    destruct (mapM_ok_nth _ _ _ H Hi) as (n & Hn & Hproc).
    assert (n = i).
    { pose proof (nth_error_Some (seq 0 (length (get_partition a))) i) as Hs.
      assert (Hlt : i < length (seq 0 (length (get_partition a))))
        by (apply Hs; congruence).
      rewrite length_seq in Hlt. rewrite nth_error_nth' with (d := 0) in Hn
        by (rewrite length_seq; assumption).
      rewrite seq_nth in Hn by assumption. simpl in Hn. congruence. }
    subst n. eapply process_single_sentence_filter; eauto.
Qed.

Lemma best_edit_picks :
  forall pf filling out,
    best_edit lm self pf filling = Ok out ->
    length out = length filling
    /\ forall i s, nth_error out i = Some s ->
                   exists cands, nth_error filling i = Some cands /\ In s cands.
Proof.
  intros pf filling out H. unfold best_edit in H. destruct pf.
  - split; [eapply mapM_ok_length; eauto|].
    intros i s Hi. destruct (mapM_ok_nth _ _ _ H Hi) as (cands & Hc & Hs).
    exists cands. split; [assumption|].
    inv_bind Hs. unfold pick_min_perplexity in Hs.
    inv_bind Hs. inv_bind Hs. eapply py_nth_ok_In; eauto.
  - split; [eapply mapM_ok_length; eauto|].
    intros i s Hi. destruct (mapM_ok_nth _ _ _ H Hi) as (cands & Hc & Hs).
    exists cands. split; [assumption|]. eapply py_nth_ok_In; eauto.
Qed.

(** C2. Every sentence [replace_single_mask] returns holds the head and the
    tail of its word pair as substrings (a returned list means every
    sentence kept a candidate), and the filter of [decode_topk] admits a
    decoded candidate only if both occur in it. *)
Theorem replace_single_mask_keeps_pair :
  forall (seed_sentences : list string) (word_pairs : list (list string))
         (batch_size topk_ topk_per_position : Z) (perplexity_filter : bool)
         (out : list string),
    replace_single_mask lm self seed_sentences word_pairs batch_size topk_
                        topk_per_position perplexity_filter = Ok out ->
    length out = length word_pairs
    /\ (forall i s,
           nth_error out i = Some s ->
           exists h t,
             nth_error word_pairs i = Some [h; t]
             /\ contains h s = true /\ contains t s = true)
    /\ (forall head tail inp k replace_pos ind_ likelihood decoded score,
           decode_topk (N:=N) self head tail inp k replace_pos ind_ likelihood
           = Ok (Some (decoded, score)) ->
           contains head decoded = true /\ contains tail decoded = true).
Proof.
  intros seeds wps bs k kp pf out H. unfold replace_single_mask in H.
  inv_bind H. rename a into filling.
  destruct (greedy_filling_filter _ _ _ _ _ E) as (Hlen & _ & Hfill).
  destruct (best_edit_picks _ _ H) as (Hlen' & Hpick).
  split; [congruence|]. split.
  - intros i s Hi. destruct (Hpick i s Hi) as (cands & Hc & Hs).
    destruct (Hfill i cands Hc) as (h & t & Hwp & Hall).
    exists h, t. split; [assumption|]. apply Hall; assumption.
  - intros. eapply decode_topk_filter; eauto.
Qed.

End StepTheorems.

(* ------------------------------------------------------------------ *)
(** ** Perplexity: [get_perplexity] *)

Lemma mapM_concat {A B : Type} (f : A -> Result B) (d : list (list A)) :
  mapM f (concat d) = (parts <- mapM (mapM f) d ;; Ok (concat parts)).
Proof.
  induction d as [|a d IH]; simpl; [reflexivity|].
  rewrite mapM_app. destruct (mapM f a); simpl; [|reflexivity].
  rewrite IH. destruct (mapM (mapM f) d); reflexivity.
Qed.

(** Mapping twice and mapping the composition succeed together, with the
    same list. *)
Lemma mapM_fuse {A B C : Type} (f : A -> Result B) (g : B -> Result C)
    (l : list A) (r : list C) :
  (ys <- mapM f l ;; mapM g ys) = Ok r
  <-> mapM (fun x => y <- f x ;; g y) l = Ok r.
Proof.
  revert r; induction l as [|a l IH]; intros r; simpl; [tauto|].
  destruct (f a) as [y|e]; simpl; [|split; discriminate].
  destruct (g y) as [z|e] eqn:Eg; simpl.
  - destruct (mapM f l) as [ys|e'] eqn:Ef; simpl in *.
    + rewrite Eg; simpl.
      split; intros H; inv_bind H; injection H as <-;
        apply IH in E; rewrite E; reflexivity.
    + split; [discriminate|]. intros H. inv_bind H. apply IH in E. discriminate.
  - destruct (mapM f l) as [ys|e']; simpl; [rewrite Eg; simpl|]; split; discriminate.
Qed.

Lemma mapM_app_ok {A B : Type} (f : A -> Result B) xs1 xs2 ys :
  mapM f (xs1 ++ xs2) = Ok ys
  <-> exists ys1 ys2, mapM f xs1 = Ok ys1 /\ mapM f xs2 = Ok ys2 /\ ys = ys1 ++ ys2.
Proof.
  rewrite mapM_app. split.
  - intros H. inv_bind H. inv_bind H. injection H as <-. eauto.
  - intros (ys1 & ys2 & -> & -> & ->). reflexivity.
Qed.

Lemma get_partition_offsets {A : Type} (data : list (list A)) :
  get_partition data = offsets 0 (map (@length A) data).
Proof.
  unfold get_partition. generalize (map (@length A) data) as lens.
  assert (H : forall lens off,
             map (fun x => (off + list_sum (firstn x lens),
                            off + list_sum (firstn (x + 1) lens)))
                 (seq 0 (length lens))
             = offsets off lens).
  { induction lens as [|n lens IH]; intros off; [reflexivity|].
    cbn [length seq map offsets]. f_equal.
    - simpl. f_equal; lia.
    - rewrite <- seq_shift, map_map, <- IH.
      apply map_ext. intros x. simpl. f_equal; lia. }
  intros lens. rewrite <- H. apply map_ext. intros x. reflexivity.
Qed.

Lemma offsets_length (off : nat) (lens : list nat) :
  length (offsets off lens) = length lens.
Proof.
  revert off; induction lens as [|n lens IH]; intros off; simpl; auto.
Qed.

Lemma slice_middle {A : Type} (pre ns post : list A) :
  slice (pre ++ ns ++ post) (length pre) (length pre + length ns) = ns.
Proof.
  unfold slice. rewrite skipn_app, skipn_all, Nat.sub_diag. simpl.
  replace (length pre + length ns - length pre) with (length ns) by lia.
  rewrite firstn_app, firstn_all, Nat.sub_diag. simpl. apply app_nil_r.
Qed.

Lemma slice_all {A : Type} (ns : list A) : slice ns 0 (length ns) = ns.
Proof.
  unfold slice. rewrite Nat.sub_0_r. simpl. apply firstn_all.
Qed.

Section PerplexityTheorems.

Variable N : Numeric.
Variable lm : Model N.
Variable self : Prompter.

Lemma slices_of_concat (parts : list (list (num N))) (pre : list (num N)) :
  mapM (perplexity_of_slice (pre ++ concat parts))
       (offsets (length pre) (map (@length (num N)) parts))
  = mapM (fun ns => perplexity_of_slice ns (0, length ns)) parts.
Proof.
  revert pre; induction parts as [|ns parts IH]; intros pre; [reflexivity|].
  cbn [map offsets mapM concat].
  assert (Hhd : perplexity_of_slice (pre ++ ns ++ concat parts)
                  (length pre, length pre + length ns)
                = perplexity_of_slice ns (0, length ns)).
  { unfold perplexity_of_slice. cbn [fst snd].
    rewrite slice_middle, slice_all.
    replace (length pre + length ns - length pre) with (length ns) by lia.
    rewrite Nat.sub_0_r. reflexivity. }
  rewrite Hhd. destruct (perplexity_of_slice ns (0, length ns)); [|reflexivity].
  cbn [bind].
  specialize (IH (pre ++ ns)). rewrite length_app, <- app_assoc in IH.
  rewrite IH. reflexivity.
Qed.

Lemma nll_of_item_labels (b : list BatchEncoding) (r : list (num N)) :
  mapM (nll_of_item lm) b = Ok r -> exists labs, mapM pop_labels b = Ok labs.
Proof.
  revert r; induction b as [|e b IH]; intros r; simpl; [eauto|].
  intros H. inv_bind H. inv_bind H. unfold nll_of_item in E.
  apply bind_ok in E. destruct E as (lab & Hpop & _).
  rewrite Hpop. destruct (IH _ E0) as (labs & ->). simpl. eauto.
Qed.

Hypothesis Hrow : rowwise lm.

Lemma nll_rows_aux (inputs b : list BatchEncoding) :
  forall (o : nat) (labs : list (list Z)) (r : list (num N)),
    (forall i e, nth_error b i = Some e ->
                 forward lm inputs (o + i) = forward lm [with_labels e None] 0) ->
    mapM pop_labels b = Ok labs ->
    (mapM (fun x =>
             let loss := row_loss lm (forward lm inputs (fst x)) (snd x) in
             match count_labels (snd x) with
             | O => Err ZeroDivisionError
             | n => Ok (num_div N loss (num_of_Z N (Z.of_nat n)))
             end)
          (combine (seq o (length b)) labs) = Ok r
     <-> mapM (nll_of_item lm) b = Ok r).
Proof.
  induction b as [|e b IH]; intros o labs r Hf Hpop.
  - simpl in Hpop. injection Hpop as <-. simpl. tauto.
  - simpl in Hpop. inv_bind Hpop. inv_bind Hpop. injection Hpop as <-.
    rename a into lab, a0 into labs'.
    cbn [length seq combine mapM fst snd].
    assert (Hhd : forward lm inputs o = forward lm [with_labels e None] 0).
    { rewrite <- (Hf 0 e eq_refl). f_equal. lia. }
    unfold nll_of_item at 1. rewrite E. cbn [bind]. rewrite Hhd.
    assert (Htl : forall r',
               mapM (fun x =>
                       let loss := row_loss lm (forward lm inputs (fst x)) (snd x) in
                       match count_labels (snd x) with
                       | O => Err ZeroDivisionError
                       | n => Ok (num_div N loss (num_of_Z N (Z.of_nat n)))
                       end)
                    (combine (seq (S o) (length b)) labs') = Ok r'
               <-> mapM (nll_of_item lm) b = Ok r').
    { intros r'. apply IH; [|assumption].
      intros i e' Hi. rewrite <- (Hf (S i) e' Hi). f_equal. lia. }
    destruct (count_labels lab); [simpl; split; discriminate|].
    cbn [bind].
    split; intros H; inv_bind H; injection H as <-;
      apply Htl in E1; cbv zeta in E1; rewrite E1; reflexivity.
Qed.

Lemma nll_of_batch_items (b : list BatchEncoding) (r : list (num N)) :
  nll_of_batch lm b = Ok r <-> mapM (nll_of_item lm) b = Ok r.
Proof.
  assert (Hf : forall i e, nth_error b i = Some e ->
                 forward lm (map (fun e => with_labels e None) b) (0 + i)
                 = forward lm [with_labels e None] 0).
  { intros i e Hi. simpl. apply Hrow. rewrite nth_error_map, Hi. reflexivity. }
  unfold nll_of_batch. split; intros H.
  - inv_bind H. eapply nll_rows_aux; eauto.
  - destruct (nll_of_item_labels _ H) as (labs & Hl). rewrite Hl. cbn [bind].
    eapply nll_rows_aux; eauto.
Qed.

Lemma nll_of_batches (fuel bs : nat) :
  0 < bs ->
  forall (l : list BatchEncoding) (flat : list (num N)),
    length l <= fuel ->
    ((exists nlls, mapM (nll_of_batch lm) (batches_fuel fuel bs l) = Ok nlls
                   /\ concat nlls = flat)
     <-> mapM (nll_of_item lm) l = Ok flat).
Proof.
  intros Hbs. induction fuel as [|fuel IH]; intros l flat Hlen.
  - destruct l; [|simpl in Hlen; lia]. simpl.
    split; [intros (nlls & H & <-); injection H as <-; reflexivity|].
    intros H; injection H as <-. exists []. auto.
  - destruct l as [|a l0].
    { simpl. split; [intros (nlls & H & <-); injection H as <-; reflexivity|].
      intros H; injection H as <-. exists []. auto. }
    cbn [batches_fuel]. remember (a :: l0) as l eqn:El.
    assert (Hl2 : length (skipn bs l) <= fuel).
    { rewrite length_skipn. subst l. cbn [length] in *. lia. }
    pose proof (mapM_app_ok (nll_of_item lm) (firstn bs l) (skipn bs l) flat)
      as Happ.
    rewrite firstn_skipn in Happ. rewrite Happ. clear Happ. cbn [mapM].
    split.
    + intros (nlls & H & <-). inv_bind H. inv_bind H. injection H as <-.
      exists a0, (concat a1). split; [apply nll_of_batch_items; assumption|].
      split; [|reflexivity]. apply (IH _ _ Hl2). eauto.
    + intros (f1 & f2 & H1 & H2 & ->).
      apply nll_of_batch_items in H1. apply (IH _ _ Hl2) in H2.
      destruct H2 as (rs & H2 & <-). exists (f1 :: rs).
      rewrite H1, H2. auto.
Qed.

End PerplexityTheorems.

Lemma mapM_pointwise {A B : Type} (f : A -> Result B) (g : A -> B) (l : list A) :
  (forall x, In x l -> f x = Ok (g x)) -> mapM f l = Ok (map g l).
Proof.
  intros H. rewrite <- mapM_total. apply mapM_ext_in. exact H.
Qed.

Lemma mapM_map {A B C : Type} (f : B -> Result C) (g : A -> B) (l : list A) :
  mapM f (map g l) = mapM (fun x => f (g x)) l.
Proof.
  induction l as [|x l IH]; simpl; [reflexivity|]. rewrite IH. reflexivity.
Qed.

Lemma py_range_nat (n : nat) : py_range 0 (Z.of_nat n) = map Z.of_nat (seq 0 n).
Proof.
  unfold py_range. rewrite Z.sub_0_r, Nat2Z.id. apply map_ext. intros i. lia.
Qed.

Lemma py_getitem_nat {A : Type} (l : list A) (p : nat) (d : A) :
  p < length l -> py_getitem l (Z.of_nat p) = Ok (nth p l d).
Proof.
  intros Hp. unfold py_getitem.
  destruct (Z.of_nat p <? 0)%Z eqn:E; [lia|].
  destruct ((0 <=? Z.of_nat p) && (Z.of_nat p <? Z.of_nat (length l)))%Z eqn:E';
    [|apply andb_false_iff in E'; destruct E'; lia].
  unfold py_nth. rewrite Nat2Z.id, (nth_error_nth' l d Hp). reflexivity.
Qed.

Lemma py_setitem_nat {A : Type} (l : list A) (p : nat) (v : A) :
  p < length l -> py_setitem l (Z.of_nat p) v = Ok (list_update l p v).
Proof.
  intros Hp. unfold py_setitem.
  destruct (Z.of_nat p <? 0)%Z eqn:E; [lia|].
  destruct ((0 <=? Z.of_nat p) && (Z.of_nat p <? Z.of_nat (length l)))%Z eqn:E';
    [|apply andb_false_iff in E'; destruct E'; lia].
  rewrite Nat2Z.id. reflexivity.
Qed.

Lemma list_update_length {A : Type} (l : list A) (i : nat) (v : A) :
  length (list_update l i v) = length l.
Proof.
  revert i; induction l as [|x l IH]; intros [|i]; simpl; auto.
Qed.

Lemma filter_None_cond {A B : Type} (c : A -> bool) (v : A -> B) (l : list A) :
  filter_None (map (fun p => if c p then None else Some (v p)) l)
  = map v (filter (fun p => negb (c p)) l).
Proof.
  induction l as [|x l IH]; simpl; [reflexivity|].
  destruct (c x); simpl; rewrite IH; reflexivity.
Qed.

Lemma count_labels_ignored (n : nat) : count_labels (repeat PAD_TOKEN_LABEL_ID n) = 0.
Proof.
  unfold count_labels. induction n as [|n IH]; simpl; auto.
Qed.

Lemma count_labels_single (n q : nat) (c : Z) :
  q < n -> c <> PAD_TOKEN_LABEL_ID ->
  count_labels (list_update (repeat PAD_TOKEN_LABEL_ID n) q c) = 1.
Proof.
  intros Hq Hc. revert q Hq. induction n as [|n IH]; intros q Hq; [lia|].
  destruct q as [|q]; cbn [repeat list_update].
  - unfold count_labels. cbn [filter].
    destruct (c =? PAD_TOKEN_LABEL_ID)%Z eqn:E; [apply Z.eqb_eq in E; contradiction|].
    cbn [negb length]. f_equal. apply count_labels_ignored.
  - unfold count_labels in *. cbn [filter]. rewrite Z.eqb_refl. cbn [negb].
    apply IH. lia.
Qed.

(* ------------------------------------------------------------------ *)
(** ** The fill loop: [replace_mask] *)

Lemma mask_free_max_masks (self : Prompter) (s : list string) :
  mask_free self s = true <-> max_masks (mask_token (tokenizer self)) s = 0.
Proof.
  unfold mask_free, max_masks. induction s as [|x s IH]; simpl; [tauto|].
  rewrite andb_true_iff, IH, negb_true_iff, contains_false_occurrences. lia.
Qed.

Lemma fills_one_mask_max (mask : string) (before after : list string) :
  fills_one_mask mask before after = true ->
  length after = length before
  /\ max_masks mask after = pred (max_masks mask before).
Proof.
  unfold fills_one_mask, max_masks. intros H.
  apply andb_true_iff in H. destruct H as (Hl & Hall). apply Nat.eqb_eq in Hl.
  split; [auto|]. revert after Hl Hall.
  induction before as [|x b IH]; intros [|y a] Hl Hall; simpl in *;
    try discriminate; [reflexivity|].
  apply andb_true_iff in Hall. destruct Hall as (Hxy & Hall).
  apply Nat.eqb_eq in Hxy. injection Hl as Hl.
  rewrite (IH a Hl Hall), Hxy. lia.
Qed.

Section FillLoopTheorems.

Variable self : Prompter.
Variable step : list string -> Result (list string).
Variable seeds : list string.

(** The number of calls that are known to make progress. *)
Variable T : nat.

Local Abbreviation mask := (mask_token (tokenizer self)).
Local Abbreviation tr := (trace_at step seeds).

Hypothesis Hprogress : forall k, k < T -> progress_at step mask seeds k = true.

Lemma trace_ok (k : nat) :
  k <= T ->
  iterate_step step k seeds = Ok (tr k)
  /\ max_masks mask (tr k) = max_masks mask seeds - k.
Proof.
  induction k as [|k IH]; intros Hk.
  - split; [reflexivity|]. unfold trace_at. simpl. lia.
  - destruct IH as (Hit & Hmax); [lia|].
    assert (Hp : progress_at step mask seeds k = true) by (apply Hprogress; lia).
    unfold progress_at in Hp. rewrite Hit in Hp.
    destruct (step (tr k)) as [s'|e] eqn:Es; [|discriminate].
    apply fills_one_mask_max in Hp. destruct Hp as (_ & Hp).
    assert (Hs : iterate_step step (S k) seeds = Ok s').
    { simpl. rewrite Hit. simpl. exact Es. }
    unfold trace_at at 1 2. rewrite Hs. split; [reflexivity|].
    rewrite Hp, Hmax. lia.
Qed.

Lemma step_trace (k : nat) : k < T -> step (tr k) = Ok (tr (S k)).
Proof.
  intros Hk. destruct (trace_ok (k := k)) as (Hit & _); [lia|].
  destruct (trace_ok (k := S k)) as (Hit' & _); [lia|].
  simpl in Hit'. rewrite Hit in Hit'. exact Hit'.
Qed.

Lemma revision_loop_trace (n j : nat) (edit : list (list string)) :
  j + n <= T ->
  revision_loop n step (tr j) edit
  = Ok (tr (j + n), edit ++ map tr (seq (S j) n)).
Proof.
  revert j edit; induction n as [|n IH]; intros j edit Hj.
  - simpl. rewrite Nat.add_0_r, app_nil_r. reflexivity.
  - cbn [revision_loop]. rewrite step_trace by lia. cbn [bind].
    rewrite IH by lia. cbn [seq map]. rewrite <- app_assoc.
    replace (S j + n) with (j + S n) by lia. reflexivity.
Qed.

Variable K : nat.
Hypothesis HK : K = Nat.max 1 (max_masks mask seeds).
Hypothesis HKT : K <= T.

Lemma trace_mask_free_at_K : mask_free self (tr K) = true.
Proof.
  apply mask_free_max_masks.
  destruct (trace_ok (k := K)) as (_ & Hmax); [lia|]. lia.
Qed.

Lemma trace_masked_before_K (k : nat) :
  0 < k < K -> mask_free self (tr k) = false.
Proof.
  intros Hk. destruct (mask_free self (tr k)) eqn:E; [|reflexivity].
  apply mask_free_max_masks in E.
  destruct (trace_ok (k := k)) as (_ & Hmax); [lia|]. lia.
Qed.

Lemma fill_loop_trace (d j fuel : nat) (edit : list (list string)) :
  j + S d = K -> S d <= fuel ->
  fill_loop self fuel step (tr j) edit
  = Some (Ok (tr K, edit ++ map tr (seq (S j) d))).
Proof.
  revert j fuel edit; induction d as [|d IH]; intros j fuel edit Hj Hfuel;
    (destruct fuel as [|fuel]; [lia|]); cbn [fill_loop];
    rewrite step_trace by lia.
  - replace (S j) with K by lia. rewrite trace_mask_free_at_K.
    simpl. rewrite app_nil_r. reflexivity.
  - rewrite trace_masked_before_K by lia.
    rewrite IH by lia. cbn [seq map]. rewrite <- app_assoc. reflexivity.
Qed.

End FillLoopTheorems.

(** C1 (as amended). If every call [replace_mask] makes to
    [replace_single_mask] returns and fills one mask token in each sentence
    that still has one (leaving a sentence without mask tokens without
    them), then the fill loop makes exactly [K = max(1, m)] calls, [m] being
    the largest number of mask tokens in a seed template: the working list
    holds a mask token after each earlier call and none after call [K],
    where the loop exits, and exactly [n_revision] further calls run.  With
    fuel for [K] iterations the loop returns. *)
Theorem replace_mask_fill_loop :
  forall (N : Numeric) (lm : Model N) (self : Prompter) (fuel : nat)
         (word_pairs : WordPairs)
         (n_blank n_revision topk_ topk_per_position : Z) (seed_type : string)
         (batch_size : Z) (perplexity_filter : bool)
         (n_blank_prefix n_blank_suffix : Z)
         (pairs : list (list string)) (seeds : list string),
    as_pair_list word_pairs = Ok pairs ->
    mapM (fun x => pair_to_seed lm self x n_blank n_blank_prefix n_blank_suffix
                     batch_size seed_type) pairs = Ok seeds ->
    let step := fun s => replace_single_mask lm self s pairs batch_size topk_
                           topk_per_position perplexity_filter in
    let K := Nat.max 1 (max_masks (mask_token (tokenizer self)) seeds) in
    let R := Z.to_nat n_revision in
    (forall k, k < K + R ->
               progress_at step (mask_token (tokenizer self)) seeds k = true) ->
    K <= fuel ->
    replace_mask lm self fuel word_pairs n_blank n_revision topk_
                 topk_per_position seed_type batch_size perplexity_filter
                 n_blank_prefix n_blank_suffix
    = Some (Ok (trace_at step seeds (K + R),
                zip_star (map (trace_at step seeds) (seq 0 K ++ seq (S K) R))))
    /\ mask_free self (trace_at step seeds K) = true
    /\ (forall k, 0 < k < K -> mask_free self (trace_at step seeds k) = false)
    /\ (forall k, k <= K + R ->
                  iterate_step step k seeds = Ok (trace_at step seeds k)).
Proof.
  intros N lm self fuel word_pairs n_blank n_revision topk_ kp seed_type bs pf
         nbp nbs pairs seeds Hpairs Hseeds step K R Hprog Hfuel.
  assert (HK : K = Nat.max 1 (max_masks (mask_token (tokenizer self)) seeds))
    by reflexivity.
  assert (HKT : K <= K + R) by lia.
  split; [|split; [|split]].
  - unfold replace_mask. rewrite Hpairs, Hseeds. fold step.
    change seeds with (trace_at step seeds 0) at 1.
    rewrite (@fill_loop_trace self step seeds (K + R) Hprog K HK HKT
               (K - 1) 0 fuel [seeds]) by lia.
    cbn [fst snd].
    rewrite (@revision_loop_trace self step seeds (K + R) Hprog R K) by lia.
    cbn [bind fst snd]. do 3 f_equal.
    rewrite map_app. f_equal.
    assert (Hs : seq 0 K = 0 :: seq 1 (K - 1)).
    { assert (H1 : 1 <= K) by lia. clear - H1. clearbody K.
      destruct K as [|K']; [lia|]. simpl. rewrite Nat.sub_0_r. reflexivity. }
    rewrite Hs. reflexivity.
  - exact (@trace_mask_free_at_K self step seeds (K + R) Hprog K HK HKT).
  - intros k Hk.
    exact (@trace_masked_before_K self step seeds (K + R) Hprog K HK HKT k Hk).
  - intros k Hk. exact (proj1 (@trace_ok self step seeds (K + R) Hprog k Hk)).
Qed.

(** A working list that a step maps to itself and that still holds a mask
    token keeps the fill loop running whatever the fuel. *)
Lemma fill_loop_fixed_point (self : Prompter)
    (step : list string -> Result (list string)) (s : list string) :
  step s = Ok s -> mask_free self s = false ->
  forall fuel edit, fill_loop self fuel step s edit = None.
Proof.
  intros Hs Hm. induction fuel as [|fuel IH]; intros edit; [reflexivity|].
  cbn [fill_loop]. rewrite Hs, Hm. apply IH.
Qed.

Lemma replace_mask_diverges :
  forall (N : Numeric) (lm : Model N) (self : Prompter)
         (word_pairs : WordPairs)
         (n_blank n_revision topk_ topk_per_position : Z) (seed_type : string)
         (batch_size : Z) (perplexity_filter : bool)
         (n_blank_prefix n_blank_suffix : Z)
         (pairs : list (list string)) (seeds s1 : list string),
    as_pair_list word_pairs = Ok pairs ->
    mapM (fun x => pair_to_seed lm self x n_blank n_blank_prefix n_blank_suffix
                     batch_size seed_type) pairs = Ok seeds ->
    replace_single_mask lm self seeds pairs batch_size topk_ topk_per_position
                        perplexity_filter = Ok s1 ->
    replace_single_mask lm self s1 pairs batch_size topk_ topk_per_position
                        perplexity_filter = Ok s1 ->
    mask_free self s1 = false ->
    forall fuel,
      replace_mask lm self fuel word_pairs n_blank n_revision topk_
                   topk_per_position seed_type batch_size perplexity_filter
                   n_blank_prefix n_blank_suffix = None.
Proof.
  intros N lm self word_pairs n_blank n_revision topk_ kp seed_type bs pf nbp nbs
         pairs seeds s1 Hpairs Hseeds H0 H1 Hm fuel.
  unfold replace_mask. rewrite Hpairs, Hseeds.
  destruct fuel as [|fuel]; [reflexivity|]. cbn [fill_loop].
  rewrite H0, Hm.
  rewrite (fill_loop_fixed_point self
             (fun s => replace_single_mask lm self s pairs bs topk_ kp pf) H1 Hm).
  reflexivity.
Qed.

(* ------------------------------------------------------------------ *)
(** ** Runs on the concrete tokenizer and model *)

Lemma toy_model_rowwise (ranking : list Z) : rowwise (Toy.toy_model ranking).
Proof.
  intros batch i e Hi. simpl.
  apply nth_error_nth. rewrite nth_error_map, Hi. reflexivity.
Qed.

(** The constructor builds the toy [Prompter] from the hub. *)
Example toy_prompter_constructed :
  Prompter_init (Toy.hub false) "toy-base" (Some 12%Z) "./cache" 0
  = ([LoadTokenizer "toy-base" "./cache"; LoadConfig "toy-base" "./cache"],
     Ok (Toy.prompter false 12)).
Proof. reflexivity. Qed.

Example toy_seed_middle :
  pair_to_seed (Toy.toy_model [7; 8]%Z) (Toy.prompter false 12) ["a"; "b"]
               3 2 2 4 "middle"
  = Ok "a <mask> <mask> <mask> b".
Proof. reflexivity. Qed.

Example toy_replace_mask :
  replace_mask (Toy.toy_model [7; 8]%Z) (Toy.prompter false 12) 5
               (ManyPairs [["a"; "b"]; ["x"; "y"]]) 2 2 5 2 "middle" 4 true 2 2
  = Some (Ok (["a x x b "; "x x x y "],
              [["a <mask> <mask> b"; "a x <mask> b "; "a x x b "; "a x x b "];
               ["x <mask> <mask> y"; "x x <mask> y "; "x x x y "; "x x x y "]])).
Proof. vm_compute. reflexivity. Qed.

(** C1, the claim as stated fails: with a model whose best prediction at a
    masked position is the mask token itself, [replace_single_mask] hands
    the sentence back with its mask tokens and the fill loop never exits. *)
Lemma replace_mask_may_loop_forever :
  ~ exists fuel out,
      replace_mask (Toy.toy_model [4]%Z) (Toy.prompter false 12) fuel
                   (OnePair ["a"; "b"]) 2 2 5 1 "middle" 4 false 2 2
      = Some out.
Proof.
  intros (fuel & out & H).
  rewrite (@replace_mask_diverges Toy.numeric (Toy.toy_model [4]%Z)
             (Toy.prompter false 12) (OnePair ["a"; "b"]) 2 2 5 1 "middle" 4
             false 2 2 [["a"; "b"]] ["a <mask> <mask> b"]
             ["a <mask> <mask> b "]) in H.
  - discriminate.
  - reflexivity.
  - reflexivity.
  - vm_compute. reflexivity.
  - vm_compute. reflexivity.
  - vm_compute. reflexivity.
Qed.

Lemma replace_mask_fill_loop_witness :
  replace_mask (Toy.toy_model [7; 8]%Z) (Toy.prompter false 12) 2
               (ManyPairs [["a"; "b"]; ["x"; "y"]]) 2 2 5 2 "middle" 4 true 2 2
  = Some (Ok (["a x x b "; "x x x y "],
              [["a <mask> <mask> b"; "a x <mask> b "; "a x x b "; "a x x b "];
               ["x <mask> <mask> y"; "x x <mask> y "; "x x x y "; "x x x y "]])).
Proof.
  refine (eq_trans
    (proj1 (@replace_mask_fill_loop Toy.numeric (Toy.toy_model [7; 8]%Z)
              (Toy.prompter false 12) 2 (ManyPairs [["a"; "b"]; ["x"; "y"]])
              2 2 5 2 "middle" 4 true 2 2 [["a"; "b"]; ["x"; "y"]]
              ["a <mask> <mask> b"; "x <mask> <mask> y"]
              eq_refl eq_refl _ _)) _).
  - intros k Hk.
    do 4 (destruct k as [|k]; [vm_compute; reflexivity|]).
    vm_compute in Hk. lia.
  - vm_compute. lia.
  - vm_compute. reflexivity.
Defined.

Lemma replace_single_mask_keeps_pair_witness :
  exists h t,
    nth_error [["a"; "b"]] 0 = Some [h; t]
    /\ contains h "a x <mask> b " = true /\ contains t "a x <mask> b " = true.
Proof.
  assert (H : replace_single_mask (Toy.toy_model [7; 8]%Z) (Toy.prompter false 12)
                ["a <mask> <mask> b"] [["a"; "b"]] 4 5 2 true
              = Ok ["a x <mask> b "]) by (vm_compute; reflexivity).
  exact (proj1 (proj2 (replace_single_mask_keeps_pair _ _ _ _ _ _ _ _ H))
           0 "a x <mask> b " eq_refl).
Defined.

Lemma encode_plus_rejects_exact_fit_witness :
  encode_plus (Toy.prompter true 8) "a <mask> b" false
  = Err (AssertionError A_exceed_max_length).
Proof.
  apply encode_plus_rejects_exact_fit; reflexivity.
Defined.

(** C6, the code at a concrete input: with a maximum length of 6 the
    candidate with two middle mask tokens already has six ids with its two
    special tokens, the length assertion of [encode_plus] fails and
    [pair_to_seed] raises instead of returning a template. *)
Theorem best_seed_trips_length_assertion :
  best_candidates (Toy.prompter false 6) "a" "b"
  = ["a <mask> b"; "a <mask> <mask> b"; "a <mask> <mask> <mask> b";
     "a <mask> <mask> <mask> <mask> b";
     "<mask> a <mask> b"; "<mask> a <mask> <mask> b";
     "<mask> a <mask> <mask> <mask> b";
     "<mask> <mask> a <mask> b"; "<mask> <mask> a <mask> <mask> b";
     "<mask> <mask> <mask> a <mask> b"]
  /\ pair_to_seed (Toy.toy_model [7; 8]%Z) (Toy.prompter false 6) ["a"; "b"]
                  3 2 2 4 "best"
     = Err (AssertionError A_exceed_max_length).
Proof. split; vm_compute; reflexivity. Qed.

(** C8, the claim as stated fails for 'best': with a maximum length of 2
    there is no candidate and [pair_to_seed] raises. *)
Lemma pair_to_seed_best_can_raise :
  pair_to_seed (Toy.toy_model [7; 8]%Z) (Toy.prompter false 2) ["a"; "b"]
               3 2 2 4 "best"
  = Err (ValueError "min() arg is an empty sequence").
Proof. reflexivity. Qed.

Lemma pair_to_seed_seed_type_witness :
  pair_to_seed (Toy.toy_model [7; 8]%Z) (Toy.prompter false 12) ["a"; "b"]
               3 2 2 4 "nearest"
  = Err (ValueError "unknown seed type: nearest")
  /\ exists s,
       pair_to_seed (Toy.toy_model [7; 8]%Z) (Toy.prompter false 12) ["a"; "b"]
                    3 2 2 4 "whole" = Ok s.
Proof.
  split.
  - apply (proj1 (pair_to_seed_seed_type (Toy.toy_model [7; 8]%Z)
                    (Toy.prompter false 12) "a" "b" 3 2 2 4 "nearest"));
      discriminate.
  - apply (proj2 (pair_to_seed_seed_type (Toy.toy_model [7; 8]%Z)
                    (Toy.prompter false 12) "a" "b" 3 2 2 4 "whole")).
    right. reflexivity.
Defined.

Lemma empty_candidates_abort_witness :
  replace_single_mask (Toy.toy_model [7; 8]%Z) (Toy.prompter false 12)
                      ["a b"] [["a"; "b"]] 4 5 2 false = Err IndexError
  /\ replace_single_mask (Toy.toy_model [7; 8]%Z) (Toy.prompter false 12)
                         ["a b"] [["a"; "b"]] 4 5 2 true
     = Err (ValueError "min() arg is an empty sequence").
Proof.
  assert (H : greedy_filling (Toy.toy_model [7; 8]%Z) (Toy.prompter false 12)
                ["a b"] [["a"; "b"]] 4 5 2 = Ok [[]]) by (vm_compute; reflexivity).
  destruct (empty_candidates_abort _ _ _ _ _ _ _ H (or_introl eq_refl))
    as (H1 & _ & H3 & _).
  split; [exact H1|]. exact (H3 [] [] [] eq_refl eq_refl).
Defined.

Lemma causal_model_name_rejected_witness :
  snd (Prompter_init (Toy.hub false) "gpt2" (Some 24%Z) "./cache" 0)
  = Err (AssertionError A_not_causal)
  /\ existsb is_load
       (fst (Prompter_init (Toy.hub false) "gpt2" (Some 24%Z) "./cache" 0))
     = false.
Proof.
  apply causal_model_name_rejected. reflexivity.
Defined.

(* ------------------------------------------------------------------ *)
(** ** A tokenizer that pads to [max_length]

    [encode_plus] asks the tokenizer for [padding='max_length'] and
    [truncation=True].  With a tokenizer that does so, the length assertion
    fails on every encoding, and nothing that encodes a sentence returns. *)
Section PaddedTokenizer.

Variable N : Numeric.
Variable lm : Model N.
Variable self : Prompter.

Hypothesis Hpad : pads_to_max_length self.

Lemma padded_encode_plus_masked (sentence : string) :
  exists e, encode_plus self sentence false = Err e.
Proof.
  unfold encode_plus. destruct (is_causal self); [eexists; reflexivity|].
  cbn [negb]. destruct (contains _ sentence); cbn [negb]; [|eexists; reflexivity].
  rewrite Hpad, Z.ltb_irrefl. eexists; reflexivity.
Qed.

Lemma padded_single_mask (token_list : list string) (p : Z) (r : option BatchEncoding) :
  encode_with_single_mask_id self token_list p = Ok r -> r = None.
Proof.
  unfold encode_with_single_mask_id. intros H. inv_bind H.
  destruct (convert_tokens_to_ids (tokenizer self) a =? mask_token_id (tokenizer self))%Z;
    [congruence|].
  inv_bind H. rewrite Hpad, Z.ltb_irrefl in H. discriminate.
Qed.

Lemma padded_encode_plus_token_wise (sentence : string) (vs : list BatchEncoding) :
  encode_plus self sentence true = Ok vs -> vs = [].
Proof.
  unfold encode_plus. destruct (is_causal self); [discriminate|]. cbn [negb].
  intros H. inv_bind H. injection H as <-.
  apply mapM_ok_Forall2 in E.
  induction E as [|p r ps rs Hr _ IH]; [reflexivity|].
  apply padded_single_mask in Hr. subst r. exact IH.
Qed.

Lemma padded_get_perplexity (sentences : list string) (batch_size : Z)
    (r : list (num N)) :
  get_perplexity lm self sentences batch_size = Ok r -> sentences = [].
Proof.
  unfold get_perplexity. intros H. inv_bind H. rename a into data.
  inv_bind H. inv_bind H.
  assert (Hdata : Forall (fun vs => vs = []) data).
  { apply mapM_ok_Forall2 in E. clear - E Hpad.
    induction E as [|s vs l data Hs _ IH]; constructor; [|exact IH].
    eapply padded_encode_plus_token_wise; eauto. }
  destruct sentences as [|s l]; [reflexivity|]. exfalso.
  apply mapM_ok_length in E. destruct data as [|vs data]; [discriminate|].
  inversion Hdata as [|? ? Hvs _]; subst vs.
  rewrite get_partition_offsets in H. cbn [map length offsets mapM] in H.
  unfold perplexity_of_slice at 1 in H. cbn [fst snd] in H.
  rewrite Nat.add_0_r, Nat.sub_diag in H. discriminate.
Qed.

(** With such a tokenizer [seed_type='best'] raises for every word pair. *)
Lemma padded_best_seed_raises :
  forall (word_pair : list string)
         (n_blank n_blank_prefix n_blank_suffix batch_size : Z),
  exists e,
    pair_to_seed lm self word_pair n_blank n_blank_prefix n_blank_suffix
                 batch_size "best" = Err e.
Proof.
  intros wp nb np ns bs.
  destruct (pair_to_seed lm self wp nb np ns bs "best") as [s|e] eqn:E;
    [|eexists; reflexivity].
  exfalso. unfold pair_to_seed in E.
  destruct wp as [|h [|t [|? ?]]]; try discriminate. simpl in E.
  inv_bind E. pose proof (padded_get_perplexity _ _ E0) as Hc.
  rewrite Hc in E. unfold pick_min_perplexity in E.
  inv_bind E. inv_bind E. unfold py_nth in E.
  destruct a1; discriminate.
Qed.

Lemma empty_data_partition {A : Type} (data : list (list A)) :
  Forall (fun vs => vs = []) data ->
  Forall (fun se => se = (0, 0)) (get_partition data).
Proof.
  rewrite get_partition_offsets. intros H.
  induction H as [|vs data Hvs _ IH]; [constructor|].
  subst vs. cbn [map length offsets]. constructor; [reflexivity | exact IH].
Qed.

(** ... and [replace_single_mask] raises on every non-empty working list. *)
Lemma padded_replace_single_mask_raises :
  forall (seed_sentences : list string) (word_pairs : list (list string))
         (batch_size topk_ topk_per_position : Z) (perplexity_filter : bool),
    seed_sentences <> [] ->
    exists e,
      replace_single_mask lm self seed_sentences word_pairs batch_size topk_
                          topk_per_position perplexity_filter = Err e.
Proof.
  intros seeds wps bs k kp pf Hne.
  destruct (replace_single_mask lm self seeds wps bs k kp pf) as [out|e] eqn:Hrsm;
    [|eexists; reflexivity].
  exfalso.
  destruct (greedy_filling lm self seeds wps bs k kp) as [filling|e] eqn:Hfill;
    [|unfold replace_single_mask in Hrsm; rewrite Hfill in Hrsm; discriminate].
  assert (Hin : In [] filling).
  { pose proof Hfill as H. unfold greedy_filling in H.
    destruct (length seeds =? length wps)%nat eqn:El; [|discriminate].
    cbn [negb] in H. inv_bind H. rename a into data. inv_bind H.
    destruct (length wps =? length (get_partition data))%nat; [|discriminate].
    cbn [negb] in H.
    apply bind_ok in H. destruct H as (batches & _ & H).
    assert (Hdata : Forall (fun vs => vs = []) data).
    { apply mapM_ok_Forall2 in E. clear - E Hpad.
      induction E as [|s vs l data Hs _ IH]; constructor; [|exact IH].
      destruct (contains (mask_token (tokenizer self)) s); cbn [negb] in Hs.
      - destruct (padded_encode_plus_masked s) as (e & He). congruence.
      - eapply padded_encode_plus_token_wise; eauto. }
    apply empty_data_partition in Hdata.
    assert (Hlen : length (get_partition data) = length seeds).
    { unfold get_partition. rewrite length_map, length_seq, length_map.
      eapply mapM_ok_length; eauto. }
    destruct filling as [|c filling].
    - apply mapM_ok_length in H. rewrite length_seq, Hlen in H.
      destruct seeds; [contradiction | discriminate].
    - left.
      destruct (mapM_ok_nth _ _ 0 H eq_refl) as (n & Hn & Hproc).
      unfold process_single_sentence in Hproc.
      apply bind_ok in Hproc. destruct Hproc as (wp & _ & Hproc).
      apply bind_ok in Hproc. destruct Hproc as (ht & _ & Hproc).
      apply bind_ok in Hproc. destruct Hproc as (se & Hnth & Hproc).
      assert (Hse : se = (0, 0)).
      { rewrite Forall_forall in Hdata. apply Hdata.
        eapply py_nth_ok_In; eauto. }
      subst se. cbn [fst snd Nat.sub seq mapM bind concat] in Hproc.
      injection Hproc as <-. unfold py_take. cbn [sorted_desc map length].
      match goal with
      | |- (if ?c then _ else _) = _ => destruct c
      end; apply firstn_nil. }
  unfold replace_single_mask in Hrsm. rewrite Hfill in Hrsm.
  cbn [bind] in Hrsm. unfold best_edit in Hrsm. destruct pf.
  - destruct (mapM_fails
                (fun sent => ppl <- get_perplexity lm self sent 4 ;;
                             pick_min_perplexity sent ppl)
                filling [] (e := ValueError "min() arg is an empty sequence")
                Hin eq_refl) as (e & He).
    congruence.
  - rewrite (mapM_first_item_empty filling Hin) in Hrsm. discriminate.
Qed.

End PaddedTokenizer.

Lemma toy_tokenizer_pads (m : Z) :
  (0 <= m)%Z -> pads_to_max_length (Toy.prompter true m).
Proof.
  intros Hm sentence. simpl. unfold Toy.toy_encode_plus. simpl.
  rewrite length_app, repeat_length.
  pose proof (firstn_le_length (Z.to_nat m) (Toy.with_special sentence)). lia.
Qed.

(* ------------------------------------------------------------------ *)
(** ** The word pair along [replace_mask] *)

Lemma prefix_append (p x : string) : String.prefix p (String.append p x) = true.
Proof.
  induction p as [|c p IH]; simpl.
  - destruct x; reflexivity.
  - destruct (ascii_dec c c) as [_|Hc]; [exact IH | contradiction].
Qed.

Lemma contains_of_prefix (p s : string) :
  String.prefix p s = true -> contains p s = true.
Proof.
  intros H. destruct s; cbn [contains]; rewrite H; reflexivity.
Qed.

Lemma contains_refl (p : string) : contains p p = true.
Proof.
  apply contains_of_prefix. induction p as [|c p IH]; simpl; [reflexivity|].
  destruct (ascii_dec c c) as [_|Hc]; [exact IH | contradiction].
Qed.

Lemma contains_append_l (p x : string) : contains p (String.append p x) = true.
Proof. apply contains_of_prefix, prefix_append. Qed.

Lemma contains_append_r (p a s : string) :
  contains p s = true -> contains p (String.append a s) = true.
Proof.
  intros H. induction a as [|c a IH]; [exact H|].
  cbn [String.append contains]. rewrite IH. apply orb_true_r.
Qed.

Lemma contains_join (w sep : string) (l : list string) :
  In w l -> contains w (join sep l) = true.
Proof.
  unfold join. induction l as [|x l IH]; [contradiction|].
  intros Hin. destruct l as [|y l].
  - destruct Hin as [->|[]]. apply contains_refl.
  - cbn [String.concat]. destruct Hin as [->|Hin].
    + apply contains_append_l.
    + apply contains_append_r, contains_append_r, IH, Hin.
Qed.

Lemma py_range_In (a b x : Z) : In x (py_range a b) <-> (a <= x < b)%Z.
Proof.
  unfold py_range. rewrite in_map_iff. split.
  - intros (i & <- & Hi). apply in_seq in Hi. lia.
  - intros Hx. exists (Z.to_nat (x - a)). split; [lia|]. apply in_seq. lia.
Qed.

(** The candidate templates of 'best' are exactly the strings of [pre_n]
    mask tokens, the head, [mid_n] mask tokens and the tail, for
    [0 <= pre_n], [1 <= mid_n] and [pre_n + mid_n + 2 <= max_length]. *)
Lemma best_candidates_spec (self : Prompter) (h t c : string) :
  In c (best_candidates self h t)
  <-> exists pre_n mid_n,
        (0 <= pre_n)%Z /\ (1 <= mid_n)%Z
        /\ (pre_n + mid_n + 2 <= max_length self)%Z
        /\ c = join " " ((py_repeat (mask_token (tokenizer self)) pre_n ++ [h])
                         ++ (py_repeat (mask_token (tokenizer self)) mid_n ++ [t])).
Proof.
  unfold best_candidates. rewrite in_flat_map. split.
  - intros (pre_n & Hpre & Hc). apply in_map_iff in Hc.
    destruct Hc as (mid_n & <- & Hmid).
    apply py_range_In in Hpre, Hmid. exists pre_n, mid_n.
    repeat split; try lia.
  - intros (pre_n & mid_n & H0 & H1 & H2 & ->). exists pre_n. split.
    + apply py_range_In. lia.
    + apply in_map_iff. exists mid_n. split; [reflexivity|].
      apply py_range_In. lia.
Qed.

(** [min] returns an element of the list that no element is smaller than,
    when [<] is a strict weak order (as on floats that are not NaN). *)
Lemma py_min_minimal {A : Type} (ltb : A -> A -> bool) (l : list A) (m : A) :
  (forall x, ltb x x = false) ->
  (forall x y z, ltb x y = true -> ltb y z = true -> ltb x z = true) ->
  (forall x y z, ltb x z = true -> ltb x y = true \/ ltb y z = true) ->
  py_min ltb l = Ok m ->
  In m l /\ forall y, In y l -> ltb y m = false.
Proof.
  intros Hirr Htr Hneg. destruct l as [|x l]; [discriminate|].
  unfold py_min. intros H. injection H as <-.
  assert (Hgen : forall l0 best,
            (fold_left (fun best y => if ltb y best then y else best) l0 best = best
             \/ In (fold_left (fun best y => if ltb y best then y else best) l0 best) l0)
            /\ ltb best (fold_left (fun best y => if ltb y best then y else best)
                                   l0 best) = false
            /\ forall y, In y l0 ->
                 ltb y (fold_left (fun best y => if ltb y best then y else best)
                                  l0 best) = false).
  { induction l0 as [|y l0 IH]; intros best; cbn [fold_left].
    - split; [left; reflexivity|]. split; [apply Hirr | intros y []].
    - destruct (ltb y best) eqn:E.
      + destruct (IH y) as (Hin & Hle & Hall). split; [|split].
        * destruct Hin as [->|Hin]; right; [left; reflexivity | right; exact Hin].
        * destruct (ltb best _) eqn:E'; [|reflexivity].
          destruct (Hneg _ y _ E') as [H1|H1].
          -- pose proof (Htr _ _ _ H1 E) as Hbb. rewrite Hirr in Hbb.
             discriminate.
          -- congruence.
        * intros z [<-|Hz]; [exact Hle | apply Hall, Hz].
      + destruct (IH best) as (Hin & Hle & Hall). split; [|split].
        * destruct Hin as [->|Hin]; [left; reflexivity | right; right; exact Hin].
        * exact Hle.
        * intros z [<-|Hz]; [|apply Hall, Hz].
          match goal with
          | |- ?lhs = false => destruct lhs eqn:E'; [|reflexivity]
          end.
          destruct (Hneg _ best _ E') as [H1|H1]; congruence. }
  destruct (Hgen l x) as (Hin & Hle & Hall). split.
  - destruct Hin as [->|Hin]; [left; reflexivity | right; exact Hin].
  - intros y [<-|Hy]; [exact Hle | apply Hall, Hy].
Qed.

Lemma zip_star_aux_rows {A : Type} (n : nat) :
  forall (rows : list (list A)) (i : nat) (hist : list A) (s : A),
    nth_error (zip_star_aux n rows) i = Some hist -> In s hist ->
    exists row, In row rows /\ nth_error row i = Some s.
Proof.
  induction n as [|n IH]; intros rows i hist s Hi Hs; cbn [zip_star_aux] in Hi.
  - destruct i; discriminate.
  - destruct (existsb (@is_nil A) rows); [destruct i; discriminate|].
    destruct i as [|i]; cbn [nth_error] in Hi.
    + injection Hi as <-. apply filter_None_In in Hs. apply in_map_iff in Hs.
      destruct Hs as (row & Hhd & Hrow). exists row. split; [exact Hrow|].
      destruct row; [discriminate | exact Hhd].
    + destruct (IH _ _ _ _ Hi Hs) as (row' & Hrow' & Hnth).
      apply in_map_iff in Hrow'. destruct Hrow' as (row & <- & Hrow).
      exists row. split; [exact Hrow|].
      destruct row; [destruct i; discriminate | exact Hnth].
Qed.

Lemma zip_star_rows {A : Type} (rows : list (list A)) (i : nat)
    (hist : list A) (s : A) :
  nth_error (zip_star rows) i = Some hist -> In s hist ->
  exists row, In row rows /\ nth_error row i = Some s.
Proof.
  unfold zip_star. destruct rows as [|r rows]; [destruct i; discriminate|].
  apply zip_star_aux_rows.
Qed.

Section PairAlongReplaceMask.

Variable N : Numeric.
Variable lm : Model N.
Variable self : Prompter.

Lemma pair_to_seed_keeps_pair :
  forall (word_pair : list string)
         (n_blank n_blank_prefix n_blank_suffix batch_size : Z)
         (seed_type s : string),
    pair_to_seed lm self word_pair n_blank n_blank_prefix n_blank_suffix
                 batch_size seed_type = Ok s ->
    exists h t,
      word_pair = [h; t] /\ contains h s = true /\ contains t s = true.
Proof.
  intros wp nb np ns bs st s H. unfold pair_to_seed in H.
  destruct wp as [|h [|t [|? ?]]]; try discriminate.
  exists h, t. split; [reflexivity|].
  destruct (String.eqb st "middle").
  { apply Ok_inj in H. subst s. split; apply contains_join.
    - left; reflexivity.
    - apply in_or_app. right. apply in_or_app. right. left; reflexivity. }
  destruct (String.eqb st "whole").
  { apply Ok_inj in H. subst s. split; apply contains_join.
    - apply in_or_app. right. left; reflexivity.
    - apply in_or_app. right. apply in_or_app. right. apply in_or_app. right.
      left; reflexivity. }
  destruct (String.eqb st "best"); [|discriminate].
  inv_bind H. unfold pick_min_perplexity in H. inv_bind H. inv_bind H.
  apply py_nth_ok_In in H. apply best_candidates_spec in H.
  destruct H as (pre_n & mid_n & _ & _ & _ & ->). split; apply contains_join.
  - apply in_or_app. left. apply in_or_app. right. left; reflexivity.
  - apply in_or_app. right. apply in_or_app. right. left; reflexivity.
Qed.

Lemma seeds_keep_pairs :
  forall (pairs : list (list string))
         (n_blank n_blank_prefix n_blank_suffix batch_size : Z)
         (seed_type : string) (seeds : list string),
    mapM (fun x => pair_to_seed lm self x n_blank n_blank_prefix n_blank_suffix
                     batch_size seed_type) pairs = Ok seeds ->
    keeps_pairs pairs seeds.
Proof.
  intros pairs nb np ns bs st seeds H i s Hi.
  destruct (mapM_ok_nth _ _ _ H Hi) as (wp & Hwp & Hseed).
  destruct (pair_to_seed_keeps_pair _ _ _ _ _ _ Hseed) as (h & t & -> & Hh & Ht).
  exists h, t. auto.
Qed.

Variable pairs : list (list string).
Variable step : list string -> Result (list string).
Hypothesis Hstep : forall s s', step s = Ok s' -> keeps_pairs pairs s'.

Lemma fill_loop_keeps_pairs (fuel : nat) :
  forall (s : list string) (edit : list (list string))
         (s' : list string) (edit' : list (list string)),
    Forall (keeps_pairs pairs) edit ->
    fill_loop self fuel step s edit = Some (Ok (s', edit')) ->
    keeps_pairs pairs s' /\ Forall (keeps_pairs pairs) edit'.
Proof.
  induction fuel as [|fuel IH]; intros s edit s' edit' Hedit H;
    cbn [fill_loop] in H; [discriminate|].
  destruct (step s) as [s1|e] eqn:Es; [|discriminate].
  destruct (mask_free self s1).
  - injection H as <- <-. split; [eapply Hstep; eauto | exact Hedit].
  - apply (IH _ _ _ _) in H; [exact H|].
    apply Forall_app. split; [exact Hedit|].
    constructor; [eapply Hstep; eauto | constructor].
Qed.

Lemma revision_loop_keeps_pairs (n : nat) :
  forall (s : list string) (edit : list (list string))
         (s' : list string) (edit' : list (list string)),
    keeps_pairs pairs s -> Forall (keeps_pairs pairs) edit ->
    revision_loop n step s edit = Ok (s', edit') ->
    keeps_pairs pairs s' /\ Forall (keeps_pairs pairs) edit'.
Proof.
  induction n as [|n IH]; intros s edit s' edit' Hs Hedit H;
    cbn [revision_loop] in H.
  - injection H as <- <-. auto.
  - inv_bind H. apply (IH _ _ _ _) in H; [exact H | eapply Hstep; eauto |].
    apply Forall_app. split; [exact Hedit|].
    constructor; [eapply Hstep; eauto | constructor].
Qed.

End PairAlongReplaceMask.

(** The word pair survives the whole of [replace_mask]: every sentence of
    the output, and every sentence of the edit history of a pair (the seed
    template included), holds the head and the tail of that pair. *)
Lemma replace_mask_keeps_pairs :
  forall (N : Numeric) (lm : Model N) (self : Prompter) (fuel : nat)
         (word_pairs : WordPairs)
         (n_blank n_revision topk_ topk_per_position : Z) (seed_type : string)
         (batch_size : Z) (perplexity_filter : bool)
         (n_blank_prefix n_blank_suffix : Z)
         (pairs : list (list string)) (final : list string)
         (edit : list (list string)),
    as_pair_list word_pairs = Ok pairs ->
    replace_mask lm self fuel word_pairs n_blank n_revision topk_
                 topk_per_position seed_type batch_size perplexity_filter
                 n_blank_prefix n_blank_suffix = Some (Ok (final, edit)) ->
    keeps_pairs pairs final
    /\ forall i history s,
         nth_error edit i = Some history -> In s history ->
         exists h t,
           nth_error pairs i = Some [h; t]
           /\ contains h s = true /\ contains t s = true.
Proof.
  intros N lm self fuel word_pairs nb nr k kp st bs pf nbp nbs pairs final edit
         Hpairs H.
  unfold replace_mask in H. rewrite Hpairs in H.
  destruct (mapM _ pairs) as [seeds|e] eqn:Hseeds; [|discriminate].
  assert (Hstep : forall s s',
             replace_single_mask lm self s pairs bs k kp pf = Ok s' ->
             keeps_pairs pairs s').
  { intros s s' Hs i x Hi.
    unfold replace_single_mask in Hs.
    apply bind_ok in Hs. destruct Hs as (filling & Hf & Hb).
    apply greedy_filling_filter in Hf. destruct Hf as (_ & _ & Hfill).
    apply best_edit_picks in Hb. destruct Hb as (_ & Hpick).
    destruct (Hpick i x Hi) as (cands & Hc & Hx).
    destruct (Hfill i cands Hc) as (h & t & Hwp & Hall).
    exists h, t. split; [exact Hwp | apply Hall; exact Hx]. }
  destruct (fill_loop self fuel _ seeds [seeds]) as [[filled|e]|] eqn:Hfill;
    try discriminate.
  destruct filled as (s1 & edit1).
  apply (fill_loop_keeps_pairs self
           (fun s => replace_single_mask lm self s pairs bs k kp pf) Hstep) in Hfill;
    [|constructor; [eapply seeds_keep_pairs; eauto | constructor]].
  destruct Hfill as (Hs1 & Hedit1).
  injection H as H. inv_bind H. destruct a as (s2 & edit2).
  cbn [fst snd] in E, H. injection H as <- <-.
  destruct (@revision_loop_keeps_pairs pairs _ Hstep _ _ _ _ _ Hs1 Hedit1 E)
    as (Hs2 & Hedit2).
  split; [exact Hs2|].
  intros i history s Hi Hs.
  destruct (@zip_star_rows _ _ _ _ _ Hi Hs) as (row & Hrow & Hnth).
  rewrite Forall_forall in Hedit2. exact (Hedit2 row Hrow i s Hnth).
Qed.

(* ------------------------------------------------------------------ *)
(** ** [get_partition]: the offsets of the sub-lists *)

Lemma offsets_slices {A : Type} (data : list (list A)) :
  forall (pre : list A) (i : nat) (d : list A),
    nth_error data i = Some d ->
    exists s e,
      nth_error (offsets (length pre) (map (@length A) data)) i = Some (s, e)
      /\ e = s + length d
      /\ slice (pre ++ concat data) s e = d.
Proof.
  induction data as [|d0 data IH]; intros pre i d Hi; [destruct i; discriminate|].
  destruct i as [|i]; cbn [nth_error map offsets concat] in *.
  - injection Hi as <-. exists (length pre), (length pre + length d0).
    split; [reflexivity|]. split; [reflexivity|]. apply slice_middle.
  - destruct (IH (pre ++ d0) i d Hi) as (s & e & Hn & He & Hs).
    rewrite length_app in Hn. rewrite <- app_assoc in Hs.
    exists s, e. auto.
Qed.

Lemma get_partition_nth :
  forall (A : Type) (data : list (list A)) (i : nat) (d : list A),
    nth_error data i = Some d ->
    exists s e,
      nth_error (get_partition data) i = Some (s, e)
      /\ e = s + length d
      /\ slice (concat data) s e = d.
Proof.
  intros A data i d Hi. rewrite get_partition_offsets.
  exact (offsets_slices data [] i Hi).
Qed.


(** X1. Slicing the concatenation of the sub-lists with the [i]-th pair of
    [get_partition] gives back the [i]-th sub-list, and the pair spans as
    many items as the sub-list has. *)
Theorem get_partition_slices :
  forall (A : Type) (data : list (list A)) (i : nat) (d : list A),
    nth_error data i = Some d ->
    exists s e,
      nth_error (get_partition data) i = Some (s, e)
      /\ e = s + length d
      /\ slice (concat data) s e = d.
Proof. exact @get_partition_nth. Qed.

Lemma get_partition_slices_witness :
  exists s e,
    nth_error (get_partition [[1; 2]; []; [3; 4; 5]]) 2 = Some (s, e)
    /\ e = s + 3
    /\ slice (concat [[1; 2]; []; [3; 4; 5]]) s e = [3; 4; 5].
Proof.
  exact (get_partition_slices [[1; 2]; []; [3; 4; 5]] 2 eq_refl).
Defined.

Lemma last_default {A : Type} (l : list A) (x d d' : A) :
  last (x :: l) d = last (x :: l) d'.
Proof.
  revert x; induction l as [|y l IH]; intros x; [reflexivity|].
  cbn [last] in *. apply IH.
Qed.

Lemma offsets_contiguous (lens : list nat) :
  forall (off : nat),
    (forall s e, nth_error (offsets off lens) 0 = Some (s, e) -> s = off)
    /\ (forall i s e s' e',
           nth_error (offsets off lens) i = Some (s, e) ->
           nth_error (offsets off lens) (S i) = Some (s', e') -> s' = e)
    /\ (forall i s e, nth_error (offsets off lens) i = Some (s, e) -> s <= e)
    /\ (forall s e, last (offsets off lens) (off, off) = (s, e) ->
                    e = off + list_sum lens).
Proof.
  induction lens as [|n lens IH]; intros off; cbn [offsets].
  - repeat split.
    + intros s e H. discriminate.
    + intros i s e s' e' H. destruct i; discriminate.
    + intros i s e H. destruct i; discriminate.
    + intros s e H. cbn in H. injection H as <- <-. simpl. lia.
  - destruct (IH (off + n)) as (H0 & Hc & Hle & Hl). repeat split.
    + intros s e H. cbn in H. injection H as <- _. reflexivity.
    + intros i s e s' e' H H'. destruct i as [|i]; cbn [nth_error] in H, H'.
      * injection H as <- <-. exact (H0 _ _ H').
      * exact (Hc _ _ _ _ _ H H').
    + intros i s e H. destruct i as [|i]; cbn [nth_error] in H.
      * injection H as <- <-. lia.
      * exact (Hle _ _ _ H).
    + intros s e H. cbn [list_sum]. destruct lens as [|m lens].
      * cbn in H. injection H as <- <-. simpl. lia.
      * assert (H' : last (offsets (off + n) (m :: lens)) (off + n, off + n) = (s, e)).
        { cbn [offsets last] in H |- *. rewrite <- H.
          destruct (offsets (off + n + m) lens); [reflexivity|].
          apply last_default. }
        specialize (Hl _ _ H'). simpl in Hl |- *. lia.
Qed.

Lemma list_sum_lengths {A : Type} (data : list (list A)) :
  list_sum (map (@length A) data) = length (concat data).
Proof.
  induction data as [|d data IH]; simpl; [reflexivity|].
  rewrite length_app, IH. reflexivity.
Qed.

(** X2. The pairs of [get_partition] tile the concatenation: there is one
    pair per sub-list, the first starts at 0, each next one starts where the
    previous ends, and the last ends at the total number of items. *)
Theorem get_partition_tiles :
  forall (A : Type) (data : list (list A)),
    length (get_partition data) = length data
    /\ (forall s e, nth_error (get_partition data) 0 = Some (s, e) -> s = 0)
    /\ (forall i s e s' e',
           nth_error (get_partition data) i = Some (s, e) ->
           nth_error (get_partition data) (S i) = Some (s', e') -> s' = e)
    /\ (forall i s e, nth_error (get_partition data) i = Some (s, e) -> s <= e)
    /\ (forall s e, last (get_partition data) (0, 0) = (s, e) ->
                    e = length (concat data)).
Proof.
  intros A data. rewrite get_partition_offsets.
  destruct (offsets_contiguous (map (@length A) data) 0) as (H0 & Hc & Hle & Hl).
  split; [rewrite offsets_length; apply length_map|].
  split; [exact H0|]. split; [exact Hc|]. split; [exact Hle|].
  intros s e H. rewrite (Hl _ _ H), list_sum_lengths. reflexivity.
Qed.

(* ------------------------------------------------------------------ *)
(** ** Labels: [input_ids_to_labels] *)

Lemma py_setitem_length {A : Type} (l l' : list A) (i : Z) (v : A) :
  py_setitem l i v = Ok l' -> length l' = length l.
Proof.
  unfold py_setitem. destruct (_ && _)%bool; [|discriminate].
  intros H. injection H as <-. apply list_update_length.
Qed.

Lemma count_labels_update (l : list Z) (q : nat) (v : Z) :
  count_labels (list_update l q v) <= S (count_labels l).
Proof.
  unfold count_labels. revert q; induction l as [|x l IH]; intros q.
  - destruct q; simpl; lia.
  - destruct q as [|q]; cbn [list_update filter].
    + destruct (negb (v =? _)%Z), (negb (x =? _)%Z); cbn [length]; lia.
    + specialize (IH q). destruct (negb (x =? _)%Z); cbn [length]; lia.
Qed.

Lemma count_labels_app (a b : list Z) :
  count_labels (a ++ b) = count_labels a + count_labels b.
Proof.
  unfold count_labels. rewrite filter_app, length_app. reflexivity.
Qed.

Lemma fold_setitem_shape (ps : list (Z * Z)) :
  forall (l0 l : list Z),
    fold_left (fun acc pi => l <- acc ;; py_setitem l (fst pi) (snd pi))
              ps (Ok l0) = Ok l ->
    length l = length l0 /\ count_labels l <= count_labels l0 + length ps.
Proof.
  induction ps as [|pi ps IH]; intros l0 l H; cbn [fold_left] in H.
  - injection H as <-. simpl. lia.
  - cbn [bind] in H. destruct (py_setitem l0 (fst pi) (snd pi)) as [l1|e] eqn:E.
    + destruct (IH _ _ H) as (Hlen & Hcnt).
      pose proof (py_setitem_length _ _ _ E) as Hl1.
      unfold py_setitem in E. destruct (_ && _)%bool; [|discriminate].
      injection E as <-.
      pose proof (count_labels_update l0
                    (Z.to_nat (if (fst pi <? 0)%Z
                               then (fst pi + Z.of_nat (length l0))%Z
                               else fst pi)) (snd pi)).
      cbn [length]. split; lia.
    + exfalso. clear - H. induction ps as [|q ps IH]; [discriminate|].
      cbn [fold_left bind] in H. exact (IH H).
Qed.

Lemma labels_shape :
  forall (self : Prompter) (ids : list Z)
         (label_position label_id : option (list Z)) (lab : list Z),
    input_ids_to_labels self ids label_position label_id = Ok lab ->
    (is_causal self = false \/ ids <> [] -> length lab = length ids)
    /\ (is_causal self = true -> ids = [] -> lab = [PAD_TOKEN_LABEL_ID])
    /\ (forall lp li,
           label_position = Some lp -> label_id = Some li ->
           length lp = length li /\ count_labels lab <= length lp).
Proof.
  intros self ids lp li lab H. unfold input_ids_to_labels in H.
  apply bind_ok in H. destruct H as (label & Hlabel & H).
  apply Ok_inj in H.
  assert (Hshape : length label = length ids
                   /\ forall lp' li', lp = Some lp' -> li = Some li' ->
                        length lp' = length li'
                        /\ count_labels label <= length lp').
  { destruct lp as [lp'|], li as [li'|]; try discriminate.
    - destruct (length lp' =? length li')%nat eqn:El; [|discriminate].
      apply Nat.eqb_eq in El. cbn [negb] in Hlabel.
      apply fold_setitem_shape in Hlabel. destruct Hlabel as (Hlen & Hcnt).
      rewrite repeat_length in Hlen. rewrite count_labels_ignored in Hcnt.
      split; [exact Hlen|]. intros ? ? [= <-] [= <-]. split; [exact El|].
      rewrite length_combine in Hcnt. lia.
    - apply Ok_inj in Hlabel. subst label. rewrite length_map.
      split; [reflexivity|]. intros ? ? [=]. }
  destruct Hshape as (Hlen & Hcnt).
  destruct (is_causal self); subst lab.
  - split; [|split].
    + intros [Hc|Hne]; [discriminate|]. rewrite length_app. cbn [length].
      destruct label as [|x label]; [destruct ids; [contradiction|discriminate]|].
      cbn [tl length] in *. lia.
    + intros _ ->. destruct label; [reflexivity | discriminate].
    + intros lp' li' H1 H2. destruct (Hcnt _ _ H1 H2) as (He & Hc).
      split; [exact He|]. rewrite count_labels_app.
      assert (Htl : count_labels (tl label) <= count_labels label).
      { unfold count_labels. destruct label as [|x label]; [simpl; lia|].
        cbn [tl filter]. destruct (negb _); cbn [length]; lia. }
      unfold count_labels at 2. cbn [filter]. rewrite Z.eqb_refl.
      cbn [negb length]. lia.
  - split; [|split].
    + intros _. exact Hlen.
    + discriminate.
    + exact Hcnt.
Qed.

(** X3. The labels [input_ids_to_labels] returns are as long as the input
    ids (for a causal model: unless the input is empty, where the shift
    leaves one label); with label positions given, the two lists have the
    same length and at most that many labels differ from the ignore index. *)
Theorem input_ids_to_labels_shape :
  forall (self : Prompter) (ids : list Z)
         (label_position label_id : option (list Z)) (lab : list Z),
    input_ids_to_labels self ids label_position label_id = Ok lab ->
    (is_causal self = false \/ ids <> [] -> length lab = length ids)
    /\ (is_causal self = true -> ids = [] -> lab = [PAD_TOKEN_LABEL_ID])
    /\ (forall lp li,
           label_position = Some lp -> label_id = Some li ->
           length lp = length li /\ count_labels lab <= length lp).
Proof. exact @labels_shape. Qed.

Lemma input_ids_to_labels_shape_witness :
  length [(-100); (-100); 5; (-100); (-100)]%Z = length [0; 5; 4; 6; 2]%Z.
Proof.
  refine (proj1 (@input_ids_to_labels_shape (Toy.prompter false 12)
                   [0; 5; 4; 6; 2]%Z (Some [2%Z]) (Some [5%Z])
                   [(-100); (-100); 5; (-100); (-100)]%Z eq_refl)
                (or_introl eq_refl)).
Defined.

(* ------------------------------------------------------------------ *)
(** ** Token-wise masking: [encode_plus] *)

Lemma filter_None_length {A : Type} (xs : list (option A)) :
  length (filter_None xs) <= length xs.
Proof.
  induction xs as [|[x|] xs IH]; simpl; lia.
Qed.

Lemma encode_with_single_mask_id_shape (self : Prompter)
    (token_list : list string) (p : Z) (v : BatchEncoding) :
  is_causal self = false ->
  encode_with_single_mask_id self token_list p = Ok (Some v) ->
  exists lab,
    labels v = Some lab
    /\ length lab = length (input_ids v)
    /\ (Z.of_nat (length (input_ids v)) < max_length self)%Z
    /\ count_labels lab <= 1.
Proof.
  intros Hc H. unfold encode_with_single_mask_id in H.
  apply bind_ok in H. destruct H as (tok & _ & H).
  destruct (_ =? mask_token_id _)%Z; [discriminate|].
  apply bind_ok in H. destruct H as (toks & _ & H).
  destruct (Z.of_nat _ <? max_length self)%Z eqn:Hlt; [|discriminate].
  cbn [negb] in H. apply bind_ok in H. destruct H as (lab & Hlab & H).
  apply Ok_inj in H. injection H as <-. exists lab.
  destruct (labels_shape _ _ _ _ Hlab) as (Hlen & _ & Hcnt).
  cbn [with_labels labels input_ids]. split; [reflexivity|].
  split; [apply Hlen; left; exact Hc|]. split; [apply Z.ltb_lt; exact Hlt|].
  destruct (Hcnt _ _ eq_refl eq_refl) as (_ & Hone). exact Hone.
Qed.

Lemma token_wise_variants :
  forall (self : Prompter) (sentence : string) (vs : list BatchEncoding),
    encode_plus self sentence true = Ok vs ->
    length vs <= length (tokenize (tokenizer self) sentence)
    /\ Forall (fun v =>
                 exists lab,
                   labels v = Some lab
                   /\ length lab = length (input_ids v)
                   /\ (Z.of_nat (length (input_ids v)) < max_length self)%Z
                   /\ count_labels lab <= 1) vs.
Proof.
  intros self sentence vs H. unfold encode_plus in H.
  destruct (is_causal self) eqn:Hc; [discriminate|]. cbn [negb] in H.
  apply bind_ok in H. destruct H as (r & Hr & H). apply Ok_inj in H. subst vs.
  split.
  - pose proof (filter_None_length r) as Hl.
    apply mapM_ok_length in Hr. rewrite Hr in Hl.
    unfold py_range in Hl. rewrite length_map, length_seq in Hl. lia.
  - apply Forall_forall. intros v Hv. apply filter_None_In in Hv.
    destruct (mapM_ok_In _ _ _ Hr Hv) as (p & _ & Hp).
    eapply encode_with_single_mask_id_shape; eauto.
Qed.

(** X4. With token-wise masking [encode_plus] returns at most one encoding
    per token of the sentence; each has fewer than [max_length] ids and
    carries labels of the same length, of which at most one is kept. *)
Theorem encode_plus_token_wise_shape :
  forall (self : Prompter) (sentence : string) (vs : list BatchEncoding),
    encode_plus self sentence true = Ok vs ->
    length vs <= length (tokenize (tokenizer self) sentence)
    /\ Forall (fun v =>
                 exists lab,
                   labels v = Some lab
                   /\ length lab = length (input_ids v)
                   /\ (Z.of_nat (length (input_ids v)) < max_length self)%Z
                   /\ count_labels lab <= 1) vs.
Proof. exact @token_wise_variants. Qed.

Lemma encode_plus_token_wise_shape_witness :
  length [0; 4; 7; 6; 2]%Z = 5
  /\ exists vs, encode_plus (Toy.prompter false 12) "a x b" true = Ok vs
                /\ length vs <= 3.
Proof.
  split; [reflexivity|].
  destruct (encode_plus (Toy.prompter false 12) "a x b" true) as [vs|e] eqn:E;
    [|vm_compute in E; discriminate].
  exists vs. split; [reflexivity|].
  exact (proj1 (encode_plus_token_wise_shape _ _ E)).
Defined.

(* ------------------------------------------------------------------ *)
(** ** [get_perplexity]: result length, division by zero, batch size *)

Lemma mapM_err_uniform {A B : Type} (f : A -> Result B) (l : list A) (e0 : PyError) :
  (forall x, In x l -> (exists y, f x = Ok y) \/ f x = Err e0) ->
  (exists r, mapM f l = Ok r) \/ mapM f l = Err e0.
Proof.
  induction l as [|x l IH]; intros H; cbn [mapM]; [left; eauto|].
  destruct (H x (or_introl eq_refl)) as [(y & ->)| ->]; [|right; reflexivity].
  cbn [bind]. destruct IH as [(r & ->)| ->]; [intros; apply H; right; auto| |];
    [left; eexists; reflexivity | right; reflexivity].
Qed.

Lemma mapM_err_hit {A B : Type} (f : A -> Result B) (l : list A) (e0 : PyError) (x0 : A) :
  (forall x, In x l -> (exists y, f x = Ok y) \/ f x = Err e0) ->
  In x0 l -> f x0 = Err e0 -> mapM f l = Err e0.
Proof.
  intros H Hin Hx0. destruct (mapM_err_uniform f l H) as [(r & Hr)|Hr]; [|exact Hr].
  exfalso. apply mapM_ok_Forall2 in Hr. clear H.
  induction Hr as [|x y l r Hxy _ IH]; [contradiction|].
  destruct Hin as [->|Hin]; [congruence | auto].
Qed.

Lemma mapM_all_ok {A B : Type} (f : A -> Result B) (l : list A) :
  (forall x, In x l -> is_ok (f x) = true) -> exists r, mapM f l = Ok r.
Proof.
  induction l as [|x l IH]; intros H; cbn [mapM]; [eauto|].
  pose proof (H x (or_introl eq_refl)) as Hx.
  destruct (f x); [|discriminate]. cbn [bind].
  destruct IH as (r & ->); [intros; apply H; right; assumption|].
  eexists; reflexivity.
Qed.

Lemma batches_fuel_In {A : Type} (fuel bs : nat) :
  forall (l b : list A) (x : A),
    In b (batches_fuel fuel bs l) -> In x b -> In x l.
Proof.
  induction fuel as [|fuel IH]; intros l b x Hb Hx; cbn [batches_fuel] in Hb;
    [contradiction|].
  destruct l as [|a l]; [contradiction|].
  destruct Hb as [<-|Hb].
  - eapply firstn_In; eauto.
  - specialize (IH _ _ _ Hb Hx). revert IH. generalize (a :: l) as l0.
    clear. intros l0. revert l0. induction bs as [|bs IHb]; intros l0 H;
      [exact H|].
    destruct l0; [contradiction|]. right. apply IHb. exact H.
Qed.

Lemma nll_of_batch_labelled {N : Numeric} (lm : Model N) (b : list BatchEncoding) :
  Forall (fun e => exists lab, labels e = Some lab) b ->
  (exists r, nll_of_batch lm b = Ok r) \/ nll_of_batch lm b = Err ZeroDivisionError.
Proof.
  intros Hb. unfold nll_of_batch.
  assert (Hpop : exists labs, mapM pop_labels b = Ok labs).
  { induction Hb as [|e b (lab & He) _ (labs & IH)]; [exists []; reflexivity|].
    cbn [mapM]. unfold pop_labels at 1. rewrite He. cbn [bind]. rewrite IH.
    eexists; reflexivity. }
  destruct Hpop as (labs & ->). cbn [bind].
  apply mapM_err_uniform. intros x _. cbv zeta.
  destruct (count_labels (snd x)); [right; reflexivity | left; eexists; reflexivity].
Qed.

(** X5. A successful [get_perplexity] returns one perplexity per sentence. *)
Theorem get_perplexity_length :
  forall (N : Numeric) (lm : Model N) (self : Prompter)
         (sentences : list string) (batch_size : Z) (r : list (num N)),
    get_perplexity lm self sentences batch_size = Ok r ->
    length r = length sentences.
Proof.
  intros N lm self sentences bs r H. unfold get_perplexity in H.
  apply bind_ok in H. destruct H as (data & Hdata & H).
  apply bind_ok in H. destruct H as (loader & _ & H).
  apply bind_ok in H. destruct H as (nlls & _ & H).
  apply mapM_ok_length in H. apply mapM_ok_length in Hdata.
  rewrite H. unfold get_partition. rewrite length_map, length_seq, length_map.
  exact Hdata.
Qed.

Lemma get_perplexity_length_witness :
  length [6; 7]%Z = length ["a x b"; "b y"].
Proof.
  refine (@get_perplexity_length Toy.numeric (Toy.toy_model [7; 8]%Z)
            (Toy.prompter false 12) ["a x b"; "b y"] 1 [6; 7]%Z _).
  vm_compute. reflexivity.
Defined.

(* ------------------------------------------------------------------ *)
(** ** The first use of the model *)

(** With the model loaded the methods run their bodies; the first use loads
    it, and fails the assertion of [load_model] on a machine with more than
    one GPU. *)
Lemma on_use_cases {N : Numeric} {A : Type} (self : Prompter)
    (lm hub_lm : Model N) (n_gpu : nat) (body : Model N -> Result A) :
  on_use self (Some lm) hub_lm n_gpu body = body lm
  /\ (n_gpu <= 1 -> on_use self None hub_lm n_gpu body = body hub_lm)
  /\ (1 < n_gpu ->
      on_use self None hub_lm n_gpu body = Err (AssertionError A_n_gpu)).
Proof.
  split; [reflexivity|]. unfold on_use, load_model. cbn [snd].
  split; intros H.
  - apply Nat.leb_le in H. rewrite H. reflexivity.
  - apply Nat.leb_gt in H. rewrite H. reflexivity.
Qed.

(* ------------------------------------------------------------------ *)
(** ** Batches: when the rows stack *)

Lemma same_length_uniform {A : Type} (ls : list (list A)) :
  (forall l1 l2, In l1 ls -> In l2 ls -> length l1 = length l2) ->
  same_length ls = true.
Proof.
  destruct ls as [|l ls]; [reflexivity|]. intros H. cbn [same_length].
  apply forallb_forall. intros l' Hl'. apply Nat.eqb_eq.
  apply H; [right | left]; auto.
Qed.

Lemma same_length_lengths {A B : Type} (ls : list (list A)) (ls' : list (list B)) :
  map (@length A) ls = map (@length B) ls' -> same_length ls = same_length ls'.
Proof.
  destruct ls as [|l ls], ls' as [|l' ls']; try discriminate; [reflexivity|].
  cbn [map same_length]. intros H. injection H as H0 H. rewrite H0.
  revert ls' H. induction ls as [|a ls IH]; intros [|a' ls'] H;
    try discriminate; [reflexivity|].
  cbn [map] in H. injection H as Ha H. cbn [forallb]. rewrite Ha.
  f_equal. apply IH. exact H.
Qed.

Lemma pop_labels_all (b : list BatchEncoding) :
  Forall labelled b ->
  exists labs,
    mapM pop_labels b = Ok labs
    /\ map (@length Z) labs = map (fun e => length (input_ids e)) b.
Proof.
  induction 1 as [|e b (lab & He & Hlen) _ (labs & IH & IHl)].
  - exists []. split; reflexivity.
  - exists (lab :: labs). cbn [mapM map]. unfold pop_labels at 1.
    rewrite He. cbn [bind]. rewrite IH. cbn [bind].
    split; [reflexivity|]. rewrite Hlen, IHl. reflexivity.
Qed.

(** Labelled rows of one shape stack as they are. *)
Lemma collate_labelled (b : list BatchEncoding) :
  Forall labelled b ->
  (forall e1 e2, In e1 b -> In e2 b -> same_shape e1 e2) ->
  default_collate b = Ok b.
Proof.
  intros Hl Hs. destruct b as [|elem b']; [reflexivity|].
  unfold default_collate.
  rewrite same_length_uniform.
  2:{ intros l1 l2 H1 H2. apply in_map_iff in H1, H2.
      destruct H1 as (e1 & <- & H1), H2 as (e2 & <- & H2).
      apply (Hs e1 e2 H1 H2). }
  rewrite same_length_uniform.
  2:{ intros l1 l2 H1 H2. apply in_map_iff in H1, H2.
      destruct H1 as (e1 & <- & H1), H2 as (e2 & <- & H2).
      apply (Hs e1 e2 H1 H2). }
  cbn [negb].
  destruct (pop_labels_all Hl) as (labs & Hpop & Hlen).
  assert (He : exists lab, labels elem = Some lab).
  { inversion Hl as [|? ? (lab & He & _) _]. eauto. }
  destruct He as (lab & ->). rewrite Hpop. cbn [bind].
  rewrite (@same_length_lengths _ _ labs (map input_ids (elem :: b'))).
  - rewrite same_length_uniform; [reflexivity|].
    intros l1 l2 H1 H2. apply in_map_iff in H1, H2.
    destruct H1 as (e1 & <- & H1), H2 as (e2 & <- & H2).
    apply (Hs e1 e2 H1 H2).
  - rewrite Hlen, map_map. reflexivity.
Qed.

Lemma batches_fuel_single {A : Type} (fuel : nat) :
  forall (l b : list A), In b (batches_fuel fuel 1 l) -> exists x, b = [x].
Proof.
  induction fuel as [|fuel IH]; intros l b H; cbn [batches_fuel] in H;
    [contradiction|].
  destruct l as [|a l]; [contradiction|].
  destruct H as [<-|H]; [exists a; reflexivity|].
  cbn [skipn] in H. eauto.
Qed.

(** With a batch size of 1, or rows of one shape, every batch of labelled
    rows stacks. *)
Lemma batches_stack (bs : Z) (fuel : nat) (l b : list BatchEncoding) :
  Forall labelled l -> stackable bs l ->
  In b (batches_fuel fuel (Z.to_nat bs) l) ->
  default_collate b = Ok b.
Proof.
  intros Hl Hst Hb. rewrite Forall_forall in Hl. destruct Hst as [->|Hu].
  - change (Z.to_nat 1) with 1 in Hb.
    destruct (batches_fuel_single _ _ _ Hb) as (x & ->).
    apply collate_labelled.
    + constructor; [|constructor]. apply Hl.
      eapply batches_fuel_In; [exact Hb | left; reflexivity].
    + intros e1 e2 [<-|[]] [<-|[]]. split; reflexivity.
  - apply collate_labelled.
    + apply Forall_forall. intros e He. apply Hl. eapply batches_fuel_In; eauto.
    + intros e1 e2 H1 H2. apply Hu; eapply batches_fuel_In; eauto.
Qed.

Lemma mapM_ok_weaken {A B : Type} (f g : A -> Result B) (l : list A) (r : list B) :
  (forall x y, In x l -> f x = Ok y -> g x = Ok y) ->
  mapM f l = Ok r -> mapM g l = Ok r.
Proof.
  revert r; induction l as [|a l IH]; intros r Hfg H; [exact H|].
  cbn [mapM] in *. apply bind_ok in H. destruct H as (y & Hy & H).
  apply bind_ok in H. destruct H as (ys & Hys & H).
  rewrite (Hfg a y (or_introl eq_refl) Hy). cbn [bind].
  rewrite (IH ys); [exact H | intros; apply Hfg; [right|]; assumption | exact Hys].
Qed.

Lemma variants_labelled (self : Prompter) (sentences : list string)
    (data : list (list BatchEncoding)) :
  mapM (fun x => encode_plus self x true) sentences = Ok data ->
  Forall labelled (concat data).
Proof.
  intros H. apply mapM_ok_Forall2 in H.
  induction H as [|s vs l data Hs _ IH]; [constructor|].
  cbn [concat]. apply Forall_app. split; [|exact IH].
  destruct (token_wise_variants _ _ Hs) as (_ & Hall).
  eapply Forall_impl; [|exact Hall].
  intros v (lab & H1 & H2 & _). exists lab. auto.
Qed.

Section PerSentenceTheorems.

Variable N : Numeric.
Variable lm : Model N.
Variable self : Prompter.

(** Where the loop body returns, the rows of the batch carry labels and the
    losses are those of the rows as they were. *)
Lemma collate_then_nll (rows : list BatchEncoding) (r : list (num N)) :
  (encode_ <- default_collate rows ;; nll_of_batch lm encode_) = Ok r ->
  nll_of_batch lm rows = Ok r.
Proof.
  intros H. apply bind_ok in H. destruct H as (enc & Hc & H).
  destruct rows as [|elem rows'].
  { cbn [default_collate] in Hc. apply Ok_inj in Hc. subst enc. exact H. }
  unfold default_collate in Hc.
  destruct (negb (same_length (map input_ids (elem :: rows')))); [discriminate|].
  destruct (negb (same_length (map attention_mask (elem :: rows'))));
    [discriminate|].
  destruct (labels elem) as [lab|] eqn:El.
  - apply bind_ok in Hc. destruct Hc as (labs & _ & Hc).
    destruct (negb (same_length labs)); [discriminate|].
    apply Ok_inj in Hc. subst enc. exact H.
  - apply Ok_inj in Hc. subst enc. exfalso.
    unfold nll_of_batch in H. cbn [map mapM] in H.
    unfold pop_labels at 1 in H. cbn [with_labels labels bind] in H.
    discriminate.
Qed.

Lemma sentence_perplexity_split (sentences : list string) (r : list (num N)) :
  mapM (sentence_perplexity lm self) sentences = Ok r
  <-> exists data parts,
        mapM (fun x => encode_plus self x true) sentences = Ok data
        /\ mapM (mapM (nll_of_item lm)) data = Ok parts
        /\ mapM (fun ns => perplexity_of_slice ns (0, length ns)) parts = Ok r.
Proof.
  unfold sentence_perplexity. split.
  - intros H.
    assert (Hb : mapM (fun x => y <- (vs <- encode_plus self x true ;;
                                       mapM (nll_of_item lm) vs) ;;
                                perplexity_of_slice y (0, length y)) sentences = Ok r).
    { erewrite mapM_ext_in; [exact H|]. intros x _. simpl.
      destruct (encode_plus self x true); reflexivity. }
    apply mapM_fuse in Hb. apply bind_ok in Hb. destruct Hb as (parts & Hp & Hb).
    apply mapM_fuse in Hp. apply bind_ok in Hp. destruct Hp as (data & Hd & Hp).
    exists data, parts. auto.
  - intros (data & parts & Hd & Hp & H).
    assert (Hp' : (ys <- mapM (fun x => encode_plus self x true) sentences ;;
                   mapM (mapM (nll_of_item lm)) ys) = Ok parts)
      by (rewrite Hd; exact Hp).
    apply mapM_fuse in Hp'.
    assert (Hb : (ys <- mapM (fun x => vs <- encode_plus self x true ;;
                                       mapM (nll_of_item lm) vs) sentences ;;
                  mapM (fun ns => perplexity_of_slice ns (0, length ns)) ys) = Ok r)
      by (rewrite Hp'; exact H).
    apply mapM_fuse in Hb.
    erewrite mapM_ext_in; [exact Hb|]. intros x _. simpl.
    destruct (encode_plus self x true); reflexivity.
Qed.

Lemma parts_lengths (data : list (list BatchEncoding)) (parts : list (list (num N))) :
  mapM (mapM (nll_of_item lm)) data = Ok parts ->
  map (@length BatchEncoding) data = map (@length (num N)) parts.
Proof.
  intros E. apply mapM_ok_Forall2 in E.
  induction E as [|vs ns data parts Hvn _ IH]; simpl; [reflexivity|].
  rewrite IH. f_equal. apply mapM_ok_length in Hvn. symmetry. assumption.
Qed.

Hypothesis Hrow : rowwise lm.

(** What [get_perplexity] returns is, sentence by sentence, the perplexity
    of the sentence scored on its own. *)
Lemma get_perplexity_per_sentence (sentences : list string) (batch_size : Z)
    (r : list (num N)) :
  get_perplexity lm self sentences batch_size = Ok r ->
  mapM (sentence_perplexity lm self) sentences = Ok r.
Proof.
  intros H. apply sentence_perplexity_split.
  unfold get_perplexity in H.
  apply bind_ok in H. destruct H as (data & Hdata & H).
  apply bind_ok in H. destruct H as (loader & Hl & H).
  apply bind_ok in H. destruct H as (nlls & Hn & H).
  unfold data_loader_Z in Hl.
  destruct (batch_size <=? 0)%Z eqn:Eb; [discriminate|]. apply Z.leb_gt in Eb.
  unfold data_loader in Hl.
  destruct (Z.to_nat batch_size) as [|bs'] eqn:Ebs; [lia|].
  apply Ok_inj in Hl. subst loader.
  apply (mapM_ok_weaken _ (nll_of_batch lm)) in Hn;
    [|intros x y _; apply collate_then_nll].
  assert (Hflat : mapM (nll_of_item lm) (concat data) = Ok (concat nlls)).
  { eapply (nll_of_batches Hrow); [| |eauto]; [lia|lia]. }
  rewrite mapM_concat in Hflat.
  apply bind_ok in Hflat. destruct Hflat as (parts & Hp & Hc).
  apply Ok_inj in Hc. exists data, parts. split; [exact Hdata|]. split; [exact Hp|].
  rewrite get_partition_offsets, (parts_lengths _ Hp), <- Hc in H.
  pose proof (@slices_of_concat N parts []) as Hs.
  cbn [app length] in Hs. rewrite Hs in H. exact H.
Qed.

(** Where the rows stack, [get_perplexity] is the sentence-by-sentence
    computation, the exceptions of [math.exp] included. *)
Lemma get_perplexity_stacked (sentences : list string) (batch_size : Z)
    (data : list (list BatchEncoding)) (parts : list (list (num N))) :
  (0 < batch_size)%Z ->
  mapM (fun x => encode_plus self x true) sentences = Ok data ->
  stackable batch_size (concat data) ->
  mapM (mapM (nll_of_item lm)) data = Ok parts ->
  get_perplexity lm self sentences batch_size
  = mapM (fun ns => perplexity_of_slice ns (0, length ns)) parts.
Proof.
  intros Hbs Hdata Hst Hparts. unfold get_perplexity. rewrite Hdata. cbn [bind].
  unfold data_loader_Z, data_loader.
  destruct (batch_size <=? 0)%Z eqn:Eb; [lia|].
  destruct (Z.to_nat batch_size) as [|bs'] eqn:Ebs; [lia|]. cbn [bind].
  rewrite (mapM_ext_in _ (nll_of_batch lm)).
  2:{ intros b Hb. rewrite <- Ebs in Hb.
      rewrite (@batches_stack batch_size _ _ b (variants_labelled _ _ Hdata) Hst Hb).
      reflexivity. }
  assert (Hflat : mapM (nll_of_item lm) (concat data) = Ok (concat parts))
    by (rewrite mapM_concat, Hparts; reflexivity).
  apply (nll_of_batches Hrow (fuel := length (concat data)) (bs := S bs'))
    in Hflat; [|lia|lia].
  destruct Hflat as (nlls & Hn & Hc). rewrite Hn. cbn [bind].
  rewrite get_partition_offsets, Hc, (parts_lengths _ Hparts).
  pose proof (@slices_of_concat N parts []) as Hs.
  cbn [app length] in Hs. exact Hs.
Qed.

End PerSentenceTheorems.

(* ------------------------------------------------------------------ *)
(** ** [get_perplexity] against its documentation *)

Lemma nth_occurrence_lt (v : Z) (l : list Z) :
  forall (k q : nat), nth_occurrence v k l = Some q -> q < length l.
Proof.
  induction l as [|x l IH]; intros k q H; cbn [nth_occurrence] in H;
    [discriminate|].
  cbn [length].
  destruct (x =? v)%Z.
  - destruct k as [|k]; [injection H as <-; lia|].
    destruct (nth_occurrence v k l) as [q'|] eqn:E; [|discriminate].
    injection H as <-. apply IH in E. lia.
  - destruct (nth_occurrence v k l) as [q'|] eqn:E; [|discriminate].
    injection H as <-. apply IH in E. lia.
Qed.

Section SpecTheorems.

Variable N : Numeric.
Variable lm : Model N.
Variable self : Prompter.

Local Abbreviation tk := (tokenizer self).
Local Abbreviation zero := (num_of_Z N 0).

Hypothesis add_0_l : forall x, num_add N zero x = x.
Hypothesis add_0_r : forall x, num_add N x zero = x.
Hypothesis div_1 : forall x, num_div N x (num_of_Z N 1) = x.

Lemma fold_ignored (row : logits lm) (n off : nat) (acc : num N) :
  fold_left (num_add N)
    (map (fun py => if (snd py =? PAD_TOKEN_LABEL_ID)%Z then zero
                    else token_loss lm row (fst py) (snd py))
         (combine (seq off n) (repeat PAD_TOKEN_LABEL_ID n)))
    acc = acc.
Proof.
  revert off acc; induction n as [|n IH]; intros off acc; [reflexivity|].
  cbn [seq repeat combine map fold_left snd]. rewrite Z.eqb_refl, add_0_r. apply IH.
Qed.

Lemma row_loss_single (row : logits lm) (n q : nat) (c : Z) :
  q < n -> c <> PAD_TOKEN_LABEL_ID ->
  row_loss lm row (list_update (repeat PAD_TOKEN_LABEL_ID n) q c)
  = token_loss lm row q c.
Proof.
  intros Hq Hc. unfold row_loss. rewrite list_update_length, repeat_length.
  change q with (0 + q) at 2. generalize 0 as off.
  revert q Hq. induction n as [|n IH]; intros q Hq off; [lia|].
  destruct q as [|q]; cbn [repeat list_update seq combine map fold_left fst snd].
  - destruct (c =? PAD_TOKEN_LABEL_ID)%Z eqn:E; [apply Z.eqb_eq in E; contradiction|].
    rewrite add_0_l, fold_ignored. f_equal. lia.
  - rewrite Z.eqb_refl, add_0_l, IH by lia. f_equal. lia.
Qed.

Hypothesis Hmasked : is_causal self = false.

Lemma encode_variant (token_list : list string) (p : nat) :
  p < length token_list ->
  ((convert_tokens_to_ids tk (nth p token_list EmptyString) =? mask_token_id tk)%Z
   = false ->
   (Z.of_nat (length (input_ids (spec_variant self token_list p)))
    <? max_length self)%Z = true
   /\ (p + length (sp_token_prefix self)
       <? length (input_ids (spec_variant self token_list p)))%nat = true) ->
  encode_with_single_mask_id self token_list (Z.of_nat p)
  = Ok (if (convert_tokens_to_ids tk (nth p token_list EmptyString)
            =? mask_token_id tk)%Z
        then None else Some (code_variant self token_list p)).
Proof.
  intros Hp Hfit. unfold encode_with_single_mask_id.
  rewrite (py_getitem_nat token_list EmptyString Hp). cbn [bind].
  destruct (convert_tokens_to_ids tk (nth p token_list EmptyString)
            =? mask_token_id tk)%Z; [reflexivity|].
  destruct (Hfit eq_refl) as (Hlen & Hpos). unfold spec_variant in Hlen, Hpos.
  cbn [with_labels input_ids] in Hlen, Hpos.
  rewrite (py_setitem_nat token_list (mask_token tk) Hp). cbn [bind].
  rewrite Hlen. cbn [negb].
  unfold input_ids_to_labels. cbn [length Nat.eqb negb combine fold_left fst snd bind].
  rewrite <- Nat2Z.inj_add, py_setitem_nat
    by (rewrite repeat_length; apply Nat.ltb_lt; exact Hpos).
  rewrite Hmasked. reflexivity.
Qed.

Lemma scorable_positions (sentence : string) (p : nat) :
  scorable self sentence = true ->
  In p (spec_positions self (tokenize tk sentence)) ->
  p < length (tokenize tk sentence)
  /\ (convert_tokens_to_ids tk (nth p (tokenize tk sentence) EmptyString)
      =? mask_token_id tk)%Z = false
  /\ convert_tokens_to_ids tk (nth p (tokenize tk sentence) EmptyString)
     <> PAD_TOKEN_LABEL_ID
  /\ (Z.of_nat (length (input_ids (spec_variant self (tokenize tk sentence) p)))
      <? max_length self)%Z = true
  /\ spec_masked_position self (tokenize tk sentence) p
     = Some (p + length (sp_token_prefix self))
  /\ (p + length (sp_token_prefix self)
      <? length (input_ids (spec_variant self (tokenize tk sentence) p)))%nat = true.
Proof.
  unfold scorable. intros Hs Hin.
  apply andb_true_iff in Hs. destruct Hs as (_ & Hall).
  rewrite forallb_forall in Hall. specialize (Hall p Hin).
  apply andb_true_iff in Hall. destruct Hall as (Hall & Hpos).
  apply andb_true_iff in Hall. destruct Hall as (Hpad & Hlen).
  unfold spec_positions in Hin. apply filter_In in Hin. destruct Hin as (Hseq & Hm).
  apply in_seq in Hseq. apply negb_true_iff in Hm, Hpad.
  apply Z.eqb_neq in Hpad.
  destruct (spec_masked_position self (tokenize tk sentence) p) as [q|] eqn:Eq;
    [|discriminate].
  apply Nat.eqb_eq in Hpos. subst q.
  repeat split; auto; [lia|].
  apply Nat.ltb_lt. unfold spec_masked_position in Eq.
  apply nth_occurrence_lt in Eq. exact Eq.
Qed.

Lemma encode_plus_scorable (sentence : string) :
  scorable self sentence = true ->
  encode_plus self sentence true
  = Ok (map (code_variant self (tokenize tk sentence))
            (spec_positions self (tokenize tk sentence))).
Proof.
  intros Hs. unfold encode_plus. rewrite Hmasked. cbn [negb].
  assert (Hfit : (Z.of_nat (length (tokenize tk sentence))
                  <= max_length self - Z.of_nat (length (sp_token_prefix self)))%Z).
  { unfold scorable in Hs. apply andb_true_iff in Hs. destruct Hs as (Hs & _).
    apply andb_true_iff in Hs. destruct Hs as (Hs & _). apply Z.leb_le in Hs.
    exact Hs. }
  rewrite Z.min_r by exact Hfit. rewrite py_range_nat, mapM_map.
  rewrite (mapM_pointwise _
             (fun p => if (convert_tokens_to_ids tk
                             (nth p (tokenize tk sentence) EmptyString)
                           =? mask_token_id tk)%Z
                       then None
                       else Some (code_variant self (tokenize tk sentence) p))).
  - cbn [bind]. rewrite filter_None_cond. reflexivity.
  - intros p Hp. apply in_seq in Hp. apply encode_variant; [lia|].
    intros Hm.
    assert (Hin : In p (spec_positions self (tokenize tk sentence))).
    { unfold spec_positions. apply filter_In. split; [apply in_seq; lia|].
      rewrite Hm. reflexivity. }
    destruct (scorable_positions _ _ Hs Hin) as (_ & _ & _ & H1 & _ & H2). auto.
Qed.

Lemma nll_of_variant (sentence : string) (p : nat) :
  scorable self sentence = true ->
  In p (spec_positions self (tokenize tk sentence)) ->
  nll_of_item lm (code_variant self (tokenize tk sentence) p)
  = Ok (spec_loss lm self (tokenize tk sentence) p).
Proof.
  intros Hs Hin.
  destruct (scorable_positions _ _ Hs Hin) as (_ & _ & Hpad & _ & Hq & Hpos).
  apply Nat.ltb_lt in Hpos. unfold spec_variant in Hpos.
  cbn [with_labels input_ids] in Hpos.
  unfold spec_loss. rewrite Hq.
  unfold nll_of_item, code_variant, pop_labels. cbn [with_labels labels bind].
  rewrite (count_labels_single Hpos Hpad).
  rewrite (row_loss_single _ Hpos Hpad). cbn [Z.of_nat Pos.of_succ_nat].
  rewrite div_1. reflexivity.
Qed.

Lemma sentence_parts_scorable (sentences : list string) :
  forallb (scorable self) sentences = true ->
  mapM (fun x => encode_plus self x true) sentences
  = Ok (map (fun s => map (code_variant self (tokenize tk s))
                          (spec_positions self (tokenize tk s))) sentences)
  /\ mapM (mapM (nll_of_item lm))
          (map (fun s => map (code_variant self (tokenize tk s))
                             (spec_positions self (tokenize tk s))) sentences)
     = Ok (map (fun s => map (spec_loss lm self (tokenize tk s))
                             (spec_positions self (tokenize tk s))) sentences).
Proof.
  intros Hall. rewrite forallb_forall in Hall. split.
  - apply mapM_pointwise. intros s Hs. apply encode_plus_scorable; auto.
  - rewrite mapM_map. apply mapM_pointwise. intros s Hs.
    rewrite mapM_map. apply mapM_pointwise. intros p Hp.
    apply nll_of_variant; auto.
Qed.

Lemma slice_scorable (sentence : string) :
  scorable self sentence = true ->
  perplexity_of_slice
    (map (spec_loss lm self (tokenize tk sentence))
         (spec_positions self (tokenize tk sentence)))
    (0, length (map (spec_loss lm self (tokenize tk sentence))
                    (spec_positions self (tokenize tk sentence))))
  = spec_perplexity lm self sentence.
Proof.
  intros Hs. unfold perplexity_of_slice. cbn [fst snd].
  rewrite slice_all, Nat.sub_0_r, length_map.
  unfold scorable in Hs. apply andb_true_iff in Hs. destruct Hs as (Hs & _).
  apply andb_true_iff in Hs. destruct Hs as (_ & Hne).
  unfold spec_perplexity.
  destruct (spec_positions self (tokenize tk sentence)) as [|p0 ps];
    [discriminate|]. reflexivity.
Qed.

Lemma all_variants_rows (sentences : list string) (e : BatchEncoding) :
  In e (concat (map (fun s => map (code_variant self (tokenize tk s))
                                  (spec_positions self (tokenize tk s)))
                    sentences)) ->
  exists e', In e' (all_variants self sentences)
             /\ input_ids e = input_ids e'
             /\ attention_mask e = attention_mask e'.
Proof.
  intros H. apply in_concat in H. destruct H as (vs & Hvs & He).
  apply in_map_iff in Hvs. destruct Hvs as (s & <- & Hs).
  apply in_map_iff in He. destruct He as (p & <- & Hp).
  exists (spec_variant self (tokenize tk s) p). split.
  - unfold all_variants. apply in_flat_map. exists s. split; [exact Hs|].
    apply in_map. exact Hp.
  - split; reflexivity.
Qed.

End SpecTheorems.




Lemma variants_concat (self : Prompter) (sentences : list string)
    (data : list (list BatchEncoding)) :
  mapM (fun x => encode_plus self x true) sentences = Ok data ->
  concat data = flat_map (variants_of self) sentences.
Proof.
  intros H. apply mapM_ok_Forall2 in H.
  induction H as [|s vs l data Hs _ IH]; [reflexivity|].
  cbn [concat flat_map]. unfold variants_of at 1. rewrite Hs, IH. reflexivity.
Qed.

(** C5. For row-wise inference: what [get_perplexity] returns is the list of
    the sentences' own perplexities, so whenever it returns on a permutation
    of a list it has returned on, the result is the same values permuted the
    same way; and it does return on the permutation when the rows stack
    (the batch size is 1, or all variants have one shape). *)
Theorem get_perplexity_order_invariant :
  forall (N : Numeric) (lm : Model N) (self : Prompter)
         (sentences sentences' : list string) (batch_size batch_size' : Z)
         (r : list (num N)),
    rowwise lm ->
    Permutation sentences sentences' ->
    get_perplexity lm self sentences batch_size = Ok r ->
    r = map (perplexity_value lm self) sentences
    /\ Permutation r (map (perplexity_value lm self) sentences')
    /\ (forall r', get_perplexity lm self sentences' batch_size' = Ok r' ->
                   r' = map (perplexity_value lm self) sentences')
    /\ ((0 < batch_size')%Z ->
        stackable batch_size' (flat_map (variants_of self) sentences') ->
        get_perplexity lm self sentences' batch_size'
        = Ok (map (perplexity_value lm self) sentences')).
Proof.
  intros N lm self l l' bs bs' r Hrow Hperm Hget.
  apply (get_perplexity_per_sentence self Hrow) in Hget.
  assert (Hown : forall s, In s l ->
            sentence_perplexity lm self s = Ok (perplexity_value lm self s)).
  { intros s Hs. apply mapM_ok_Forall2 in Hget. clear - Hget Hs.
    induction Hget as [|s0 x l r Hx _ IH]; [contradiction|].
    destruct Hs as [<-|Hs]; [|auto].
    unfold perplexity_value. rewrite Hx. reflexivity. }
  assert (Hr : r = map (perplexity_value lm self) l).
  { rewrite (mapM_pointwise _ _ _ Hown) in Hget. congruence. }
  assert (Hown' : mapM (sentence_perplexity lm self) l'
                  = Ok (map (perplexity_value lm self) l')).
  { apply mapM_pointwise. intros s Hs. apply Hown.
    eapply Permutation_in; [apply Permutation_sym; exact Hperm | exact Hs]. }
  split; [exact Hr|]. split; [|split].
  - rewrite Hr. apply Permutation_map. exact Hperm.
  - intros r' Hget'. apply (get_perplexity_per_sentence self Hrow) in Hget'.
    congruence.
  - intros Hbs Hst.
    apply sentence_perplexity_split in Hown'.
    destruct Hown' as (data & parts & Hd & Hp & Hs).
    rewrite <- (variants_concat _ _ Hd) in Hst.
    rewrite (@get_perplexity_stacked N lm self Hrow l' bs' data parts Hbs Hd Hst Hp).
    exact Hs.
Qed.

(** C5, where the claim as stated fails: [get_perplexity] returns on a list
    and raises on a permutation of it that puts variants of different
    lengths into one batch. *)
Lemma get_perplexity_order_can_raise :
  get_perplexity (Toy.toy_model [7; 8]%Z) (Toy.prompter false 12)
                 ["a"; "b"; "x y"] 2 = Ok [5; 6; 7]%Z
  /\ Permutation ["a"; "b"; "x y"] ["a"; "x y"; "b"]
  /\ get_perplexity (Toy.toy_model [7; 8]%Z) (Toy.prompter false 12)
                    ["a"; "x y"; "b"] 2 = Err RuntimeError.
Proof.
  split; [vm_compute; reflexivity|].
  split; [apply perm_skip, perm_swap | vm_compute; reflexivity].
Qed.

Lemma get_perplexity_order_invariant_witness :
  [6; 7; 8]%Z
  = map (perplexity_value (Toy.toy_model [7; 8]%Z) (Toy.prompter false 12))
        ["a x"; "b y"; "<mask> y"]
  /\ get_perplexity (Toy.toy_model [7; 8]%Z) (Toy.prompter false 12)
                    ["b y"; "a x"; "<mask> y"] 3
     = Ok (map (perplexity_value (Toy.toy_model [7; 8]%Z) (Toy.prompter false 12))
               ["b y"; "a x"; "<mask> y"])
  /\ get_perplexity (Toy.toy_model [7; 8]%Z) (Toy.prompter false 12)
                    ["b y"; "a x"; "<mask> y"] 3
     = Ok [7; 6; 8]%Z.
Proof.
  pose proof
    (@get_perplexity_order_invariant Toy.numeric (Toy.toy_model [7; 8]%Z)
       (Toy.prompter false 12) ["a x"; "b y"; "<mask> y"]
       ["b y"; "a x"; "<mask> y"] 4 3 [6; 7; 8]%Z
       (toy_model_rowwise _) (perm_swap _ _ _) eq_refl) as (H1 & _ & _ & H4).
  split; [exact H1|]. split; [|vm_compute; reflexivity].
  apply H4; [reflexivity|].
  right. intros e1 e2 He1 He2. vm_compute in He1, He2.
  repeat (destruct He1 as [<-|He1]; [|]);
    try contradiction;
    repeat (destruct He2 as [<-|He2]; [|]);
    try contradiction; split; reflexivity.
Defined.

(* ------------------------------------------------------------------ *)
(** ** [get_perplexity]: division by zero, batch size *)

Lemma mapM_ok_In_fwd {A B : Type} (f : A -> Result B) (xs : list A) (ys : list B)
    (x : A) :
  mapM f xs = Ok ys -> In x xs -> exists y, f x = Ok y /\ In y ys.
Proof.
  intros H Hx. apply mapM_ok_Forall2 in H.
  induction H as [|x0 y0 xs ys Hxy _ IH]; [contradiction|].
  destruct Hx as [<-|Hx].
  - exists y0. split; [exact Hxy | left; reflexivity].
  - destruct (IH Hx) as (y & Hy & Hin). exists y. split; [exact Hy | right; exact Hin].
Qed.

(** A sentence whose tokens are all mask tokens (or that has no token) has
    no variant. *)
Lemma encode_plus_nothing_to_mask (self : Prompter) (sentence : string) :
  is_causal self = false ->
  (forall t, In t (tokenize (tokenizer self) sentence) ->
             convert_tokens_to_ids (tokenizer self) t = mask_token_id (tokenizer self)) ->
  encode_plus self sentence true = Ok [].
Proof.
  intros Hc Hall. unfold encode_plus. rewrite Hc. cbn [negb].
  set (toks := tokenize (tokenizer self) sentence) in *.
  rewrite (mapM_pointwise _ (fun _ => None)).
  - cbn [bind]. induction (py_range 0 _); [reflexivity | assumption].
  - intros p Hp. apply py_range_In in Hp.
    assert (Hlt : Z.to_nat p < length toks) by lia.
    unfold encode_with_single_mask_id.
    replace p with (Z.of_nat (Z.to_nat p)) by lia.
    rewrite (py_getitem_nat toks EmptyString Hlt). cbn [bind].
    rewrite (Hall (nth (Z.to_nat p) toks EmptyString)), Z.eqb_refl;
      [reflexivity | apply nth_In; exact Hlt].
Qed.



Lemma get_perplexity_returns_stacked {N : Numeric} (lm : Model N)
    (self : Prompter) (sentences : list string) (batch_size : Z)
    (r : list (num N)) :
  rowwise lm ->
  (0 < batch_size)%Z ->
  stackable batch_size (flat_map (variants_of self) sentences) ->
  mapM (sentence_perplexity lm self) sentences = Ok r ->
  get_perplexity lm self sentences batch_size = Ok r.
Proof.
  intros Hrow Hbs Hst H. apply sentence_perplexity_split in H.
  destruct H as (data & parts & Hd & Hp & Hs).
  rewrite <- (variants_concat _ _ Hd) in Hst.
  rewrite (@get_perplexity_stacked N lm self Hrow sentences batch_size
             data parts Hbs Hd Hst Hp).
  exact Hs.
Qed.

(** X7. For a row-wise model the list [get_perplexity] returns does not
    depend on the batch size: every batch size with which it returns gives
    the same list, and it returns with every positive batch size for which
    the rows stack (with 1, or when all variants have one shape). *)
Theorem get_perplexity_batch_size :
  forall (N : Numeric) (lm : Model N) (self : Prompter)
         (sentences : list string) (batch_size batch_size' : Z)
         (r : list (num N)),
    rowwise lm ->
    get_perplexity lm self sentences batch_size = Ok r ->
    (forall r', get_perplexity lm self sentences batch_size' = Ok r' -> r' = r)
    /\ ((0 < batch_size')%Z ->
        stackable batch_size' (flat_map (variants_of self) sentences) ->
        get_perplexity lm self sentences batch_size' = Ok r).
Proof.
  intros N lm self sentences bs bs' r Hrow H.
  apply (get_perplexity_per_sentence self Hrow) in H. split.
  - intros r' H'. apply (get_perplexity_per_sentence self Hrow) in H'. congruence.
  - intros Hbs Hst. apply get_perplexity_returns_stacked; assumption.
Qed.

Lemma get_perplexity_batch_size_witness :
  get_perplexity (Toy.toy_model [7; 8]%Z) (Toy.prompter false 12)
                 ["a x b"; "b y"] 1 = Ok [6; 7]%Z
  /\ get_perplexity (Toy.toy_model [7; 8]%Z) (Toy.prompter false 12)
                    ["a x b"; "b y"] 3 = Ok [6; 7]%Z.
Proof.
  destruct (@get_perplexity_batch_size Toy.numeric (Toy.toy_model [7; 8]%Z)
              (Toy.prompter false 12) ["a x b"; "b y"] 3 1 [6; 7]%Z
              (toy_model_rowwise _) eq_refl) as (_ & H2).
  split; [|reflexivity].
  apply H2; [reflexivity | left; reflexivity].
Defined.

(** ** Which exceptions can be raised *)

Lemma bind_err {A B : Type} (c : Result A) (k : A -> Result B) (e : PyError) :
  bind c k = Err e -> c = Err e \/ exists a, c = Ok a /\ k a = Err e.
Proof.
  destruct c as [a|e']; cbn [bind]; intros H; [right; eauto | left; congruence].
Qed.

Lemma mapM_err_In {A B : Type} (f : A -> Result B) (l : list A) (e : PyError) :
  mapM f l = Err e -> exists x, In x l /\ f x = Err e.
Proof.
  induction l as [|x l IH]; cbn [mapM]; [discriminate|]. intros H.
  destruct (f x) as [y|e'] eqn:Ex; cbn [bind] in H.
  - destruct (mapM f l) as [ys|e'']; [discriminate|]. cbn [bind] in H.
    destruct (IH H) as (x' & Hin & Hx'). exists x'. split; [right|]; assumption.
  - exists x. split; [left; reflexivity | congruence].
Qed.

Lemma filterM_err_In {A : Type} (p : A -> Result bool) (l : list A) (e : PyError) :
  filterM p l = Err e -> exists x, In x l /\ p x = Err e.
Proof.
  induction l as [|x l IH]; cbn [filterM]; [discriminate|]. intros H.
  destruct (p x) as [b|e'] eqn:Ex; cbn [bind] in H.
  - destruct (filterM p l) as [ys|e'']; [discriminate|]. cbn [bind] in H.
    destruct (IH H) as (x' & Hin & Hx'). exists x'. split; [right|]; assumption.
  - exists x. split; [left; reflexivity | congruence].
Qed.

Lemma py_nth_err {A : Type} (l : list A) (i : nat) (e : PyError) :
  py_nth l i = Err e -> e = IndexError.
Proof.
  unfold py_nth. destruct (nth_error l i); [discriminate | congruence].
Qed.

Lemma py_getitem_err {A : Type} (l : list A) (i : Z) (e : PyError) :
  py_getitem l i = Err e -> e = IndexError.
Proof.
  unfold py_getitem. destruct (_ && _)%bool; [apply py_nth_err | congruence].
Qed.

Lemma py_setitem_err {A : Type} (l : list A) (i : Z) (v : A) (e : PyError) :
  py_setitem l i v = Err e -> e = IndexError.
Proof.
  unfold py_setitem. destruct (_ && _)%bool; [discriminate | congruence].
Qed.

Lemma encode_plus_errors (self : Prompter) (sentence : string) (b : bool)
    (e : PyError) :
  encode_plus self sentence b = Err e ->
  encode_error e = true
  \/ (b = false /\ contains (mask_token (tokenizer self)) sentence = false
      /\ e = AssertionError A_mask_in_sentence).
Proof.
  unfold encode_plus. destruct (is_causal self) eqn:Hc.
  { intros H. injection H as <-. left; reflexivity. }
  destruct b; cbn [negb].
  - intros H. left. apply bind_err in H. destruct H as [H|(r & _ & H)];
      [|discriminate].
    apply mapM_err_In in H. destruct H as (p & _ & H).
    unfold encode_with_single_mask_id in H.
    apply bind_err in H. destruct H as [H|(tok & _ & H)];
      [apply py_getitem_err in H; subst e; reflexivity|].
    destruct (_ =? mask_token_id _)%Z; [discriminate|].
    apply bind_err in H. destruct H as [H|(toks & _ & H)];
      [apply py_setitem_err in H; subst e; reflexivity|].
    destruct (Z.of_nat _ <? max_length self)%Z; cbn [negb] in H;
      [|injection H as <-; reflexivity].
    apply bind_err in H. destruct H as [H|(lab & _ & H)]; [|discriminate].
    unfold input_ids_to_labels in H.
    apply bind_err in H. destruct H as [H|(lab & _ & H)]; [|discriminate].
    cbn [length Nat.eqb negb combine fold_left fst snd bind] in H.
    apply py_setitem_err in H. subst e. reflexivity.
  - destruct (contains (mask_token (tokenizer self)) sentence) eqn:Hm; cbn [negb].
    + destruct (Z.of_nat _ <? max_length self)%Z; cbn [negb]; [discriminate|].
      intros H. injection H as <-. left; reflexivity.
    + intros H. injection H as <-. right. auto.
Qed.

(** Stacking labelled rows fails only on rows of different lengths. *)
Lemma collate_labelled_errors (b : list BatchEncoding) (e : PyError) :
  Forall labelled b -> default_collate b = Err e -> e = RuntimeError.
Proof.
  intros Hl H. destruct b as [|elem b']; [discriminate|].
  unfold default_collate in H.
  destruct (negb (same_length (map input_ids (elem :: b')))); [congruence|].
  destruct (negb (same_length (map attention_mask (elem :: b')))); [congruence|].
  destruct (pop_labels_all Hl) as (labs & Hpop & _).
  destruct (labels elem); [|discriminate].
  rewrite Hpop in H. cbn [bind] in H.
  destruct (negb (same_length labs)); [congruence | discriminate].
Qed.

(** Where stacking raises [KeyError], the batch holds a row with labels and
    a row without. *)
Lemma collate_errors (b : list BatchEncoding) (e : PyError) :
  default_collate b = Err e ->
  e = RuntimeError
  \/ (e = KeyError
      /\ exists e1 e2, In e1 b /\ In e2 b
                       /\ labels e1 <> None /\ labels e2 = None).
Proof.
  intros H. destruct b as [|elem b']; [discriminate|].
  unfold default_collate in H.
  destruct (negb (same_length (map input_ids (elem :: b'))));
    [left; congruence|].
  destruct (negb (same_length (map attention_mask (elem :: b'))));
    [left; congruence|].
  destruct (labels elem) as [lab|] eqn:El; [|discriminate].
  apply bind_err in H. destruct H as [H|(labs & _ & H)].
  - right. apply mapM_err_In in H. destruct H as (x & Hx & H).
    unfold pop_labels in H. destruct (labels x) eqn:Elx; [discriminate|].
    split; [congruence|]. exists elem, x.
    split; [left; reflexivity|]. split; [exact Hx|]. split; [congruence | exact Elx].
  - left. destruct (negb (same_length labs)); [congruence | discriminate].
Qed.

Lemma get_perplexity_error_cases :
  forall (N : Numeric) (lm : Model N) (self : Prompter)
         (sentences : list string) (batch_size : Z) (e : PyError),
    get_perplexity lm self sentences batch_size = Err e ->
    encode_error e = true
    \/ e = ZeroDivisionError
    \/ e = RuntimeError
    \/ e = OverflowError
    \/ ((batch_size <= 0)%Z /\ e = batch_size_error batch_size).
Proof.
  intros N lm self sentences bs e H. unfold get_perplexity in H.
  apply bind_err in H. destruct H as [H|(data & Hdata & H)].
  { apply mapM_err_In in H. destruct H as (s & _ & H).
    apply encode_plus_errors in H. destruct H as [H|(Hb & _)];
      [left; exact H | discriminate]. }
  apply bind_err in H. destruct H as [H|(loader & Hloader & H)].
  { unfold data_loader_Z in H. destruct (bs <=? 0)%Z eqn:Eb.
    - injection H as <-. do 4 right. split; [lia | reflexivity].
    - unfold data_loader in H. destruct (Z.to_nat bs) eqn:Ez; [lia | discriminate]. }
  right.
  pose proof (variants_labelled _ _ Hdata) as Hlab.
  apply bind_err in H. destruct H as [H|(nlls & _ & H)].
  - apply mapM_err_In in H. destruct H as (b & Hb & H).
    assert (Hbl : Forall labelled b).
    { apply Forall_forall. intros v Hv. rewrite Forall_forall in Hlab. apply Hlab.
      unfold data_loader_Z, data_loader in Hloader.
      destruct (bs <=? 0)%Z; [discriminate|].
      destruct (Z.to_nat bs); [discriminate|]. apply Ok_inj in Hloader. subst loader.
      eapply batches_fuel_In; eauto. }
    apply bind_err in H. destruct H as [H|(enc & Henc & H)].
    + right. left. eapply collate_labelled_errors; eauto.
    + left.
      assert (Hel : Forall (fun v => exists lab, labels v = Some lab) enc).
      { destruct b as [|elem b']; [apply Ok_inj in Henc; subst enc; constructor|].
        unfold default_collate in Henc.
        destruct (negb (same_length (map input_ids (elem :: b'))));
          [discriminate|].
        destruct (negb (same_length (map attention_mask (elem :: b'))));
          [discriminate|].
        assert (He : exists lab, labels elem = Some lab).
        { inversion Hbl as [|? ? (lab & He & _) _]. eauto. }
        destruct He as (lab & He). rewrite He in Henc.
        apply bind_ok in Henc. destruct Henc as (labs & _ & Henc).
        destruct (negb (same_length labs)); [discriminate|].
        apply Ok_inj in Henc. subst enc.
        eapply Forall_impl; [|exact Hbl]. intros v (l & Hv & _). eauto. }
      destruct (@nll_of_batch_labelled N lm enc Hel) as [(r & Hr)|Hr]; congruence.
  - apply mapM_err_In in H. destruct H as (x & _ & H).
    unfold perplexity_of_slice in H.
    destruct (snd x - fst x); [left; congruence|].
    destruct (num_exp N _); [discriminate | right; right; left; congruence].
Qed.



Lemma decode_topk_errors {N : Numeric} (self : Prompter) (head tail : string)
    (inp : list Z) (k : Z) (pos : nat) (ind_ : list Z)
    (likelihood : list (num N)) (e : PyError) :
  decode_topk self head tail inp k pos ind_ likelihood = Err e -> e = IndexError.
Proof.
  unfold decode_topk. intros H.
  apply bind_err in H. destruct H as [H|(v & _ & H)];
    [eapply py_getitem_err; eauto|].
  apply bind_err in H. destruct H as [H|(inp_ & _ & H)];
    [eapply py_setitem_err; eauto|].
  destruct (_ && _)%bool; [|discriminate].
  apply bind_err in H. destruct H as [H|(l & _ & H)];
    [eapply py_getitem_err; eauto | discriminate].
Qed.

Lemma row_candidates_errors {N : Numeric} (self : Prompter) (head tail : string)
    (kp : Z) (inp : list Z) (val : list (list (num N))) (ind : list (list Z))
    (e : PyError) :
  row_candidates self head tail kp inp val ind = Err e -> e = IndexError.
Proof.
  unfold row_candidates. intros H.
  apply bind_err in H. destruct H as [H|(filtered & _ & H)].
  { apply filterM_err_In in H. destruct H as (x & _ & H).
    apply bind_err in H. destruct H as [H|(v & _ & H)];
      [eapply py_nth_err; eauto | discriminate]. }
  apply bind_err in H. destruct H as [H|(r & _ & H)]; [|discriminate].
  apply mapM_err_In in H. destruct H as (x & _ & H).
  apply bind_err in H. destruct H as [H|(d & _ & H)]; [|discriminate].
  apply mapM_err_In in H. destruct H as (k & _ & H).
  eapply decode_topk_errors; eauto.
Qed.

Lemma process_single_sentence_errors {N : Numeric} (self : Prompter)
    (word_pairs : list (list string)) (partition : list (nat * nat))
    (total_input : list (list Z)) (total_val : list (list (list (num N))))
    (total_ind : list (list (list Z))) (k kp : Z) (n : nat) (e : PyError) :
  process_single_sentence self word_pairs partition total_input total_val
                          total_ind k kp n = Err e ->
  e = IndexError \/ exists msg, e = ValueError msg.
Proof.
  unfold process_single_sentence. intros H.
  apply bind_err in H. destruct H as [H|(wp & _ & H)];
    [left; eapply py_nth_err; eauto|].
  apply bind_err in H. destruct H as [H|(ht & _ & H)].
  { right. destruct wp as [|h [|t [|? ?]]]; try discriminate;
      injection H as <-; eauto. }
  apply bind_err in H. destruct H as [H|(se & _ & H)];
    [left; eapply py_nth_err; eauto|].
  apply bind_err in H. destruct H as [H|(r & _ & H)]; [|discriminate].
  left. apply mapM_err_In in H. destruct H as (i & _ & H).
  apply bind_err in H. destruct H as [H|(inp & _ & H)];
    [eapply py_nth_err; eauto|].
  apply bind_err in H. destruct H as [H|(val & _ & H)];
    [eapply py_nth_err; eauto|].
  apply bind_err in H. destruct H as [H|(ind & _ & H)];
    [eapply py_nth_err; eauto|].
  eapply row_candidates_errors; eauto.
Qed.

Lemma best_edit_errors {N : Numeric} (lm : Model N) (self : Prompter)
    (pf : bool) (filling : list (list string)) (e : PyError) :
  best_edit lm self pf filling = Err e ->
  encode_error e = true
  \/ e = ZeroDivisionError \/ e = RuntimeError \/ e = OverflowError
  \/ exists msg, e = ValueError msg.
Proof.
  intros H. unfold best_edit in H. destruct pf.
  - apply mapM_err_In in H. destruct H as (sent & _ & H).
    apply bind_err in H. destruct H as [H|(ppl & _ & H)].
    + apply get_perplexity_error_cases in H.
      destruct H as [H|[->|[->|[->|(_ & ->)]]]]; auto.
      do 4 right. unfold batch_size_error. eauto.
    + unfold pick_min_perplexity in H.
      apply bind_err in H. destruct H as [H|(m & _ & H)].
      { unfold py_min in H.
        destruct ppl; [injection H as <-; do 4 right; eauto | discriminate]. }
      apply bind_err in H. destruct H as [H|(i & _ & H)].
      { clear - H. induction ppl as [|x ppl IH]; cbn [py_index] in H;
          [injection H as <-; do 4 right; eauto|].
        destruct (num_eqb N x m); [discriminate|].
        apply bind_err in H. destruct H as [H|(j & _ & H)];
          [exact (IH H) | discriminate]. }
      apply py_nth_err in H. subst e. left. reflexivity.
  - apply mapM_err_In in H. destruct H as (x & _ & H).
    apply py_nth_err in H. subst e. left. reflexivity.
Qed.

(** Where the rows of [replace_single_mask] come from: a sentence with a
    mask token gives the tokenizer's encoding of the sentence, a sentence
    without gives labelled rows. *)
Lemma seed_rows (self : Prompter) (seeds : list string)
    (data : list (list BatchEncoding)) (e : BatchEncoding) :
  mapM (fun x => encode_plus self x
                   (negb (contains (mask_token (tokenizer self)) x)))
       seeds = Ok data ->
  In e (concat data) ->
  exists s,
    In s seeds
    /\ ((contains (mask_token (tokenizer self)) s = true
         /\ e = tk_encode_plus (tokenizer self) (max_length self) s)
        \/ (contains (mask_token (tokenizer self)) s = false /\ labelled e)).
Proof.
  intros Hdata He. apply in_concat in He. destruct He as (vs & Hvs & He).
  destruct (mapM_ok_In _ _ _ Hdata Hvs) as (s & Hs & Henc).
  exists s. split; [exact Hs|].
  destruct (contains (mask_token (tokenizer self)) s) eqn:Hm; cbn [negb] in Henc.
  - left. split; [reflexivity|]. unfold encode_plus in Henc.
    destruct (is_causal self); [discriminate|]. cbn [negb] in Henc.
    rewrite Hm in Henc. cbn [negb] in Henc.
    destruct (negb _); [discriminate|]. apply Ok_inj in Henc. subst vs.
    destruct He as [<-|[]]. reflexivity.
  - right. split; [reflexivity|].
    destruct (token_wise_variants _ _ Henc) as (_ & Hall).
    rewrite Forall_forall in Hall. destruct (Hall e He) as (lab & H1 & H2 & _).
    exists lab. auto.
Qed.

Lemma greedy_filling_error_cases {N : Numeric} (lm : Model N) (self : Prompter)
    (seeds : list string) (wps : list (list string)) (bs k kp : Z) (e : PyError) :
  greedy_filling lm self seeds wps bs k kp = Err e ->
  e = AssertionError A_seed_pairs_length
  \/ encode_error e = true
  \/ (exists msg, e = ValueError msg)
  \/ e = RuntimeError
  \/ (e = KeyError
      /\ bs <> 1%Z
      /\ exists data e1 e2,
           mapM (fun x => encode_plus self x
                            (negb (contains (mask_token (tokenizer self)) x)))
                seeds = Ok data
           /\ In e1 (concat data) /\ In e2 (concat data)
           /\ labels e1 <> None /\ labels e2 = None).
Proof.
  intros H. unfold greedy_filling in H.
  destruct (length seeds =? length wps)%nat eqn:El; cbn [negb] in H;
    [|injection H as <-; left; reflexivity].
  apply Nat.eqb_eq in El. right.
  apply bind_err in H. destruct H as [H|(data & Hdata & H)].
  { apply mapM_err_In in H. destruct H as (s & _ & H).
    apply encode_plus_errors in H. destruct H as [H|(Hb & Hm & _)].
    - left. exact H.
    - rewrite Hm in Hb. discriminate. }
  apply bind_err in H. destruct H as [H|(loader & Hloader & H)].
  { right. left. unfold data_loader_Z in H. destruct (bs <=? 0)%Z.
    - injection H as <-. unfold batch_size_error. eauto.
    - unfold data_loader in H. destruct (Z.to_nat bs);
        [injection H as <-; unfold batch_size_error; eauto | discriminate]. }
  assert (Hp : length wps = length (get_partition data)).
  { unfold get_partition. rewrite length_map, length_seq, length_map.
    apply mapM_ok_length in Hdata. congruence. }
  apply Nat.eqb_eq in Hp. rewrite Hp in H. cbn [negb] in H.
  apply bind_err in H. destruct H as [H|(batches & _ & H)].
  - right. right. apply mapM_err_In in H. destruct H as (b & Hb & H).
    apply collate_errors in H.
    destruct H as [->|(-> & e1 & e2 & H1 & H2 & Hl1 & Hl2)]; [left; reflexivity|].
    right. split; [reflexivity|].
    unfold data_loader_Z, data_loader in Hloader.
    destruct (bs <=? 0)%Z; [discriminate|].
    destruct (Z.to_nat bs) as [|n] eqn:En; [discriminate|].
    apply Ok_inj in Hloader. subst loader.
    split.
    + intros ->. change (Z.to_nat 1) with 1 in En. injection En as <-.
      destruct (batches_fuel_single _ _ _ Hb) as (x & ->).
      destruct H1 as [<-|[]], H2 as [<-|[]]. congruence.
    + exists data, e1, e2. split; [exact Hdata|].
      split; [eapply batches_fuel_In; eauto|].
      split; [eapply batches_fuel_In; eauto|]. auto.
  - apply mapM_err_In in H. destruct H as (n & _ & H).
    apply process_single_sentence_errors in H.
    destruct H as [->|(msg & ->)]; [left; reflexivity | right; left; eauto].
Qed.

(** X9. For a list of seed sentences, [replace_single_mask] never trips its
    second assertion (as many partitions as word pairs), the mask-presence
    assertion of [encode_plus] or the label-length assertion of
    [input_ids_to_labels].  With a tokenizer whose encodings carry no
    labels, it raises [KeyError] only when the batch size is not 1 and the
    list mixes sentences with and without a mask token: a batch then starts
    with a labelled row and holds a row without labels. *)
Theorem replace_single_mask_errors :
  forall (N : Numeric) (lm : Model N) (self : Prompter)
         (seed_sentences : list string) (word_pairs : list (list string))
         (batch_size topk_ topk_per_position : Z) (perplexity_filter : bool)
         (e : PyError),
    replace_single_mask lm self seed_sentences word_pairs batch_size topk_
                        topk_per_position perplexity_filter = Err e ->
    e <> AssertionError A_partition_length
    /\ e <> AssertionError A_mask_in_sentence
    /\ e <> AssertionError A_label_length
    /\ ((forall s, labels (tk_encode_plus (tokenizer self) (max_length self) s)
                   = None) ->
        e = KeyError ->
        batch_size <> 1%Z
        /\ exists s1 s2,
             In s1 seed_sentences /\ In s2 seed_sentences
             /\ contains (mask_token (tokenizer self)) s1 = false
             /\ contains (mask_token (tokenizer self)) s2 = true).
Proof.
  intros N lm self seeds wps bs k kp pf e H.
  unfold replace_single_mask in H.
  apply bind_err in H. destruct H as [H|(filling & _ & H)].
  - apply greedy_filling_error_cases in H.
    destruct H as [->|[H|[(msg & ->)|[->|(-> & Hbs & data & e1 & e2 & Hdata
                                          & H1 & H2 & Hl1 & Hl2)]]]].
    + (split; [discriminate|]); (split; [discriminate|]);
        (split; [discriminate|]); intros _ Hk; discriminate.
    + destruct e as [a| | | | | | | | |]; try discriminate;
        try (destruct a; try discriminate);
        (split; [discriminate|]); (split; [discriminate|]);
        (split; [discriminate|]); intros _ Hk; discriminate.
    + (split; [discriminate|]); (split; [discriminate|]);
        (split; [discriminate|]); intros _ Hk; discriminate.
    + (split; [discriminate|]); (split; [discriminate|]);
        (split; [discriminate|]); intros _ Hk; discriminate.
    + (split; [discriminate|]); (split; [discriminate|]);
        (split; [discriminate|]). intros Hunl _. split; [exact Hbs|].
      destruct (@seed_rows self seeds data e1 Hdata H1) as (s1 & Hs1 & [(_ & He1)|(Hm1 & _)]).
      { subst e1. rewrite Hunl in Hl1. contradiction. }
      destruct (@seed_rows self seeds data e2 Hdata H2)
        as (s2 & Hs2 & [(Hm2 & _)|(_ & (lab & Hl & _))]); [|congruence].
      exists s1, s2. auto.
  - apply best_edit_errors in H.
    destruct H as [H|[->|[->|[->|(msg & ->)]]]];
      try ((split; [discriminate|]); (split; [discriminate|]);
           (split; [discriminate|]); intros _ Hk; discriminate).
    destruct e as [a| | | | | | | | |]; try discriminate;
      try (destruct a; try discriminate);
      (split; [discriminate|]); (split; [discriminate|]);
      (split; [discriminate|]); intros _ Hk; discriminate.
Qed.

Lemma replace_single_mask_errors_witness :
  replace_single_mask (Toy.toy_model [7; 8]%Z) (Toy.prompter false 12)
                      ["a x b"; "a <mask> b"] [["a"; "b"]; ["a"; "b"]]
                      4 5 2 true = Err KeyError
  /\ exists s1 s2,
       In s1 ["a x b"; "a <mask> b"] /\ In s2 ["a x b"; "a <mask> b"]
       /\ contains "<mask>" s1 = false /\ contains "<mask>" s2 = true.
Proof.
  split; [vm_compute; reflexivity|].
  destruct (@replace_single_mask_errors Toy.numeric (Toy.toy_model [7; 8]%Z)
              (Toy.prompter false 12) ["a x b"; "a <mask> b"]
              [["a"; "b"]; ["a"; "b"]] 4 5 2 true KeyError)
    as (_ & _ & _ & H).
  - vm_compute. reflexivity.
  - destruct (H (fun _ => eq_refl) eq_refl) as (_ & Hex). exact Hex.
Defined.

(** ** Batches and candidates in [replace_single_mask] *)

Lemma batches_fuel_concat {A : Type} (fuel bs : nat) :
  0 < bs ->
  forall (l : list A), length l <= fuel -> concat (batches_fuel fuel bs l) = l.
Proof.
  intros Hbs. induction fuel as [|fuel IH]; intros l Hl.
  - destruct l; [reflexivity | simpl in Hl; lia].
  - destruct l as [|a l0]; [reflexivity|].
    cbn [batches_fuel concat]. rewrite IH.
    + apply firstn_skipn.
    + rewrite length_skipn. cbn [length] in *. lia.
Qed.

Lemma map_seq_rows {A B : Type} (g : nat -> B) (h : A -> B) (b : list A) :
  forall (o : nat),
    (forall i e, nth_error b i = Some e -> g (o + i) = h e) ->
    map g (seq o (length b)) = map h b.
Proof.
  induction b as [|x b IH]; intros o H; [reflexivity|].
  cbn [length seq map]. f_equal.
  - rewrite <- (H 0 x eq_refl). f_equal. lia.
  - apply IH. intros i e Hi. rewrite <- (H (S i) e Hi). f_equal. lia.
Qed.

(** Stacking keeps the rows, up to their labels. *)
Lemma collate_rows (b bc : list BatchEncoding) :
  default_collate b = Ok bc ->
  map (fun e => with_labels e None) bc = map (fun e => with_labels e None) b.
Proof.
  intros H. destruct b as [|elem b']; [apply Ok_inj in H; subst bc; reflexivity|].
  unfold default_collate in H.
  destruct (negb (same_length (map input_ids (elem :: b')))); [discriminate|].
  destruct (negb (same_length (map attention_mask (elem :: b')))); [discriminate|].
  destruct (labels elem).
  - apply bind_ok in H. destruct H as (labs & _ & H).
    destruct (negb (same_length labs)); [discriminate|].
    apply Ok_inj in H. subst bc. reflexivity.
  - apply Ok_inj in H. subst bc. rewrite map_map. reflexivity.
Qed.

(** A batch of one row always stacks. *)
Lemma collate_single (e : BatchEncoding) :
  exists bc, default_collate [e] = Ok bc.
Proof.
  unfold default_collate. cbn [map same_length forallb negb].
  destruct (labels e) as [lab|] eqn:El; [|eexists; reflexivity].
  cbn [mapM]. unfold pop_labels. rewrite El. cbn [bind same_length forallb negb].
  eexists; reflexivity.
Qed.

Section BatchSize.

Variable N : Numeric.
Variable lm : Model N.
Variable self : Prompter.
Hypothesis Hrow : rowwise lm.
Hypothesis Hblind : labels_blind lm.

(** The logits of a row of a stacked batch are those of the row alone,
    without its labels. *)
Lemma forward_row (bc : list BatchEncoding) (i : nat) (e : BatchEncoding) :
  nth_error bc i = Some e ->
  forward lm bc i = forward lm [with_labels e None] 0.
Proof.
  intros Hi. rewrite (Hrow bc i Hi).
  symmetry. exact (Hblind [e] 0).
Qed.

Lemma collated_outputs (topk_per_position : Z)
    (loader batches : list (list BatchEncoding)) :
  mapM default_collate loader = Ok batches ->
  concat (map (map input_ids) batches) = map input_ids (concat loader)
  /\ concat
       (map (fun encode_ =>
               map (fun i => topk lm topk_per_position (forward lm encode_ i))
                   (seq 0 (length encode_)))
            batches)
     = map (fun e => topk lm topk_per_position
                       (forward lm [with_labels e None] 0))
           (concat loader).
Proof.
  intros H. apply mapM_ok_Forall2 in H.
  induction H as [|b bc loader batches Hb _ (IH1 & IH2)]; [split; reflexivity|].
  apply collate_rows in Hb.
  cbn [map concat]. rewrite !map_app, IH1, IH2. split; f_equal.
  - change (map input_ids bc)
      with (map (fun e => input_ids e) bc).
    transitivity (map input_ids (map (fun e => with_labels e None) bc));
      [rewrite map_map; reflexivity|].
    rewrite Hb, map_map. reflexivity.
  - rewrite (@map_seq_rows _ _ _
               (fun e => topk lm topk_per_position
                           (forward lm [with_labels e None] 0)) bc 0).
    + transitivity
        (map (fun e => topk lm topk_per_position (forward lm [e] 0))
             (map (fun e => with_labels e None) bc));
        [rewrite map_map; reflexivity|].
      rewrite Hb, map_map. reflexivity.
    + intros i e Hi. cbn [Nat.add]. rewrite (@forward_row bc i e Hi). reflexivity.
Qed.

(** What [greedy_filling] returns with some batch size, it returns with a
    batch size of 1. *)
Lemma greedy_filling_batch_size
    (seed_sentences : list string) (word_pairs : list (list string))
    (batch_size topk_ topk_per_position : Z) (filling : list (list string)) :
  greedy_filling lm self seed_sentences word_pairs batch_size topk_
                 topk_per_position = Ok filling ->
  greedy_filling lm self seed_sentences word_pairs 1 topk_
                 topk_per_position = Ok filling.
Proof.
  intros H. unfold greedy_filling in *.
  destruct (negb (length seed_sentences =? length word_pairs)%nat);
    [discriminate|].
  destruct (mapM _ seed_sentences) as [data|e]; [|discriminate].
  cbn [bind] in *.
  apply bind_ok in H. destruct H as (loader & Hl & H).
  change (data_loader_Z 1 (concat data))
    with (Ok (batches_fuel (length (concat data)) 1 (concat data))).
  cbn [bind].
  destruct (negb (length word_pairs =? length (get_partition data))%nat);
    [discriminate|].
  apply bind_ok in H. destruct H as (batches & Hc & H).
  destruct (@mapM_all_ok _ _ default_collate
              (batches_fuel (length (concat data)) 1 (concat data)))
    as (batches1 & Hc1).
  { intros b Hb. destruct (batches_fuel_single _ _ _ Hb) as (x & ->).
    destruct (collate_single x) as (bc & ->). reflexivity. }
  rewrite Hc1. cbn [bind].
  destruct (collated_outputs topk_per_position _ Hc) as (Hin & Hout).
  destruct (collated_outputs topk_per_position _ Hc1) as (Hin1 & Hout1).
  assert (Hflat : concat loader = concat data).
  { unfold data_loader_Z, data_loader in Hl.
    destruct (batch_size <=? 0)%Z; [discriminate|].
    destruct (Z.to_nat batch_size) as [|n]; [discriminate|].
    apply Ok_inj in Hl. subst loader. apply batches_fuel_concat; lia. }
  assert (Hflat1 : concat (batches_fuel (length (concat data)) 1 (concat data))
                   = concat data) by (apply batches_fuel_concat; lia).
  rewrite Hin, <- !concat_map, Hout, Hflat in H.
  rewrite Hin1, <- !concat_map, Hout1, Hflat1.
  exact H.
Qed.

End BatchSize.

(** X10. For a row-wise model whose logits do not depend on the labels of
    the rows: what [replace_single_mask] returns with some batch size it
    also returns with a batch size of 1, so every two batch sizes with which
    it returns give the same sentences. *)
Theorem replace_single_mask_batch_size :
  forall (N : Numeric) (lm : Model N) (self : Prompter)
         (seed_sentences : list string) (word_pairs : list (list string))
         (batch_size batch_size' topk_ topk_per_position : Z)
         (perplexity_filter : bool) (out : list string),
    rowwise lm ->
    labels_blind lm ->
    replace_single_mask lm self seed_sentences word_pairs batch_size topk_
                        topk_per_position perplexity_filter = Ok out ->
    replace_single_mask lm self seed_sentences word_pairs 1 topk_
                        topk_per_position perplexity_filter = Ok out
    /\ (forall out',
          replace_single_mask lm self seed_sentences word_pairs batch_size'
                              topk_ topk_per_position perplexity_filter
          = Ok out' ->
          out' = out).
Proof.
  intros N lm self seeds wps bs bs' k kp pf out Hrow Hblind H.
  assert (Hone : forall b o,
            replace_single_mask lm self seeds wps b k kp pf = Ok o ->
            replace_single_mask lm self seeds wps 1 k kp pf = Ok o).
  { intros b o Hb. unfold replace_single_mask in *.
    apply bind_ok in Hb. destruct Hb as (filling & Hf & Hb).
    rewrite (greedy_filling_batch_size self Hrow Hblind _ _ _ _ _ Hf).
    exact Hb. }
  split; [exact (Hone _ _ H)|].
  intros out' H'. apply Hone in H, H'. congruence.
Qed.

Lemma toy_model_labels_blind (ranking : list Z) :
  labels_blind (Toy.toy_model ranking).
Proof.
  intros batch i. simpl. rewrite map_map. reflexivity.
Qed.

Lemma replace_single_mask_batch_size_witness :
  replace_single_mask (Toy.toy_model [7; 8]%Z) (Toy.prompter false 12)
                      ["a <mask> b"; "x <mask> y"]
                      [["a"; "b"]; ["x"; "y"]] 1 5 2 true
  = Ok ["a x b "; "x x y "].
Proof.
  refine (proj1 (@replace_single_mask_batch_size Toy.numeric
                   (Toy.toy_model [7; 8]%Z) (Toy.prompter false 12)
                   ["a <mask> b"; "x <mask> y"] [["a"; "b"]; ["x"; "y"]]
                   4 2 5 2 true ["a x b "; "x x y "]
                   (toy_model_rowwise _) (toy_model_labels_blind _) _)).
  vm_compute. reflexivity.
Defined.

Lemma py_take_length {A : Type} (l : list A) (n : Z) :
  (0 <= n)%Z -> (Z.of_nat (length (py_take l n)) <= n)%Z.
Proof.
  intros Hn. unfold py_take. destruct (n <? 0)%Z eqn:E; [lia|].
  rewrite length_firstn. lia.
Qed.

(** X11. Every candidate list [replace_single_mask] selects from holds at
    most [topk] sentences (for a [topk] that is not negative). *)
Theorem greedy_filling_topk :
  forall (N : Numeric) (lm : Model N) (self : Prompter)
         (seed_sentences : list string) (word_pairs : list (list string))
         (batch_size topk_ topk_per_position : Z)
         (filling : list (list string)),
    (0 <= topk_)%Z ->
    greedy_filling lm self seed_sentences word_pairs batch_size topk_
                   topk_per_position = Ok filling ->
    Forall (fun cands => (Z.of_nat (length cands) <= topk_)%Z) filling.
Proof.
  intros N lm self seeds wps bs k kp filling Hk H. unfold greedy_filling in H.
  destruct (negb (length seeds =? length wps)%nat); [discriminate|].
  apply bind_ok in H. destruct H as (data & _ & H).
  apply bind_ok in H. destruct H as (loader & _ & H).
  destruct (negb (length wps =? length (get_partition data))%nat); [discriminate|].
  apply bind_ok in H. destruct H as (batches & _ & H).
  apply Forall_forall. intros cands Hc.
  destruct (mapM_ok_In _ _ _ H Hc) as (n & _ & Hn).
  unfold process_single_sentence in Hn.
  apply bind_ok in Hn. destruct Hn as (wp & _ & Hn).
  apply bind_ok in Hn. destruct Hn as (ht & _ & Hn).
  apply bind_ok in Hn. destruct Hn as (se & _ & Hn).
  apply bind_ok in Hn. destruct Hn as (r & _ & Hn).
  apply Ok_inj in Hn. subst cands.
  match goal with
  | |- (Z.of_nat (length (py_take ?l ?n)) <= _)%Z =>
      pose proof (@py_take_length _ l n) as Hl
  end.
  lia.
Qed.

Lemma greedy_filling_topk_witness :
  Forall (fun cands => (Z.of_nat (length cands) <= 3)%Z)
         [["a x <mask> b "; "a <mask> x b "; "a y <mask> b "]].
Proof.
  refine (@greedy_filling_topk Toy.numeric (Toy.toy_model [7; 8]%Z)
            (Toy.prompter false 12) ["a <mask> <mask> b"] [["a"; "b"]] 4 3 2
            _ _ _).
  - discriminate.
  - vm_compute. reflexivity.
Defined.

Lemma skipn_nth_error {A : Type} (l : list A) (o : nat) (v : A) :
  nth_error l o = Some v -> skipn o l = v :: skipn (S o) l.
Proof.
  revert o; induction l as [|x l IH]; intros [|o] H; try discriminate.
  - injection H as ->. reflexivity.
  - cbn [skipn]. rewrite (IH o H). reflexivity.
Qed.

Lemma concat_length_bound {A : Type} (K : nat) (ls : list (list A)) :
  Forall (fun l => length l <= K) ls -> length (concat ls) <= length ls * K.
Proof.
  induction 1 as [|l ls Hl _ IH]; cbn [concat length]; [lia|].
  rewrite length_app. lia.
Qed.

Lemma mask_filter_length {N : Numeric} (self : Prompter) (inp : list Z) (n : nat) :
  forall (o : nat) (cs : list (list (num N) * list Z))
         (r : list (nat * (list (num N) * list Z))),
    filterM (fun x => v <- py_nth inp (fst x) ;;
                      Ok (v =? mask_token_id (tokenizer self))%Z)
            (combine (seq o n) cs) = Ok r ->
    length r <= mask_positions self (skipn o inp).
Proof.
  induction n as [|n IH]; intros o cs r H.
  - cbn in H. injection H as <-. simpl. lia.
  - destruct cs as [|c cs]; [cbn in H; injection H as <-; simpl; lia|].
    cbn [seq combine filterM fst] in H.
    apply bind_ok in H. destruct H as (b & Hb & H).
    apply bind_ok in H. destruct H as (r' & Hr' & H). apply Ok_inj in H.
    apply bind_ok in Hb. destruct Hb as (v & Hv & Hb). apply Ok_inj in Hb.
    unfold py_nth in Hv. destruct (nth_error inp o) as [v'|] eqn:Ev; [|discriminate].
    apply Ok_inj in Hv. subst v'.
    rewrite (skipn_nth_error _ _ Ev). unfold mask_positions in *.
    cbn [filter]. specialize (IH _ _ _ Hr'). subst r b.
    destruct (v =? mask_token_id (tokenizer self))%Z; cbn [length]; lia.
Qed.

(** X12. One row of the inference output contributes at most
    [topk_per_position] candidates per position that holds the mask token
    id, and none if no position does. *)
Theorem row_candidates_bound :
  forall (N : Numeric) (self : Prompter) (head tail : string)
         (topk_per_position : Z) (inp : list Z)
         (val : list (list (num N))) (ind : list (list Z))
         (cands : list (string * num N)),
    row_candidates self head tail topk_per_position inp val ind = Ok cands ->
    length cands <= mask_positions self inp * Z.to_nat topk_per_position.
Proof.
  intros N self head tail kp inp val ind cands H. unfold row_candidates in H.
  apply bind_ok in H. destruct H as (filtered & Hf & H).
  apply bind_ok in H. destruct H as (r & Hr & H). apply Ok_inj in H. subst cands.
  apply mask_filter_length in Hf. cbn [skipn] in Hf.
  assert (Hall : Forall (fun l => length l <= Z.to_nat kp) r).
  { apply Forall_forall. intros l Hl.
    destruct (mapM_ok_In _ _ _ Hr Hl) as (x & _ & Hx).
    apply bind_ok in Hx. destruct Hx as (d & Hd & Hx). apply Ok_inj in Hx. subst l.
    pose proof (filter_None_length d) as Hle.
    apply mapM_ok_length in Hd. rewrite Hd in Hle.
    unfold py_range in Hle. rewrite length_map, length_seq in Hle. lia. }
  apply concat_length_bound in Hall.
  apply mapM_ok_length in Hr. rewrite Hr in Hall. nia.
Qed.

Lemma row_candidates_bound_witness :
  exists cands,
    row_candidates (N := Toy.numeric) (Toy.prompter false 12) "a" "b" 2
                   [0; 5; 4; 6; 2]%Z
                   (fst (Toy.toy_topk [7; 8]%Z 2 [0; 5; 4; 6; 2]%Z))
                   (snd (Toy.toy_topk [7; 8]%Z 2 [0; 5; 4; 6; 2]%Z))
    = Ok cands
    /\ length cands <= 2.
Proof.
  eexists. split; [vm_compute; reflexivity|].
  refine (@row_candidates_bound Toy.numeric (Toy.prompter false 12) "a" "b" 2
            [0; 5; 4; 6; 2]%Z
            (fst (Toy.toy_topk [7; 8]%Z 2 [0; 5; 4; 6; 2]%Z))
            (snd (Toy.toy_topk [7; 8]%Z 2 [0; 5; 4; 6; 2]%Z)) _ _).
  vm_compute. reflexivity.
Defined.

(* ------------------------------------------------------------------ *)
(** ** Selecting by perplexity *)

Lemma py_index_first {A : Type} (eqb : A -> A -> bool) (l : list A) (v : A) (i : nat) :
  py_index eqb l v = Ok i ->
  (exists x, nth_error l i = Some x /\ eqb x v = true)
  /\ forall j y, j < i -> nth_error l j = Some y -> eqb y v = false.
Proof.
  revert i; induction l as [|x l IH]; intros i H; cbn [py_index] in H;
    [discriminate|].
  destruct (eqb x v) eqn:E.
  - apply Ok_inj in H. subst i. split; [exists x; auto | intros j y Hj; lia].
  - apply bind_ok in H. destruct H as (i' & Hi' & H). apply Ok_inj in H. subst i.
    destruct (IH _ Hi') as ((y & Hy & Hyv) & Hbefore). split.
    + exists y. auto.
    + intros [|j] z Hj Hz.
      * cbn in Hz. injection Hz as <-. exact E.
      * cbn in Hz. apply (Hbefore j z); [lia | exact Hz].
Qed.

Lemma py_index_found {A : Type} (eqb : A -> A -> bool) (l : list A) (v : A) :
  In v l -> eqb v v = true -> exists i, py_index eqb l v = Ok i.
Proof.
  intros Hin Hrefl. induction l as [|x l IH]; [contradiction|].
  cbn [py_index]. destruct (eqb x v) eqn:E; [eauto|].
  destruct Hin as [->|Hin]; [congruence|].
  destruct (IH Hin) as (i & ->). cbn [bind]. eauto.
Qed.

(** X13. With as many perplexities as candidates (at least one), under an
    ordering of the numbers that is a strict weak order with [==] as
    equality, the selection returns the candidate at the first position
    whose perplexity is minimal: no perplexity is smaller, and no earlier
    candidate has the same perplexity. *)
Theorem pick_min_perplexity_first_minimum :
  forall (N : Numeric) (candidates : list string) (ppl : list (num N)),
    (forall x, num_ltb N x x = false) ->
    (forall x y z, num_ltb N x y = true -> num_ltb N y z = true ->
                   num_ltb N x z = true) ->
    (forall x y z, num_ltb N x z = true ->
                   num_ltb N x y = true \/ num_ltb N y z = true) ->
    (forall x y, num_eqb N x y = true <-> x = y) ->
    length candidates = length ppl ->
    ppl <> [] ->
    exists i s m,
      pick_min_perplexity candidates ppl = Ok s
      /\ nth_error candidates i = Some s
      /\ nth_error ppl i = Some m
      /\ (forall y, In y ppl -> num_ltb N y m = false)
      /\ (forall j y, j < i -> nth_error ppl j = Some y -> y <> m).
Proof.
  intros N cands ppl Hirr Htr Hneg Heq Hlen Hne.
  unfold pick_min_perplexity.
  destruct (py_min (num_ltb N) ppl) as [m|e] eqn:Hm;
    [|destruct ppl; [contradiction | discriminate]].
  destruct (py_min_minimal _ _ Hirr Htr Hneg Hm) as (Hin & Hmin).
  destruct (py_index_found (num_eqb N) ppl m Hin) as (i & Hi);
    [apply Heq; reflexivity|].
  destruct (py_index_first _ _ _ Hi) as ((x & Hx & Hxm) & Hbefore).
  apply Heq in Hxm. subst x.
  assert (Hlt : i < length cands).
  { rewrite Hlen. apply nth_error_Some. congruence. }
  destruct (nth_error cands i) as [s|] eqn:Hs;
    [|apply nth_error_None in Hs; lia].
  exists i, s, m. cbn [bind]. rewrite Hi. cbn [bind]. unfold py_nth. rewrite Hs.
  repeat split; auto.
  intros j y Hj Hy Hym. specialize (Hbefore j y Hj Hy).
  apply Heq in Hym. congruence.
Qed.

Lemma pick_min_perplexity_first_minimum_witness :
  exists i s m,
    pick_min_perplexity (N := Toy.numeric) ["p"; "q"; "r"] [3; 1; 1]%Z = Ok s
    /\ nth_error ["p"; "q"; "r"] i = Some s
    /\ nth_error [3; 1; 1]%Z i = Some m
    /\ (forall y, In y [3; 1; 1]%Z -> Z.ltb y m = false)
    /\ (forall j y, j < i -> nth_error [3; 1; 1]%Z j = Some y -> y <> m).
Proof.
  apply (@pick_min_perplexity_first_minimum Toy.numeric ["p"; "q"; "r"]
           [3; 1; 1]%Z).
  - intros x. apply Z.ltb_irrefl.
  - intros x y z H1 H2. apply Z.ltb_lt in H1, H2. apply Z.ltb_lt. simpl in *. lia.
  - intros x y z H. apply Z.ltb_lt in H. simpl in *.
    destruct (Z.ltb_spec x y); [left; reflexivity|].
    right. apply Z.ltb_lt. lia.
  - intros x y. apply Z.eqb_eq.
  - reflexivity.
  - discriminate.
Defined.

(* ------------------------------------------------------------------ *)
(** ** What the constructor establishes *)

(** X14. A constructed [Prompter] holds the tokenizer the hub gives for the
    model name, and its [max_length] never exceeds the tokenizer's
    [model_max_length]: it is the requested length when one is given (and
    is not zero), and [model_max_length] otherwise.  The tokenizer and the
    configuration have been loaded, in this order, and nothing else. *)
Theorem prompter_init_max_length :
  forall (hub : Hub) (model : string) (max_length_ : option Z)
         (cache_dir_ : string) (num_worker_ : Z)
         (tr : list Event) (p : Prompter),
    Prompter_init hub model max_length_ cache_dir_ num_worker_ = (tr, Ok p) ->
    hub model = Some (tokenizer p)
    /\ (max_length p <= model_max_length (tokenizer p))%Z
    /\ (forall m, max_length_ = Some m -> m <> 0%Z -> max_length p = m)
    /\ (max_length_ = None \/ max_length_ = Some 0%Z ->
        max_length p = model_max_length (tokenizer p))
    /\ filter is_load tr
       = [LoadTokenizer model cache_dir_; LoadConfig model cache_dir_].
Proof.
  intros hub model ml cd nw tr p. unfold Prompter_init.
  destruct (contains "gpt" model); [intros H; inversion H|].
  destruct (hub model) as [tk|]; [|intros H; inversion H].
  intros H. injection H as <- H.
  apply bind_ok in H. destruct H as (m & Hm & H).
  apply bind_ok in H. destruct H as (ps & _ & H). apply Ok_inj in H. subst p.
  cbn [tokenizer max_length]. split; [reflexivity|].
  assert (Htr : filter is_load
                  (((if (nw =? 1)%Z then [SetEnv "OMP_NUM_THREADS" "1"] else [])
                    ++ [LoadTokenizer model cd]) ++ [LoadConfig model cd])
                = [LoadTokenizer model cd; LoadConfig model cd])
    by (destruct (nw =? 1)%Z; reflexivity).
  destruct ml as [m0|].
  - destruct (m0 =? 0)%Z eqn:E0.
    + apply Ok_inj in Hm. subst m. apply Z.eqb_eq in E0. subst m0.
      repeat split; auto; try lia. intros m' [= <-] Hne. contradiction.
    + destruct (model_max_length tk >=? m0)%Z eqn:Ege; [|discriminate].
      apply Ok_inj in Hm. subst m. apply Z.eqb_neq in E0.
      repeat split; auto; try lia.
      * intros m' [= <-] _. reflexivity.
      * intros [H|H]; [discriminate | injection H as ->; contradiction].
  - apply Ok_inj in Hm. subst m. repeat split; auto; try lia.
    intros m' H. discriminate.
Qed.

Lemma prompter_init_max_length_witness :
  (max_length (Toy.prompter false 12)
   <= model_max_length (tokenizer (Toy.prompter false 12)))%Z.
Proof.
  exact (proj1 (proj2 (@prompter_init_max_length (Toy.hub false) "toy-base"
                         (Some 12%Z) "./cache" 0 _ _ eq_refl))).
Defined.

Lemma py_index_split (l : list string) (v : string) (i : nat) :
  py_index String.eqb l v = Ok i ->
  l = firstn i l ++ v :: skipn (S i) l /\ ~ In v (firstn i l).
Proof.
  revert i; induction l as [|x l IH]; intros i H; cbn [py_index] in H;
    [discriminate|].
  destruct (String.eqb x v) eqn:E.
  - apply Ok_inj in H. subst i. apply String.eqb_eq in E. subst x.
    split; [reflexivity | intros []].
  - apply bind_ok in H. destruct H as (i' & Hi' & H). apply Ok_inj in H. subst i.
    destruct (IH _ Hi') as (Hl & Hn). cbn [firstn skipn]. split.
    + cbn [app]. f_equal. exact Hl.
    + intros [->|Hin]; [rewrite String.eqb_refl in E; discriminate | auto].
Qed.

(** X15. The special-token prefix the constructor computes is what the
    tokenizer's encoding of the probe sentence holds before the first
    occurrence of the sentence's first token; the suffix is what it holds
    after the first occurrence of the sentence's last token. *)
Theorem sp_tokens_split :
  forall (tk : Tokenizer) (pre suf : list string),
    sp_tokens tk = Ok (pre, suf) ->
    exists first last_ after before,
      hd_error (tokenize tk the_probe) = Some first
      /\ last (tokenize tk the_probe) first = last_
      /\ convert_ids_to_tokens tk (encode tk the_probe) = pre ++ first :: after
      /\ ~ In first pre
      /\ convert_ids_to_tokens tk (encode tk the_probe) = before ++ last_ :: suf
      /\ ~ In last_ before.
Proof.
  intros tk pre suf H. unfold sp_tokens in H.
  apply bind_ok in H. destruct H as (first & Hfirst & H).
  apply bind_ok in H. destruct H as (i & Hi & H).
  apply bind_ok in H. destruct H as (last_ & Hlast & H).
  apply bind_ok in H. destruct H as (j & Hj & H).
  apply Ok_inj in H. injection H as <- <-.
  destruct (py_index_split _ _ Hi) as (Hsi & Hni).
  destruct (py_index_split _ _ Hj) as (Hsj & Hnj).
  exists first, last_, (skipn (S i) (convert_ids_to_tokens tk (encode tk the_probe))),
    (firstn j (convert_ids_to_tokens tk (encode tk the_probe))).
  replace (j + 1) with (S j) by lia.
  repeat split; auto.
  - unfold py_getitem in Hfirst. cbn in Hfirst.
    destruct (tokenize tk the_probe) as [|t ts]; [discriminate|].
    cbn in Hfirst. apply Ok_inj in Hfirst. subst t. reflexivity.
  - unfold py_getitem in Hlast.
    set (toks := tokenize tk the_probe) in *.
    destruct ((-1 <? 0)%Z) eqn:E; [|discriminate].
    destruct ((0 <=? -1 + Z.of_nat (length toks)) &&
              (-1 + Z.of_nat (length toks) <? Z.of_nat (length toks)))%Z eqn:Eb;
      [|discriminate].
    apply andb_true_iff in Eb. destruct Eb as (Eb & _). apply Z.leb_le in Eb.
    unfold py_nth in Hlast.
    replace (Z.to_nat (-1 + Z.of_nat (length toks))) with (length toks - 1)
      in Hlast by lia.
    destruct (nth_error toks (length toks - 1)) as [x|] eqn:En; [|discriminate].
    apply Ok_inj in Hlast. subst x.
    assert (Hne : toks <> []) by (intros Ht; rewrite Ht in Eb; simpl in Eb; lia).
    destruct (exists_last Hne) as (l' & a & Hl). rewrite Hl in En |- *.
    rewrite last_last. rewrite length_app in En. cbn [length] in En.
    rewrite nth_error_app2 in En by lia.
    replace (length l' + 1 - 1 - length l') with 0 in En by lia.
    cbn in En. congruence.
Qed.

Lemma sp_tokens_split_witness :
  exists first last_ after before,
    hd_error (tokenize (Toy.toy_tokenizer false) the_probe) = Some first
    /\ last (tokenize (Toy.toy_tokenizer false) the_probe) first = last_
    /\ convert_ids_to_tokens (Toy.toy_tokenizer false)
         (encode (Toy.toy_tokenizer false) the_probe)
       = ["<s>"] ++ first :: after
    /\ ~ In first ["<s>"]
    /\ convert_ids_to_tokens (Toy.toy_tokenizer false)
         (encode (Toy.toy_tokenizer false) the_probe)
       = before ++ last_ :: ["</s>"]
    /\ ~ In last_ before.
Proof.
  apply (@sp_tokens_split (Toy.toy_tokenizer false) ["<s>"] ["</s>"]).
  reflexivity.
Defined.

(* ------------------------------------------------------------------ *)
(** ** The candidates of [seed_type='best'] *)

(** X16. The candidate templates [pair_to_seed] builds for 'best' are
    exactly the strings made of [pre_n] mask tokens, the head, [mid_n] mask
    tokens and the tail, joined by spaces, for [0 <= pre_n], [1 <= mid_n]
    and [pre_n + mid_n + 2 <= max_length]. *)
Theorem best_candidates_exactly :
  forall (self : Prompter) (h t c : string),
    In c (best_candidates self h t)
    <-> exists pre_n mid_n,
          (0 <= pre_n)%Z /\ (1 <= mid_n)%Z
          /\ (pre_n + mid_n + 2 <= max_length self)%Z
          /\ c = join " "
                   ((py_repeat (mask_token (tokenizer self)) pre_n ++ [h])
                    ++ (py_repeat (mask_token (tokenizer self)) mid_n ++ [t])).
Proof. exact best_candidates_spec. Qed.

Lemma length_flat_map_sum {A B : Type} (f : A -> list B) (l : list A) :
  length (flat_map f l) = list_sum (map (fun x => length (f x)) l).
Proof.
  induction l as [|x l IH]; cbn [flat_map map list_sum]; [reflexivity|].
  rewrite length_app, IH. reflexivity.
Qed.

Lemma triangle_sum (n k : nat) :
  k <= n ->
  2 * list_sum (map (fun i => n - i) (seq 0 k)) = k * (2 * n + 1 - k).
Proof.
  induction k as [|k IH]; intros Hk; [reflexivity|].
  rewrite seq_S, map_app, list_sum_app. simpl.
  specialize (IH ltac:(lia)).
  remember (list_sum (map (fun i => n - i) (seq 0 k))) as total eqn:HS. clear HS.
  remember (n - k) as c eqn:Hc. remember (n + (n + 0) + 1 - S k) as b eqn:Hb.
  remember (2 * n + 1 - k) as a eqn:Ha.
  assert (a = b + 1) by lia. assert (2 * c + k = b) by lia. subst a.
  nia.
Qed.

(** X17. 'best' scores [n (n + 1) / 2] candidate templates for each word
    pair, where [n = max_length - 2] (none when [max_length <= 2]). *)
Theorem best_candidates_count :
  forall (self : Prompter) (h t : string),
    2 * length (best_candidates self h t)
    = Z.to_nat (max_length self - 2) * (Z.to_nat (max_length self - 2) + 1).
Proof.
  intros self h t. unfold best_candidates.
  set (n := Z.to_nat (max_length self - 2)).
  rewrite length_flat_map_sum. unfold py_range at 2.
  replace (Z.to_nat (max_length self - 2 - 0)) with n by lia.
  rewrite map_map.
  rewrite (map_ext_in _ (fun i => n - i)).
  - rewrite triangle_sum by lia. nia.
  - intros i Hi. apply in_seq in Hi. rewrite length_map. unfold py_range.
    rewrite length_map, length_seq. lia.
Qed.

(* ------------------------------------------------------------------ *)
(** ** Cleaning a decoded sentence: [cleanup_decode] *)

Lemma lstrip_head (s : string) (c : ascii) (rest : string) :
  lstrip s = String c rest -> is_space c = false.
Proof.
  induction s as [|x s IH]; cbn [lstrip]; [discriminate|].
  destruct (is_space x) eqn:E; [exact IH|].
  intros H. injection H as <- _. exact E.
Qed.

Lemma lstrip_chars (s : string) (c : ascii) :
  In c (list_ascii_of_string (lstrip s)) -> In c (list_ascii_of_string s).
Proof.
  induction s as [|x s IH]; cbn [lstrip]; [tauto|].
  destruct (is_space x); [intros H; right; apply IH, H | tauto].
Qed.

Lemma delete_literals_chars (alts : list string) (s : string) (c : ascii) :
  forall (skip : nat),
    In c (list_ascii_of_string (sub_literals alts (fun _ => EmptyString) skip s)) ->
    In c (list_ascii_of_string s).
Proof.
  induction s as [|x s IH]; intros skip; cbn [sub_literals]; [tauto|].
  destruct skip as [|k].
  - destruct (find _ alts) as [t|].
    + destruct (String.length t).
      * cbn [list_ascii_of_string]. intros [H|H]; [left; exact H | right; eapply IH; eauto].
      * cbn [String.append]. intros H. right. eapply IH; eauto.
    + cbn [list_ascii_of_string]. intros [H|H]; [left; exact H | right; eapply IH; eauto].
  - intros H. right. eapply IH; eauto.
Qed.

Lemma collapse_spaces_chars (s : string) (c : ascii) :
  forall (in_run : bool),
    In c (list_ascii_of_string (collapse_spaces in_run s)) ->
    is_space c = true -> c = " "%char.
Proof.
  induction s as [|x s IH]; intros in_run; cbn [collapse_spaces]; [intros []|].
  destruct (is_space x) eqn:E.
  - destruct in_run; [apply IH|].
    cbn [list_ascii_of_string]. intros [H|H] Hc; [congruence | eapply IH; eauto].
  - cbn [list_ascii_of_string]. intros [H|H] Hc; [congruence | eapply IH; eauto].
Qed.

(** X18. The sentence [cleanup_decode] returns never starts with a
    whitespace character, and the only whitespace character it holds is the
    space: tabs and line breaks of the decoded text are gone. *)
Theorem cleanup_decode_whitespace :
  forall (self : Prompter) (sentence : string),
    (forall c rest,
        cleanup_decode self sentence = String c rest -> is_space c = false)
    /\ (forall c,
           In c (list_ascii_of_string (cleanup_decode self sentence)) ->
           is_space c = true -> c = " "%char).
Proof.
  intros self sentence. unfold cleanup_decode. split.
  - intros c rest H. eapply lstrip_head; eauto.
  - intros c Hc Hs. apply lstrip_chars in Hc.
    apply delete_literals_chars in Hc.
    eapply collapse_spaces_chars; eauto.
Qed.

(* ------------------------------------------------------------------ *)
(** ** [replace_mask]: malformed pairs and the shape of the edit history *)

(** X19. With [seed_type] 'middle' or 'whole', a word pair that does not
    have exactly two words makes [replace_mask] raise the length assertion
    of [pair_to_seed], whatever the model and the other arguments. *)
Theorem replace_mask_word_pair_size :
  forall (N : Numeric) (lm : Model N) (self : Prompter) (fuel : nat)
         (word_pairs : WordPairs)
         (n_blank n_revision topk_ topk_per_position : Z) (seed_type : string)
         (batch_size : Z) (perplexity_filter : bool)
         (n_blank_prefix n_blank_suffix : Z)
         (pairs : list (list string)) (pair : list string),
    as_pair_list word_pairs = Ok pairs ->
    seed_type = "middle" \/ seed_type = "whole" ->
    In pair pairs -> length pair <> 2 ->
    replace_mask lm self fuel word_pairs n_blank n_revision topk_
                 topk_per_position seed_type batch_size perplexity_filter
                 n_blank_prefix n_blank_suffix
    = Some (Err (AssertionError A_word_pair_length)).
Proof.
  intros N lm self fuel wp nb nr k kp st bs pf nbp nbs pairs pair Hpairs Hst
         Hin Hlen.
  unfold replace_mask. rewrite Hpairs.
  rewrite (@mapM_err_hit _ _ _ pairs (AssertionError A_word_pair_length) pair);
    [reflexivity| |exact Hin|].
  - intros x _. unfold pair_to_seed.
    destruct x as [|h [|t [|? ?]]]; try (right; reflexivity).
    left. destruct Hst as [->| ->]; cbn; eexists; reflexivity.
  - unfold pair_to_seed.
    destruct pair as [|h [|t [|? ?]]]; try reflexivity.
    cbn in Hlen. contradiction.
Qed.

Lemma replace_mask_word_pair_size_witness :
  replace_mask (Toy.toy_model [7; 8]%Z) (Toy.prompter false 12) 5
               (ManyPairs [["a"; "b"]; ["x"; "y"; "a"]]) 2 2 5 2 "middle" 4
               true 2 2
  = Some (Err (AssertionError A_word_pair_length)).
Proof.
  apply (@replace_mask_word_pair_size Toy.numeric (Toy.toy_model [7; 8]%Z)
           (Toy.prompter false 12) 5 (ManyPairs [["a"; "b"]; ["x"; "y"; "a"]])
           2 2 5 2 "middle" 4 true 2 2 [["a"; "b"]; ["x"; "y"; "a"]]
           ["x"; "y"; "a"]).
  - reflexivity.
  - left. reflexivity.
  - right. left. reflexivity.
  - discriminate.
Defined.

Lemma zip_star_aux_rect {A : Type} (d : A) (n : nat) :
  forall (rows : list (list A)),
    Forall (fun r => length r = n) rows ->
    zip_star_aux n rows = map (fun i => map (fun r => nth i r d) rows) (seq 0 n).
Proof.
  induction n as [|n IH]; intros rows Hrows; [reflexivity|].
  cbn [zip_star_aux].
  assert (Hnil : existsb (@is_nil A) rows = false).
  { clear IH. induction Hrows as [|r rows Hr _ IHr]; [reflexivity|].
    cbn [existsb]. rewrite IHr. destruct r; [discriminate | reflexivity]. }
  rewrite Hnil. cbn [seq map]. f_equal.
  - clear IH Hnil. induction Hrows as [|r rows Hr _ IHr]; [reflexivity|].
    cbn [map]. destruct r as [|x r]; [discriminate|].
    cbn [hd_error filter_None nth]. f_equal. exact IHr.
  - rewrite IH.
    + rewrite <- seq_shift, map_map. apply map_ext. intros i.
      rewrite map_map. apply map_ext. intros r. destruct r; [destruct i|]; reflexivity.
    + clear IH Hnil. induction Hrows as [|r rows Hr _ IHr]; [constructor|].
      cbn [map]. constructor; [|exact IHr]. destruct r; [discriminate|].
      cbn in *. lia.
Qed.

Section EditHistory.

Variable self : Prompter.
Variable step : list string -> Result (list string).
Variable n : nat.
Hypothesis Hstep : forall s s', step s = Ok s' -> length s' = n.

Lemma fill_loop_rows (fuel : nat) :
  forall (s : list string) (edit : list (list string))
         (s' : list string) (edit' : list (list string)),
    fill_loop self fuel step s edit = Some (Ok (s', edit')) ->
    length s' = n
    /\ exists extra, edit' = edit ++ extra /\ Forall (fun r => length r = n) extra.
Proof.
  induction fuel as [|fuel IH]; intros s edit s' edit' H;
    cbn [fill_loop] in H; [discriminate|].
  destruct (step s) as [s1|e] eqn:Es; [|discriminate].
  destruct (mask_free self s1).
  - injection H as <- <-. split; [eapply Hstep; eauto|].
    exists []. rewrite app_nil_r. split; [reflexivity | constructor].
  - destruct (IH _ _ _ _ H) as (Hs' & extra & -> & Hextra).
    split; [exact Hs'|]. exists (s1 :: extra). rewrite <- app_assoc.
    split; [reflexivity|]. constructor; [eapply Hstep; eauto | exact Hextra].
Qed.

Lemma revision_loop_rows (k : nat) :
  forall (s : list string) (edit : list (list string))
         (s' : list string) (edit' : list (list string)),
    revision_loop k step s edit = Ok (s', edit') ->
    exists extra,
      edit' = edit ++ extra
      /\ length extra = k
      /\ Forall (fun r => length r = n) extra
      /\ (0 < k -> last extra [] = s')
      /\ (k = 0 -> s' = s).
Proof.
  induction k as [|k IH]; intros s edit s' edit' H; cbn [revision_loop] in H.
  - injection H as <- <-. exists []. rewrite app_nil_r.
    repeat split; auto; try constructor. lia.
  - apply bind_ok in H. destruct H as (s1 & Hs1 & H).
    destruct (IH _ _ _ _ H) as (extra & -> & Hlen & Hall & Hlast & Hzero).
    exists (s1 :: extra). rewrite <- app_assoc. cbn [app length].
    repeat split; auto; try lia.
    + constructor; [eapply Hstep; eauto | exact Hall].
    + intros _. destruct extra as [|x extra].
      * cbn in Hlen. cbn. symmetry. apply Hzero. lia.
      * rewrite <- (Hlast ltac:(cbn in Hlen; lia)). reflexivity.
Qed.

End EditHistory.

(** X20. When [replace_mask] returns, it returns one sentence and one edit
    history per word pair.  All histories have the same length, more than
    [n_revision]; the history of a pair starts with its seed template and,
    if [n_revision] is positive, ends with the returned sentence. *)
Theorem replace_mask_edit_history :
  forall (N : Numeric) (lm : Model N) (self : Prompter) (fuel : nat)
         (word_pairs : WordPairs)
         (n_blank n_revision topk_ topk_per_position : Z) (seed_type : string)
         (batch_size : Z) (perplexity_filter : bool)
         (n_blank_prefix n_blank_suffix : Z)
         (pairs : list (list string)) (seeds final : list string)
         (edit : list (list string)),
    as_pair_list word_pairs = Ok pairs ->
    mapM (fun x => pair_to_seed lm self x n_blank n_blank_prefix n_blank_suffix
                     batch_size seed_type) pairs = Ok seeds ->
    replace_mask lm self fuel word_pairs n_blank n_revision topk_
                 topk_per_position seed_type batch_size perplexity_filter
                 n_blank_prefix n_blank_suffix = Some (Ok (final, edit)) ->
    length final = length pairs
    /\ length edit = length pairs
    /\ exists len,
         Z.to_nat n_revision < len
         /\ forall i history,
              nth_error edit i = Some history ->
              length history = len
              /\ hd_error history = nth_error seeds i
              /\ (0 < Z.to_nat n_revision ->
                  nth_error history (len - 1) = nth_error final i).
Proof.
  intros N lm self fuel wp nb nr k kp st bs pf nbp nbs pairs seeds final edit
         Hpairs Hseeds H.
  unfold replace_mask in H. rewrite Hpairs, Hseeds in H.
  set (step := fun s => replace_single_mask lm self s pairs bs k kp pf) in *.
  assert (Hstep : forall s s', step s = Ok s' -> length s' = length pairs).
  { intros s s' Hs. unfold step, replace_single_mask in Hs.
    apply bind_ok in Hs. destruct Hs as (filling & Hf & Hb).
    apply greedy_filling_filter in Hf. destruct Hf as (Hl & _).
    apply best_edit_picks in Hb. destruct Hb as (Hl' & _). congruence. }
  assert (Hls : length seeds = length pairs)
    by (eapply mapM_ok_length; eauto).
  destruct (fill_loop self fuel step seeds [seeds]) as [[filled|e]|] eqn:Hfill;
    try discriminate.
  destruct filled as (s1 & edit1).
  destruct (fill_loop_rows self step Hstep _ _ _ Hfill)
    as (Hs1 & extra1 & -> & Hextra1).
  injection H as H. apply bind_ok in H. destruct H as (out & Hrev & H).
  destruct out as (s2 & edit2). cbn [fst snd] in Hrev, H.
  injection H as <- <-.
  destruct (revision_loop_rows step Hstep _ _ _ Hrev)
    as (extra2 & -> & Hlen2 & Hextra2 & Hlast & Hzero).
  assert (Hfinal : length s2 = length pairs).
  { destruct (Z.to_nat nr) as [|r] eqn:Er.
    - rewrite (Hzero eq_refl). exact Hs1.
    - destruct extra2 as [|x extra2]; [discriminate|].
      rewrite <- (Hlast ltac:(lia)).
      rewrite Forall_forall in Hextra2. apply Hextra2.
      destruct (@exists_last _ (x :: extra2) ltac:(discriminate)) as (l' & a & Hl).
      rewrite Hl, last_last. apply in_or_app. right. left. reflexivity. }
  split; [exact Hfinal|].
  set (rows := ([seeds] ++ extra1) ++ extra2).
  assert (Hrows : Forall (fun r => length r = length pairs) rows).
  { unfold rows. apply Forall_app. split; [apply Forall_app; split|]; auto. }
  assert (Hzip : zip_star rows
                 = map (fun i => map (fun r => nth i r EmptyString) rows)
                       (seq 0 (length pairs))).
  { unfold zip_star. unfold rows at 1. cbn [app]. fold ([seeds] ++ extra1).
    rewrite Hls. apply zip_star_aux_rect. exact Hrows. }
  change ((seeds :: extra1) ++ extra2) with rows.
  rewrite Hzip. split; [rewrite length_map, length_seq; reflexivity|].
  exists (length rows). split.
  { unfold rows. rewrite !length_app. cbn [length]. lia. }
  intros i history Hi.
  assert (Hlt : i < length pairs).
  { pose proof (nth_error_Some
                  (map (fun i => map (fun r => nth i r EmptyString) rows)
                       (seq 0 (length pairs))) i) as Hsome.
    rewrite length_map, length_seq in Hsome. apply Hsome. congruence. }
  rewrite nth_error_map, (nth_error_nth' _ 0) in Hi
    by (rewrite length_seq; exact Hlt).
  rewrite seq_nth in Hi by exact Hlt. cbn [option_map Nat.add] in Hi.
  assert (Hh : history = map (fun r => nth i r EmptyString) rows) by congruence.
  subst history. clear Hi. split; [apply length_map|]. split.
  - unfold rows. cbn [app map hd_error].
    symmetry. apply nth_error_nth'. lia.
  - intros Hpos. rewrite nth_error_map.
    assert (Hrow : nth_error rows (length rows - 1) = Some s2).
    { unfold rows. destruct extra2 as [|x extra2]; [cbn in Hlen2; lia|].
      destruct (@exists_last _ (x :: extra2) ltac:(discriminate)) as (l' & a & Hl).
      pose proof (Hlast Hpos) as Hla. rewrite Hl, last_last in Hla. subst a.
      rewrite Hl, app_assoc, length_app. cbn [length].
      rewrite nth_error_app2 by lia.
      replace (length (([seeds] ++ extra1) ++ l') + 1 - 1
               - length (([seeds] ++ extra1) ++ l')) with 0 by lia.
      reflexivity. }
    rewrite Hrow. cbn [option_map]. symmetry. apply nth_error_nth'. lia.
Qed.

Lemma replace_mask_edit_history_witness :
  length ["a x x b "; "x x x y "] = length [["a"; "b"]; ["x"; "y"]].
Proof.
  refine (proj1 (@replace_mask_edit_history Toy.numeric (Toy.toy_model [7; 8]%Z)
                   (Toy.prompter false 12) 5
                   (ManyPairs [["a"; "b"]; ["x"; "y"]]) 2 2 5 2 "middle" 4 true
                   2 2 [["a"; "b"]; ["x"; "y"]]
                   ["a <mask> <mask> b"; "x <mask> <mask> y"]
                   ["a x x b "; "x x x y "]
                   [["a <mask> <mask> b"; "a x <mask> b "; "a x x b "; "a x x b "];
                    ["x <mask> <mask> y"; "x x <mask> y "; "x x x y "; "x x x y "]]
                   eq_refl eq_refl _)).
  vm_compute. reflexivity.
Defined.

(* ------------------------------------------------------------------ *)
(** ** What padding to [max_length] does to the module *)

(** X21. With a tokenizer that pads every encoding to [max_length], as
    [encode_plus] requests, [get_perplexity] returns only for the empty list
    of sentences. *)
Theorem padded_get_perplexity_only_empty :
  forall (N : Numeric) (lm : Model N) (self : Prompter)
         (sentences : list string) (batch_size : Z) (r : list (num N)),
    pads_to_max_length self ->
    get_perplexity lm self sentences batch_size = Ok r ->
    sentences = [].
Proof.
  intros N lm self sentences bs r Hpad H.
  exact (@padded_get_perplexity N lm self Hpad sentences bs r H).
Qed.

Lemma padded_get_perplexity_only_empty_witness : @nil string = [].
Proof.
  refine (@padded_get_perplexity_only_empty Toy.numeric (Toy.toy_model [7; 8]%Z)
            (Toy.prompter true 8) [] 4 [] (toy_tokenizer_pads _) eq_refl).
  discriminate.
Defined.

(** X22. With such a tokenizer [replace_single_mask] raises on every
    non-empty list of sentences: a sentence with a mask token fails the
    length assertion, and one without has no candidate. *)
Theorem padded_replace_single_mask_never_returns :
  forall (N : Numeric) (lm : Model N) (self : Prompter)
         (seed_sentences : list string) (word_pairs : list (list string))
         (batch_size topk_ topk_per_position : Z) (perplexity_filter : bool),
    pads_to_max_length self ->
    seed_sentences <> [] ->
    exists e,
      replace_single_mask lm self seed_sentences word_pairs batch_size topk_
                          topk_per_position perplexity_filter = Err e.
Proof.
  intros N lm self seeds wps bs k kp pf Hpad Hne.
  exact (@padded_replace_single_mask_raises N lm self Hpad seeds wps bs k kp pf Hne).
Qed.

Lemma padded_replace_single_mask_never_returns_witness :
  exists e,
    replace_single_mask (Toy.toy_model [7; 8]%Z) (Toy.prompter true 8)
                        ["a <mask> b"] [["a"; "b"]] 4 5 2 true = Err e.
Proof.
  apply (@padded_replace_single_mask_never_returns Toy.numeric
           (Toy.toy_model [7; 8]%Z) (Toy.prompter true 8)
           ["a <mask> b"] [["a"; "b"]] 4 5 2 true).
  - apply toy_tokenizer_pads. discriminate.
  - discriminate.
Defined.
